(** * FinTechX: session authority, batch execution engine, fraud rule engine

    A shallow embedding of [fintechx_desktop/app/auth.py],
    [fintechx_desktop/app/batch_processing.py] and
    [fintechx_desktop/app/fraud_detection.py], and the properties of the
    specification proved (or refuted) over it.

    Conventions of the embedding:
    - a [datetime] is a number of microseconds ([Z]), a [timedelta] likewise;
    - a [datetime] is counted from [datetime.min];
    - a Python [str] is the [string] of the bytes of its UTF-8 encoding;
      [str.lower], [str.upper] and the search of a pattern with the case
      ignored follow the Unicode tables and are taken from the platform,
      which says what they are on texts of ASCII characters;
    - a method that mutates [self] is a computation in the state monad [M]
      over the object; [datetime.now()], [uuid.uuid4()] and [os.urandom] read
      the platform's clock and entropy source, one reading per call, in the
      order of the calls in the source;
    - an insertion-ordered [dict] whose order the code observes is an
      association list updated in place; a [dict] used as a plain table is a
      [gmap];
    - calls to [logging] have no effect on the state and are left out;
    - the thread that [start_batch_job] starts is not modelled:
      [process_batch] is the sequential function that thread runs. *)

From Stdlib Require Import QArith Qcanon Ascii.
From stdpp Require Import base option list gmap strings numbers countable pretty.

Local Open Scope Z_scope.

(** ** Python strings

    Equality, concatenation, [startswith] and [in] on texts are those of
    their UTF-8 encodings. *)

Definition lower_ascii (c : ascii) : ascii :=
  let n := nat_of_ascii c in
  if ((65 <=? n) && (n <=? 90))%nat then ascii_of_nat (n + 32) else c.

Definition upper_ascii (c : ascii) : ascii :=
  let n := nat_of_ascii c in
  if ((97 <=? n) && (n <=? 122))%nat then ascii_of_nat (n - 32) else c.

Fixpoint str_map (f : ascii → ascii) (s : string) : string :=
  match s with
  | EmptyString => EmptyString
  | String c s' => String (f c) (str_map f s')
  end.

(** The text is made of ASCII characters *)
Fixpoint ascii_only (s : string) : bool :=
  match s with
  | EmptyString => true
  | String c s' => (nat_of_ascii c <? 128)%nat && ascii_only s'
  end.

(** [s.startswith(p)] *)
Definition startswith (s p : string) : bool := String.prefix p s.

(** [p in s] for strings: [p] occurs in [s] *)
Fixpoint contains (s p : string) : bool :=
  String.prefix p s ||
  match s with
  | EmptyString => false
  | String _ s' => contains s' p
  end.

(** ** The platform: clock, entropy, and library functions taken as given *)

Class Platform := {
  (** [clock n] is the value returned by the call number [n] of
      [datetime.now()], in microseconds from [datetime.min] *)
  clock : nat → Z;
  (** [entropy n] is the text of the draw number [n] of the entropy source:
      [str(uuid.uuid4())] or [os.urandom(32).hex()] *)
  entropy : nat → string;
  (** [hashlib.pbkdf2_hmac('sha256', password, bytes.fromhex(salt), 100000).hex()],
      on a salt that is hexadecimal text, as [create_user] makes it *)
  pbkdf2_hmac_sha256_hex : string → string → string;
  (** [datetime.isoformat] *)
  isoformat : Z → string;
  (** [datetime.strftime('%Y-%m-%d %H:%M:%S')] *)
  strftime : Z → string;
  (** [str] of a number, as an f-string prints it *)
  str_of_num : Qc → string;
  (** [str] of an integer *)
  str_of_int : Z → string;
  (** [str.lower] and [str.upper]. On a text of ASCII characters they change
      the ASCII letters and nothing else; the upper case of a text that is
      not empty is not empty. *)
  lower : string → string;
  upper : string → string;
  lower_ascii_only : ∀ s, ascii_only s = true → lower s = str_map lower_ascii s;
  upper_ascii_only : ∀ s, ascii_only s = true → upper s = str_map upper_ascii s;
  upper_nonempty : ∀ s, upper s = "" → s = "";
  (** [re.compile("w1|...|wn", re.IGNORECASE).search(text)] finds a match,
      for words [w1], ..., [wn] of letters. On a text of ASCII characters
      and such words of ASCII letters, it finds one exactly when one of
      the words occurs in the text, the case of the ASCII letters apart. *)
  re_search_ignorecase : list string → string → bool;
  re_search_ascii_only : ∀ words text,
    ascii_only text = true → forallb ascii_only words = true →
    re_search_ignorecase words text
    = existsb (λ word, contains (str_map lower_ascii text) (str_map lower_ascii word))
        words
}.

(** How many readings of the clock and of the entropy source were made. *)
Record Sys := { ticks : nat; draws : nat }.

(** [n] more readings of the clock *)
Definition tick (n : nat) (s : Sys) : Sys := {| ticks := n + ticks s; draws := draws s |}.

Record World (O : Type) := { self : O; sys : Sys }.
Arguments self {O} _.
Arguments sys {O} _.

(** ** A small state monad *)

Definition State (W A : Type) : Type := W → A * W.

#[global] Instance State_ret {W} : MRet (State W) := λ A a w, (a, w).
#[global] Instance State_bind {W} : MBind (State W) :=
  λ A B k m w, let '(a, w') := m w in k a w'.

Abbreviation M O := (State (World O)).

Definition get {O} : M O O := λ w, (self w, w).
Definition put {O} (s : O) : M O unit := λ w, (tt, {| self := s; sys := sys w |}).
Definition modify {O} (f : O → O) : M O unit :=
  λ w, (tt, {| self := f (self w); sys := sys w |}).

Definition datetime_now `{Platform} {O} : M O Z :=
  λ w, (clock (ticks (sys w)),
        {| self := self w;
           sys := {| ticks := S (ticks (sys w)); draws := draws (sys w) |} |}).

Definition draw_entropy `{Platform} {O} : M O string :=
  λ w, (entropy (draws (sys w)),
        {| self := self w;
           sys := {| ticks := ticks (sys w); draws := S (draws (sys w)) |} |}).

Definition uuid4 `{Platform} {O} : M O string := draw_entropy.
Definition urandom_hex `{Platform} {O} : M O string := draw_entropy.

(** [for x in l: body x] *)
Fixpoint for_each {W A} (l : list A) (body : A → State W unit) : State W unit :=
  match l with
  | [] => mret tt
  | x :: l' => _ ← body x; for_each l' body
  end.

(** [[f x for x in l]] for an effectful [f] *)
Fixpoint map_M {W A B} (f : A → State W B) (l : list A) : State W (list B) :=
  match l with
  | [] => mret []
  | x :: l' => y ← f x; ys ← map_M f l'; mret (y :: ys)
  end.

(** ** Python dictionaries *)

(** An insertion-ordered [dict] with string keys. [dict_set] is [d[k] = v]:
    an existing key keeps its place and gets the new value, a new key goes
    to the end. *)
Definition dict_find {V} (k : string) (d : list (string * V)) : option (nat * (string * V)) :=
  list_find (λ kv, kv.1 = k) d.

Definition dict_get {V} (k : string) (d : list (string * V)) : option V :=
  (λ r, r.2.2) <$> dict_find k d.

Definition dict_set {V} (k : string) (v : V) (d : list (string * V)) : list (string * V) :=
  match dict_find k d with
  | Some (i, _) => <[i := (k, v)]> d
  | None => d ++ [(k, v)]
  end.

Definition dict_keys {V} (d : list (string * V)) : list string := d.*1.

(** [del d[k]], for a key that is in [d] (the code tests it first) *)
Definition dict_del {V} (k : string) (d : list (string * V)) : list (string * V) :=
  match dict_find k d with
  | Some (i, _) => delete i d
  | None => d
  end.

(** * auth.py *)

Module Auth.

Inductive UserRole := ADMIN | MANAGER | OPERATOR | VIEWER | CUSTOMER | MERCHANT.

Inductive Permission :=
  | VIEW_DASHBOARD | VIEW_TRANSACTIONS | PROCESS_PAYMENTS | MANAGE_CARDS
  | MANAGE_BILLS | MANAGE_USERS | MANAGE_MERCHANTS | MANAGE_CUSTOMERS
  | SYSTEM_SETTINGS | EXPORT_DATA | VIEW_REPORTS | FRAUD_MANAGEMENT.

(** [class User]; the free-form [metadata] is left out. *)
Module User.

Record t := {
  id : string;
  username : string;
  email : string;
  password_hash : string;
  salt : string;
  role : UserRole;
  first_name : string;
  last_name : string;
  custom_permissions : list Permission;
  created_at : Z;
  updated_at : Z;
  last_login : option Z;
  failed_login_attempts : Z;
  locked_until : option Z;
  active : bool
}.

Definition set_updated_at (v : Z) (u : t) : t :=
  {| id := id u; username := username u; email := email u;
     password_hash := password_hash u; salt := salt u; role := role u;
     first_name := first_name u; last_name := last_name u;
     custom_permissions := custom_permissions u; created_at := created_at u;
     updated_at := v; last_login := last_login u;
     failed_login_attempts := failed_login_attempts u;
     locked_until := locked_until u; active := active u |}.

Definition set_last_login (v : option Z) (u : t) : t :=
  {| id := id u; username := username u; email := email u;
     password_hash := password_hash u; salt := salt u; role := role u;
     first_name := first_name u; last_name := last_name u;
     custom_permissions := custom_permissions u; created_at := created_at u;
     updated_at := updated_at u; last_login := v;
     failed_login_attempts := failed_login_attempts u;
     locked_until := locked_until u; active := active u |}.

Definition set_failed_login_attempts (v : Z) (u : t) : t :=
  {| id := id u; username := username u; email := email u;
     password_hash := password_hash u; salt := salt u; role := role u;
     first_name := first_name u; last_name := last_name u;
     custom_permissions := custom_permissions u; created_at := created_at u;
     updated_at := updated_at u; last_login := last_login u;
     failed_login_attempts := v;
     locked_until := locked_until u; active := active u |}.

Definition set_locked_until (v : option Z) (u : t) : t :=
  {| id := id u; username := username u; email := email u;
     password_hash := password_hash u; salt := salt u; role := role u;
     first_name := first_name u; last_name := last_name u;
     custom_permissions := custom_permissions u; created_at := created_at u;
     updated_at := updated_at u; last_login := last_login u;
     failed_login_attempts := failed_login_attempts u;
     locked_until := v; active := active u |}.

(** [User.__init__] *)
Definition init `{Platform} {O} (username email password_hash salt : string)
    (role : UserRole) (first_name last_name : string)
    (custom_permissions : list Permission) : M O t :=
  id ← uuid4;
  created_at ← datetime_now;
  mret {| id := id; username := username; email := email;
          password_hash := password_hash; salt := salt; role := role;
          first_name := first_name; last_name := last_name;
          custom_permissions := custom_permissions;
          created_at := created_at; updated_at := created_at;
          last_login := None; failed_login_attempts := 0;
          locked_until := None; active := true |}.

(** [User.is_locked]: the clock is read only when [locked_until] is set
    (a [datetime] is never falsy). *)
Definition is_locked `{Platform} {O} (u : t) : M O bool :=
  match locked_until u with
  | None => mret false
  | Some until => now ← datetime_now; mret (bool_decide (now < until))
  end.

Definition set_password_hash (v : string) (u : t) : t :=
  {| id := id u; username := username u; email := email u;
     password_hash := v; salt := salt u; role := role u;
     first_name := first_name u; last_name := last_name u;
     custom_permissions := custom_permissions u; created_at := created_at u;
     updated_at := updated_at u; last_login := last_login u;
     failed_login_attempts := failed_login_attempts u;
     locked_until := locked_until u; active := active u |}.

Definition set_salt (v : string) (u : t) : t :=
  {| id := id u; username := username u; email := email u;
     password_hash := password_hash u; salt := v; role := role u;
     first_name := first_name u; last_name := last_name u;
     custom_permissions := custom_permissions u; created_at := created_at u;
     updated_at := updated_at u; last_login := last_login u;
     failed_login_attempts := failed_login_attempts u;
     locked_until := locked_until u; active := active u |}.

Definition set_active (v : bool) (u : t) : t :=
  {| id := id u; username := username u; email := email u;
     password_hash := password_hash u; salt := salt u; role := role u;
     first_name := first_name u; last_name := last_name u;
     custom_permissions := custom_permissions u; created_at := created_at u;
     updated_at := updated_at u; last_login := last_login u;
     failed_login_attempts := failed_login_attempts u;
     locked_until := locked_until u; active := v |}.

End User.

(** An entry of [active_sessions] *)
Record Session := { user_id : string; created_at : Z; expires_at : Z }.

(** [class AuthManager]. [users] is the dict from user id to [User], in
    insertion order: [get_user_by_username] and [get_user_by_email] return
    the first match of [users.values()]. *)
Record AuthManager := {
  users : list (string * User.t);
  active_sessions : gmap string Session;
  max_failed_attempts : Z;
  lockout_duration : Z;
  session_timeout : Z
}.

Definition minutes (n : Z) : Z := n * 60 * 1000000.
Definition hours (n : Z) : Z := n * 60 * 60 * 1000000.

(** [AuthManager.__init__] *)
Definition init : AuthManager :=
  {| users := []; active_sessions := ∅; max_failed_attempts := 5;
     lockout_duration := minutes 15; session_timeout := hours 8 |}.

Definition set_users (v : list (string * User.t)) (a : AuthManager) : AuthManager :=
  {| users := v; active_sessions := active_sessions a;
     max_failed_attempts := max_failed_attempts a;
     lockout_duration := lockout_duration a; session_timeout := session_timeout a |}.

Definition set_active_sessions (v : gmap string Session) (a : AuthManager) : AuthManager :=
  {| users := users a; active_sessions := v;
     max_failed_attempts := max_failed_attempts a;
     lockout_duration := lockout_duration a; session_timeout := session_timeout a |}.

Definition _hash_password `{Platform} (password salt : string) : string :=
  pbkdf2_hmac_sha256_hex password salt.

(** A [User] object is known by its place in [users.values()]; the methods
    below return that place with the user, and [write_user] is the effect
    of the attribute assignments made on the object found there. *)
Definition get_user_by_username `{Platform} (a : AuthManager) (username : string)
    : option (nat * User.t) :=
  list_find (λ u, lower (User.username u) = lower username) (users a).*2.

Definition get_user_by_email `{Platform} (a : AuthManager) (email : string)
    : option (nat * User.t) :=
  list_find (λ u, lower (User.email u) = lower email) (users a).*2.

(** [self.users.get(user_id)] *)
Definition get_user (a : AuthManager) (user_id : string) : option (nat * User.t) :=
  prod_map id snd <$> dict_find user_id (users a).

Definition write_user (ref : nat) (u : User.t) : M AuthManager unit :=
  modify (λ a, set_users (alter (λ kv, (kv.1, u)) ref (users a)) a).

Definition create_user `{Platform} (username email password : string) (role : UserRole)
    (first_name last_name : string) (custom_permissions : list Permission)
    : M AuthManager (option string) :=
  a ← get;
  if bool_decide (is_Some (get_user_by_username a username))
     || bool_decide (is_Some (get_user_by_email a email))
  then mret None
  else
    salt ← urandom_hex;
    let password_hash := _hash_password password salt in
    user ← User.init username email password_hash salt role first_name last_name
             custom_permissions;
    _ ← modify (λ a, set_users (dict_set (User.id user) user (users a)) a);
    mret (Some (User.id user)).

Definition authenticate `{Platform} (username password : string)
    : M AuthManager (option string) :=
  a ← get;
  match get_user_by_username a username with
  | None => mret None
  | Some (ref, user) =>
    if negb (User.active user) then mret None else
    locked ← User.is_locked user;
    if (locked : bool) then mret None else
    let password_hash := _hash_password password (User.salt user) in
    if bool_decide (password_hash ≠ User.password_hash user) then
      let user := User.set_failed_login_attempts (User.failed_login_attempts user + 1) user in
      now ← datetime_now;
      let user := User.set_updated_at now user in
      user ← (if bool_decide (max_failed_attempts a ≤ User.failed_login_attempts user)
              then now ← datetime_now;
                   mret (User.set_locked_until (Some (now + lockout_duration a)) user)
              else mret user);
      _ ← write_user ref user;
      mret None
    else
      let user := User.set_failed_login_attempts 0 user in
      now ← datetime_now;
      let user := User.set_last_login (Some now) user in
      now ← datetime_now;
      let user := User.set_updated_at now user in
      _ ← write_user ref user;
      session_id ← uuid4;
      created ← datetime_now;
      now ← datetime_now;
      _ ← modify (λ a, set_active_sessions
                         (<[session_id := {| user_id := User.id user;
                                             created_at := created;
                                             expires_at := now + session_timeout a |}]>
                            (active_sessions a)) a);
      mret (Some session_id)
  end.

Definition validate_session `{Platform} (session_id : string)
    : M AuthManager (option string) :=
  a ← get;
  match active_sessions a !! session_id with
  | None => mret None
  | Some session =>
    now ← datetime_now;
    if bool_decide (expires_at session < now)
    then _ ← modify (λ a, set_active_sessions (delete session_id (active_sessions a)) a);
         mret None
    else mret (Some (user_id session))
  end.

Definition logout (session_id : string) : M AuthManager bool :=
  a ← get;
  match active_sessions a !! session_id with
  | Some _ =>
    _ ← modify (λ a, set_active_sessions (delete session_id (active_sessions a)) a);
    mret true
  | None => mret false
  end.

(** The sessions of [user_id] are removed from [active_sessions] *)
Definition revoke_sessions (user_id0 : string) : M AuthManager unit :=
  modify (λ a, set_active_sessions
                 (filter (λ kv, user_id kv.2 ≠ user_id0) (active_sessions a)) a).

(** [datetime.max], in microseconds from [datetime.min] *)
Definition datetime_max : Z := 315537897599999999.

(** [t + d] for a [datetime] [t] and a [timedelta] [d]; [None] is the
    [OverflowError] of a sum that is no [datetime]. *)
Definition add_timedelta (t d : Z) : option Z :=
  if bool_decide (0 ≤ t + d ≤ datetime_max) then Some (t + d) else None.

(** What a method returns, or the [OverflowError] that it lets through *)
Inductive Raises (A : Type) := Returns (a : A) | OverflowError.
Arguments Returns {A} _.
Arguments OverflowError {A}.

(** [lock_user]; [duration or self.lockout_duration]: a zero [timedelta] is
    falsy. The duration is the caller's: when the end of the lock is no
    [datetime], the sum raises, after the clock has been read and before
    anything is assigned. *)
Definition lock_user `{Platform} (user_id0 : string) (duration : option Z)
    : M AuthManager (Raises bool) :=
  a ← get;
  match get_user a user_id0 with
  | None => mret (Returns false)
  | Some (ref, user) =>
    let lock_duration :=
      match duration with
      | Some d => if bool_decide (d = 0) then lockout_duration a else d
      | None => lockout_duration a
      end in
    now ← datetime_now;
    match add_timedelta now lock_duration with
    | None => mret OverflowError
    | Some locked_until =>
      let user := User.set_locked_until (Some locked_until) user in
      now ← datetime_now;
      let user := User.set_updated_at now user in
      _ ← write_user ref user;
      _ ← revoke_sessions user_id0;
      mret (Returns true)
    end
  end.

Definition unlock_user `{Platform} (user_id0 : string) : M AuthManager bool :=
  a ← get;
  match get_user a user_id0 with
  | None => mret false
  | Some (ref, user) =>
    let user := User.set_locked_until None user in
    let user := User.set_failed_login_attempts 0 user in
    now ← datetime_now;
    let user := User.set_updated_at now user in
    _ ← write_user ref user;
    mret true
  end.

(** ** Vocabulary of the properties *)

Section Vocabulary.
Context `{Platform}.

(** The lock of [user], if any, is over at every reading of the clock from
    the reading number [t] on. *)
Definition lock_over (user : User.t) (t : nat) : Prop :=
  ∀ until n, User.locked_until user = Some until → (t ≤ n)%nat → until ≤ clock n.

(** [user] is the object that both [get_user_by_username] and [get_user] find *)
Definition account_at (a : AuthManager) (username user_id : string) (ref : nat)
    (user : User.t) : Prop :=
  get_user_by_username a username = Some (ref, user) ∧
  get_user a user_id = Some (ref, user).

(** The manager in which the object at [ref] has become [user] *)
Definition put_user (ref : nat) (user : User.t) (a : AuthManager) : AuthManager :=
  set_users (alter (λ kv, (kv.1, user)) ref (users a)) a.

(** The world after the check [user.is_locked()] *)
Definition after_is_locked (user : User.t) (w : World AuthManager) : World AuthManager :=
  match User.locked_until user with
  | None => w
  | Some _ => {| self := self w; sys := tick 1 (sys w) |}
  end.

(** The user and the counters after a wrong password, from the counters [s]
    reached after the lock check *)
Definition failed_user (a : AuthManager) (user : User.t) (s : Sys) : User.t :=
  let user1 :=
    User.set_updated_at (clock (ticks s))
      (User.set_failed_login_attempts (User.failed_login_attempts user + 1) user) in
  if bool_decide (max_failed_attempts a ≤ User.failed_login_attempts user + 1)
  then User.set_locked_until (Some (clock (S (ticks s)) + lockout_duration a)) user1
  else user1.

Definition failed_sys (a : AuthManager) (user : User.t) (s : Sys) : Sys :=
  if bool_decide (max_failed_attempts a ≤ User.failed_login_attempts user + 1)
  then tick 2 s else tick 1 s.

(** The user and the session after a successful login, from the counters
    [s] reached after the lock check *)
Definition login_user (user : User.t) (s : Sys) : User.t :=
  User.set_updated_at (clock (S (ticks s)))
    (User.set_last_login (Some (clock (ticks s)))
       (User.set_failed_login_attempts 0 user)).

Definition login_session (a : AuthManager) (user : User.t) (s : Sys) : Session :=
  {| user_id := User.id user; created_at := clock (S (S (ticks s)));
     expires_at := clock (S (S (S (ticks s)))) + session_timeout a |}.

End Vocabulary.

(** Some user has the username or the email, letter case apart *)
Definition duplicate `{Platform} (a : AuthManager) (username email : string) : Prop :=
  ∃ u, u ∈ (users a).*2 ∧
       (lower (User.username u) = lower username ∨ lower (User.email u) = lower email).

(** What a wrong password below the threshold leaves as it is *)
Definition same_account (user user' : User.t) : Prop :=
  User.id user' = User.id user ∧ User.username user' = User.username user ∧
  User.salt user' = User.salt user ∧
  User.password_hash user' = User.password_hash user ∧
  User.active user' = User.active user ∧
  User.locked_until user' = User.locked_until user.

Definition same_config (a a' : AuthManager) : Prop :=
  max_failed_attempts a' = max_failed_attempts a ∧
  lockout_duration a' = lockout_duration a ∧
  session_timeout a' = session_timeout a.

(** ** The other methods of [AuthManager], and the permissions *)

(** [RolePermissions.DEFAULT_PERMISSIONS]; a set is the list of its members *)
Definition DEFAULT_PERMISSIONS (role : UserRole) : list Permission :=
  match role with
  | ADMIN =>
    [VIEW_DASHBOARD; VIEW_TRANSACTIONS; PROCESS_PAYMENTS; MANAGE_CARDS;
     MANAGE_BILLS; MANAGE_USERS; MANAGE_MERCHANTS; MANAGE_CUSTOMERS;
     SYSTEM_SETTINGS; EXPORT_DATA; VIEW_REPORTS; FRAUD_MANAGEMENT]
  | MANAGER =>
    [VIEW_DASHBOARD; VIEW_TRANSACTIONS; PROCESS_PAYMENTS; MANAGE_CARDS;
     MANAGE_BILLS; MANAGE_CUSTOMERS; EXPORT_DATA; VIEW_REPORTS; FRAUD_MANAGEMENT]
  | OPERATOR => [VIEW_DASHBOARD; VIEW_TRANSACTIONS; PROCESS_PAYMENTS; VIEW_REPORTS]
  | VIEWER => [VIEW_DASHBOARD; VIEW_TRANSACTIONS; VIEW_REPORTS]
  | CUSTOMER => [VIEW_DASHBOARD; VIEW_TRANSACTIONS; MANAGE_CARDS; MANAGE_BILLS]
  | MERCHANT => [VIEW_DASHBOARD; VIEW_TRANSACTIONS; PROCESS_PAYMENTS; VIEW_REPORTS]
  end.

#[global] Instance Permission_eq_dec : EqDecision Permission.
Proof. solve_decision. Defined.

#[global] Instance UserRole_eq_dec : EqDecision UserRole.
Proof. solve_decision. Defined.

(** [RolePermissions.get_permissions_for_role]: every role is a key of the table *)
Definition get_permissions_for_role (role : UserRole) : list Permission :=
  DEFAULT_PERMISSIONS role.

(** [User.permissions]: the union of the two sets *)
Definition permissions (u : User.t) : list Permission :=
  get_permissions_for_role (User.role u) ++ User.custom_permissions u.

(** [User.has_permission] *)
Definition has_permission (u : User.t) (permission : Permission) : bool :=
  bool_decide (permission ∈ permissions u).

(** [get_users_by_role] *)
Definition get_users_by_role (a : AuthManager) (role : UserRole) : list User.t :=
  filter (λ u, User.role u = role) (users a).*2.

(** [get_all_users] *)
Definition get_all_users (a : AuthManager) : list User.t := (users a).*2.

(** [get_user_by_session]: the user id that [validate_session] returns is
    looked up when it is truthy, that is not the empty text. *)
Definition get_user_by_session `{Platform} (session_id : string)
    : M AuthManager (option User.t) :=
  user_id0 ← validate_session session_id;
  match user_id0 with
  | Some uid =>
    if bool_decide (uid = "") then mret None
    else a ← get; mret (snd <$> get_user a uid)
  | None => mret None
  end.

Definition delete_user (user_id0 : string) : M AuthManager bool :=
  a ← get;
  match dict_find user_id0 (users a) with
  | Some _ =>
    _ ← modify (λ a, set_users (dict_del user_id0 (users a)) a);
    _ ← revoke_sessions user_id0;
    mret true
  | None => mret false
  end.

Definition change_password `{Platform} (user_id0 current_password new_password : string)
    : M AuthManager bool :=
  a ← get;
  match get_user a user_id0 with
  | None => mret false
  | Some (ref, user) =>
    let current_hash := _hash_password current_password (User.salt user) in
    if bool_decide (current_hash ≠ User.password_hash user) then mret false
    else
      salt ← urandom_hex;
      let password_hash := _hash_password new_password salt in
      let user := User.set_password_hash password_hash user in
      let user := User.set_salt salt user in
      now ← datetime_now;
      let user := User.set_updated_at now user in
      _ ← write_user ref user;
      mret true
  end.

Definition reset_password `{Platform} (user_id0 new_password : string)
    : M AuthManager bool :=
  a ← get;
  match get_user a user_id0 with
  | None => mret false
  | Some (ref, user) =>
    salt ← urandom_hex;
    let password_hash := _hash_password new_password salt in
    let user := User.set_password_hash password_hash user in
    let user := User.set_salt salt user in
    let user := User.set_failed_login_attempts 0 user in
    let user := User.set_locked_until None user in
    now ← datetime_now;
    let user := User.set_updated_at now user in
    _ ← write_user ref user;
    mret true
  end.

Definition activate_user `{Platform} (user_id0 : string) : M AuthManager bool :=
  a ← get;
  match get_user a user_id0 with
  | None => mret false
  | Some (ref, user) =>
    let user := User.set_active true user in
    now ← datetime_now;
    let user := User.set_updated_at now user in
    _ ← write_user ref user;
    mret true
  end.

Definition deactivate_user `{Platform} (user_id0 : string) : M AuthManager bool :=
  a ← get;
  match get_user a user_id0 with
  | None => mret false
  | Some (ref, user) =>
    let user := User.set_active false user in
    now ← datetime_now;
    let user := User.set_updated_at now user in
    _ ← write_user ref user;
    _ ← revoke_sessions user_id0;
    mret true
  end.

(** ** Vocabulary of the further properties *)

(** The user table is well formed: it is a dict (no key twice) that holds
    each user under its id, and no two users have the same username or the
    same email, letter case apart. *)
Definition well_formed `{Platform} (a : AuthManager) : Prop :=
  NoDup (users a).*1
  ∧ Forall (λ kv, kv.1 = User.id kv.2) (users a)
  ∧ NoDup ((λ u, lower (User.username u)) <$> (users a).*2)
  ∧ NoDup ((λ u, lower (User.email u)) <$> (users a).*2).

(** A call of one of the methods of [AuthManager] modelled here *)
Inductive Call :=
  | CreateUser (username email password : string) (role : UserRole)
      (first_name last_name : string) (custom_permissions : list Permission)
  | Authenticate (username password : string)
  | ValidateSession (session_id : string)
  | Logout (session_id : string)
  | LockUser (user_id0 : string) (duration : option Z)
  | UnlockUser (user_id0 : string)
  | ChangePassword (user_id0 current_password new_password : string)
  | ResetPassword (user_id0 new_password : string)
  | ActivateUser (user_id0 : string)
  | DeactivateUser (user_id0 : string)
  | DeleteUser (user_id0 : string).

(** The call made, its result dropped *)
Definition call `{Platform} (c : Call) : M AuthManager unit :=
  match c with
  | CreateUser username email password role first_name last_name custom_permissions =>
    _ ← create_user username email password role first_name last_name custom_permissions;
    mret ()
  | Authenticate username password => _ ← authenticate username password; mret ()
  | ValidateSession session_id => _ ← validate_session session_id; mret ()
  | Logout session_id => _ ← logout session_id; mret ()
  | LockUser user_id0 duration => _ ← lock_user user_id0 duration; mret ()
  | UnlockUser user_id0 => _ ← unlock_user user_id0; mret ()
  | ChangePassword user_id0 current_password new_password =>
    _ ← change_password user_id0 current_password new_password; mret ()
  | ResetPassword user_id0 new_password =>
    _ ← reset_password user_id0 new_password; mret ()
  | ActivateUser user_id0 => _ ← activate_user user_id0; mret ()
  | DeactivateUser user_id0 => _ ← deactivate_user user_id0; mret ()
  | DeleteUser user_id0 => _ ← delete_user user_id0; mret ()
  end.

(** The duration that [lock_user] uses *)
Definition lock_duration_of (a : AuthManager) (duration : option Z) : Z :=
  match duration with
  | Some d => if bool_decide (d = 0) then lockout_duration a else d
  | None => lockout_duration a
  end.

(** What [authenticate] never changes in a user *)
Definition identity (u : User.t)
    : string * string * string * string * string * UserRole * bool :=
  (User.id u, User.username u, User.email u, User.password_hash u, User.salt u,
   User.role u, User.active u).

End Auth.

(** * batch_processing.py *)

Module Batch.

Inductive BatchStatus := PENDING | PROCESSING | COMPLETED | FAILED | PARTIALLY_COMPLETED.

Inductive BatchType :=
  | PAYMENT | REFUND | TRANSFER | CARD_ISSUANCE | CUSTOMER_IMPORT | MERCHANT_IMPORT.

Definition BatchType_value (b : BatchType) : string :=
  match b with
  | PAYMENT => "Payment" | REFUND => "Refund" | TRANSFER => "Transfer"
  | CARD_ISSUANCE => "Card Issuance" | CUSTOMER_IMPORT => "Customer Import"
  | MERCHANT_IMPORT => "Merchant Import"
  end.

(** [class BatchItem]. The payload [data] maps field names to values; a
    value is a text or [None] (numbers stand as their text, which is what a
    CSV file holds). *)
Module BatchItem.

Record t := {
  id : string;
  data : list (string * option string);
  status : string;
  error_message : option string;
  processed_at : option Z
}.

(** [BatchItem.__init__] *)
Definition init `{Platform} {O} (data : list (string * option string)) : M O t :=
  id ← uuid4;
  mret {| id := id; data := data; status := "Pending"; error_message := None;
          processed_at := None |}.

Definition set_status (v : string) (i : t) : t :=
  {| id := id i; data := data i; status := v; error_message := error_message i;
     processed_at := processed_at i |}.

Definition set_error_message (v : option string) (i : t) : t :=
  {| id := id i; data := data i; status := status i; error_message := v;
     processed_at := processed_at i |}.

Definition set_processed_at (v : option Z) (i : t) : t :=
  {| id := id i; data := data i; status := status i;
     error_message := error_message i; processed_at := v |}.

End BatchItem.

(** [class BatchJob]; the free-form [metadata] is left out. *)
Module BatchJob.

Record t := {
  id : string;
  name : string;
  batch_type : BatchType;
  items : list BatchItem.t;
  description : string;
  created_at : Z;
  updated_at : Z;
  started_at : option Z;
  completed_at : option Z;
  status : BatchStatus;
  total_items : Z;
  processed_items : Z;
  successful_items : Z;
  failed_items : Z
}.

(** [BatchJob.__init__] *)
Definition init `{Platform} {O} (name : string) (batch_type : BatchType)
    (items : list BatchItem.t) (description : string) : M O t :=
  id ← uuid4;
  created_at ← datetime_now;
  mret {| id := id; name := name; batch_type := batch_type; items := items;
          description := description; created_at := created_at;
          updated_at := created_at; started_at := None; completed_at := None;
          status := PENDING; total_items := Z.of_nat (length items);
          processed_items := 0; successful_items := 0; failed_items := 0 |}.

Definition set_items (v : list BatchItem.t) (j : t) : t :=
  {| id := id j; name := name j; batch_type := batch_type j; items := v;
     description := description j; created_at := created_at j;
     updated_at := updated_at j; started_at := started_at j;
     completed_at := completed_at j; status := status j;
     total_items := total_items j; processed_items := processed_items j;
     successful_items := successful_items j; failed_items := failed_items j |}.

Definition set_updated_at (v : Z) (j : t) : t :=
  {| id := id j; name := name j; batch_type := batch_type j; items := items j;
     description := description j; created_at := created_at j;
     updated_at := v; started_at := started_at j;
     completed_at := completed_at j; status := status j;
     total_items := total_items j; processed_items := processed_items j;
     successful_items := successful_items j; failed_items := failed_items j |}.

Definition set_started_at (v : option Z) (j : t) : t :=
  {| id := id j; name := name j; batch_type := batch_type j; items := items j;
     description := description j; created_at := created_at j;
     updated_at := updated_at j; started_at := v;
     completed_at := completed_at j; status := status j;
     total_items := total_items j; processed_items := processed_items j;
     successful_items := successful_items j; failed_items := failed_items j |}.

Definition set_completed_at (v : option Z) (j : t) : t :=
  {| id := id j; name := name j; batch_type := batch_type j; items := items j;
     description := description j; created_at := created_at j;
     updated_at := updated_at j; started_at := started_at j;
     completed_at := v; status := status j;
     total_items := total_items j; processed_items := processed_items j;
     successful_items := successful_items j; failed_items := failed_items j |}.

Definition set_status (v : BatchStatus) (j : t) : t :=
  {| id := id j; name := name j; batch_type := batch_type j; items := items j;
     description := description j; created_at := created_at j;
     updated_at := updated_at j; started_at := started_at j;
     completed_at := completed_at j; status := v;
     total_items := total_items j; processed_items := processed_items j;
     successful_items := successful_items j; failed_items := failed_items j |}.

Definition set_processed_items (v : Z) (j : t) : t :=
  {| id := id j; name := name j; batch_type := batch_type j; items := items j;
     description := description j; created_at := created_at j;
     updated_at := updated_at j; started_at := started_at j;
     completed_at := completed_at j; status := status j;
     total_items := total_items j; processed_items := v;
     successful_items := successful_items j; failed_items := failed_items j |}.

Definition set_successful_items (v : Z) (j : t) : t :=
  {| id := id j; name := name j; batch_type := batch_type j; items := items j;
     description := description j; created_at := created_at j;
     updated_at := updated_at j; started_at := started_at j;
     completed_at := completed_at j; status := status j;
     total_items := total_items j; processed_items := processed_items j;
     successful_items := v; failed_items := failed_items j |}.

Definition set_failed_items (v : Z) (j : t) : t :=
  {| id := id j; name := name j; batch_type := batch_type j; items := items j;
     description := description j; created_at := created_at j;
     updated_at := updated_at j; started_at := started_at j;
     completed_at := completed_at j; status := status j;
     total_items := total_items j; processed_items := processed_items j;
     successful_items := successful_items j; failed_items := v |}.

End BatchJob.

(** What a call [process_function(item.data, batch_type)] comes to:
    [Returned success error] is a returned dict, with [success] the truth of
    [result.get("success", False)] and [error] its entry ["error"]: [None]
    when the dict has no such entry, [Some None] when the entry is [None],
    [Some (Some msg)] when it is the text [msg];
    [Raised msg] is an exception [e] with [str(e) = msg] (also one raised by
    [result.get] on a result that is no dict). *)
Inductive ProcResult :=
  | Returned (success : bool) (error : option (option string))
  | Raised (msg : string).

(** The registered item-processing callback; it may keep a state of its own
    ([PS]) from one call to the next. *)
Definition Processor (PS : Type) : Type :=
  list (string * option string) → BatchType → PS → ProcResult * PS.

(** [BatchProcessor.process_batch] runs on a job and the state of the callback. *)
Record Run (PS : Type) := { job : BatchJob.t; pstate : PS }.
Arguments job {PS} _.
Arguments pstate {PS} _.

Section BatchProcessor.
Context `{Platform} {PS : Type}.

Definition update_job (f : BatchJob.t → BatchJob.t) : M (Run PS) unit :=
  modify (λ r, {| job := f (job r); pstate := pstate r |}).

Definition update_item (i : nat) (f : BatchItem.t → BatchItem.t) : M (Run PS) unit :=
  update_job (λ j, BatchJob.set_items (alter f i (BatchJob.items j)) j).

Definition call_processor (process_function : Processor PS)
    (data : list (string * option string)) (batch_type : BatchType)
    : M (Run PS) ProcResult :=
  λ w, let '(result, ps) := process_function data batch_type (pstate (self w)) in
       (result, {| self := {| job := job (self w); pstate := ps |}; sys := sys w |}).

(** The body of the loop of [process_batch], for the item at place [i] *)
Definition process_item (process_function : Processor PS) (i : nat) : M (Run PS) unit :=
  r ← get;
  match BatchJob.items (job r) !! i with
  | None => mret tt
  | Some item =>
    result ← call_processor process_function (BatchItem.data item)
               (BatchJob.batch_type (job r));
    _ ← match result with
        | Returned true _ =>
          _ ← update_item i (BatchItem.set_status "Completed");
          update_job (λ j, BatchJob.set_successful_items (BatchJob.successful_items j + 1) j)
        | Returned false error =>
          _ ← update_item i (BatchItem.set_status "Failed");
          _ ← update_item i (BatchItem.set_error_message
                               (default (Some "Unknown error") error));
          update_job (λ j, BatchJob.set_failed_items (BatchJob.failed_items j + 1) j)
        | Raised msg =>
          _ ← update_item i (BatchItem.set_status "Failed");
          _ ← update_item i (BatchItem.set_error_message (Some msg));
          update_job (λ j, BatchJob.set_failed_items (BatchJob.failed_items j + 1) j)
        end;
    now ← datetime_now;
    _ ← update_item i (BatchItem.set_processed_at (Some now));
    _ ← update_job (λ j, BatchJob.set_processed_items (BatchJob.processed_items j + 1) j);
    now ← datetime_now;
    update_job (BatchJob.set_updated_at now)
  end.

(** The part of [process_batch] before the loop *)
Definition begin_batch : M (Run PS) unit :=
  _ ← update_job (BatchJob.set_status PROCESSING);
  now ← datetime_now;
  _ ← update_job (BatchJob.set_started_at (Some now));
  now ← datetime_now;
  update_job (BatchJob.set_updated_at now).

(** The part of [process_batch] after the loop *)
Definition finish_batch : M (Run PS) unit :=
  r ← get;
  _ ← (if bool_decide (BatchJob.failed_items (job r) = 0)
       then update_job (BatchJob.set_status COMPLETED)
       else if bool_decide (BatchJob.successful_items (job r) = 0)
       then update_job (BatchJob.set_status FAILED)
       else update_job (BatchJob.set_status PARTIALLY_COMPLETED));
  now ← datetime_now;
  _ ← update_job (BatchJob.set_completed_at (Some now));
  now ← datetime_now;
  update_job (BatchJob.set_updated_at now).

(** [process_batch] as far as the first [n] items of the loop *)
Definition process_batch_upto (process_function : Processor PS) (n : nat)
    : M (Run PS) unit :=
  r ← get;
  _ ← begin_batch;
  for_each (take n (seq 0 (length (BatchJob.items (job r))))) (process_item process_function).

(** [BatchProcessor.process_batch]; [process_function] is [None] when no
    callback is registered. *)
Definition process_batch (process_function : option (Processor PS)) : M (Run PS) unit :=
  match process_function with
  | None =>
    _ ← update_job (BatchJob.set_status FAILED);
    now ← datetime_now;
    update_job (BatchJob.set_updated_at now)
  | Some f =>
    r ← get;
    _ ← begin_batch;
    _ ← for_each (seq 0 (length (BatchJob.items (job r)))) (process_item f);
    finish_batch
  end.

(** The results of the calls of the callback on the payloads [datas], in order *)
Fixpoint results_of (f : Processor PS) (batch_type : BatchType)
    (datas : list (list (string * option string))) (ps : PS) : list ProcResult :=
  match datas with
  | [] => []
  | d :: datas' =>
    let '(r, ps') := f d batch_type ps in r :: results_of f batch_type datas' ps'
  end.

End BatchProcessor.

Definition succeeded (r : ProcResult) : bool :=
  match r with Returned true _ => true | _ => false end.

(** ** CSV files

    A file is the list of the rows that [csv.reader] yields, the first one
    being the header; [csv.writer] appends a row. The quoting that turns
    rows into text and back is the work of the [csv] module and is not
    modelled. *)

(** [csv.DictWriter(fieldnames=...).writerow(row)]: [None] is a [ValueError],
    raised when [row] has a key that is no field name; a missing field is
    written as the empty text, and so is the value [None]. *)
Definition DictWriter_writerow (fieldnames : list string)
    (row : list (string * option string)) : option (list string) :=
  if bool_decide (Forall (λ k, k ∈ fieldnames) (dict_keys row))
  then Some ((λ k, default "" (mjoin (dict_get k row))) <$> fieldnames)
  else None.

(** [dict(zip(keys, values))] *)
Definition dict_of_zip {V} (keys : list string) (values : list V) : list (string * V) :=
  foldl (λ d kv, dict_set kv.1 kv.2 d) [] (zip keys values).

(** One step of [csv.DictReader]: the dict made of a row that is not blank.
    The second component is the entry under the key [None], present when
    the row is longer than the header; a field the row is too short for
    gets the value [None]. *)
Definition DictReader_row (fieldnames row : list string)
    : list (string * option string) * option (list string) :=
  let d := dict_of_zip fieldnames (Some <$> row) in
  let lf := length fieldnames in
  let lr := length row in
  if bool_decide (lf < lr)%nat then (d, Some (drop lf row))
  else (foldl (λ d key, dict_set key None d) d (drop lr fieldnames), None).

(** [csv.DictReader]: the header is the first row, blank rows are skipped. *)
Definition DictReader (file : list (list string))
    : list (list (string * option string) * option (list string)) :=
  match file with
  | [] => []
  | fieldnames :: rows =>
    DictReader_row fieldnames <$> filter (λ row, row ≠ []) rows
  end.

Definition special_prefix (key : string) : bool :=
  startswith key "id" || startswith key "status" || startswith key "error"
  || startswith key "processed".

(** The body of the loop over the rows in [import_batch_from_csv]: [None]
    is the [AttributeError] of [key.startswith] on the key [None]. *)
Definition import_row (row : list (string * option string) * option (list string))
    : option (list (string * option string)) :=
  let item_data :=
    foldl (λ d kv, if negb (special_prefix kv.1) then dict_set kv.1 kv.2 d else d)
          [] row.1 in
  match row.2 with
  | Some _ => None
  | None => Some item_data
  end.

(** [class BatchManager]; the processors play no part in the methods below. *)
Record BatchManager := { batch_jobs : gmap string BatchJob.t }.

Section BatchManager.
Context `{Platform}.

Definition create_batch_job (name : string) (batch_type : BatchType)
    (items : list (list (string * option string))) (description : string)
    : M BatchManager string :=
  batch_items ← map_M BatchItem.init items;
  batch_job ← BatchJob.init name batch_type batch_items description;
  _ ← modify (λ m, {| batch_jobs := <[BatchJob.id batch_job := batch_job]> (batch_jobs m) |});
  mret (BatchJob.id batch_job).

Definition get_batch_job (m : BatchManager) (job_id : string) : option BatchJob.t :=
  batch_jobs m !! job_id.

(** The row written for an item in [_export_to_csv] *)
Definition export_row (item : BatchItem.t) : list (string * option string) :=
  foldl (λ row kv, dict_set ("data_" +:+ kv.1) kv.2 row)
    [("id", Some (BatchItem.id item));
     ("status", Some (BatchItem.status item));
     ("error_message", Some (default "" (BatchItem.error_message item)));
     ("processed_at",
      Some (match BatchItem.processed_at item with
            | Some t => isoformat t
            | None => ""
            end))]
    (BatchItem.data item).

Definition export_headers (batch_job : BatchJob.t) : list string :=
  ["id"; "status"; "error_message"; "processed_at"] ++
  match BatchJob.items batch_job with
  | [] => []
  | item :: _ => (λ key, "data_" +:+ key) <$> dict_keys (BatchItem.data item)
  end.

(** The loop of [_export_to_csv]: the rows written so far, and whether all
    the items were written *)
Fixpoint export_rows (headers : list string) (items : list BatchItem.t)
    (file : list (list string)) : bool * list (list string) :=
  match items with
  | [] => (true, file)
  | item :: items' =>
    match DictWriter_writerow headers (export_row item) with
    | Some row => export_rows headers items' (file ++ [row])
    | None => (false, file)
    end
  end.

(** [_export_to_csv]: the value returned and the file written *)
Definition _export_to_csv (batch_job : BatchJob.t) : bool * list (list string) :=
  let headers := export_headers batch_job in
  export_rows headers (BatchJob.items batch_job) [headers].

(** [import_batch_from_csv] on the file read; [name] is [None] or the name given *)
Definition import_batch_from_csv (file : list (list string)) (batch_type : BatchType)
    (name : option string) (description : string) : M BatchManager (option string) :=
  match mapM import_row (DictReader file) with
  | None => mret None
  | Some items =>
    let imported_name : M BatchManager string :=
      now ← datetime_now;
      mret ("Imported " +:+ BatchType_value batch_type +:+ " Batch - " +:+ strftime now) in
    name ← match name with
           | Some n => if bool_decide (n = "") then imported_name else mret n
           | None => imported_name
           end;
    job_id ← create_batch_job name batch_type items description;
    mret (Some job_id)
  end.

End BatchManager.

(** ** Vocabulary of the properties *)

(** The number of results that are a success, and of those that are not *)
Definition successes (rs : list ProcResult) : Z :=
  Z.of_nat (length (filter (λ r, succeeded r = true) rs)).

Definition failures (rs : list ProcResult) : Z :=
  Z.of_nat (length (filter (λ r, succeeded r = false) rs)).

(** The payloads of the items of a job *)
Definition datas (j : BatchJob.t) : list (list (string * option string)) :=
  BatchItem.data <$> BatchJob.items j.

(** The state of the callback after its calls on the payloads [ds] *)
Fixpoint pstate_after {PS} (f : Processor PS) (bt : BatchType)
    (ds : list (list (string * option string))) (ps : PS) : PS :=
  match ds with
  | [] => ps
  | d :: ds' => pstate_after f bt ds' (f d bt ps).2
  end.

(** The job and the state of the callback on which [process_batch] starts *)
Definition start_run {PS} (job0 : BatchJob.t) (ps : PS) (s : Sys) : World (Run PS) :=
  {| self := {| job := job0; pstate := ps |}; sys := s |}.

(** The fields of a row that [import_batch_from_csv] keeps *)
Definition kept (row : list (string * option string) * option (list string))
    : list (string * option string) :=
  filter (λ kv, special_prefix kv.1 = false) row.1.

(** ** The other methods of [BatchManager] *)

#[global] Instance BatchStatus_eq_dec : EqDecision BatchStatus.
Proof. solve_decision. Defined.

#[global] Instance BatchType_eq_dec : EqDecision BatchType.
Proof. solve_decision. Defined.

(** [delete_batch_job] *)
Definition delete_batch_job (job_id : string) : M BatchManager bool :=
  m ← get;
  match batch_jobs m !! job_id with
  | Some batch_job =>
    if bool_decide (BatchJob.status batch_job = PROCESSING) then mret false
    else
      _ ← modify (λ m, {| batch_jobs := delete job_id (batch_jobs m) |});
      mret true
  | None => mret false
  end.

(** *** The processors registered by [_register_default_processors]

    They simulate the work. [py_hash v] is [hash(v)] of the value of a
    field, and [float_le_0 v] is what [float(v) <= 0] comes to: its truth
    value, or the text of the exception that [float(v)] raises. The state of
    a processor is the number of ids it has drawn with [uuid.uuid4()], which
    is all that the rest of the program can see of them; [time.sleep] has
    no effect on the values. *)
Section Processors.
Variable py_hash : option string → Z.
Variable float_le_0 : option string → string + bool.

(** The first of the [required_fields] that is not in [data] *)
Definition missing_field (required_fields : list string)
    (data : list (string * option string)) : option string :=
  snd <$> list_find (λ field, field ∉ dict_keys data) required_fields.

(** [data.get(key, "")] *)
Definition get_field (key : string) (data : list (string * option string))
    : option string :=
  default (Some "") (dict_get key data).

Definition missing (field : string) : ProcResult :=
  Returned false (Some (Some ("Missing required field: " +:+ field))).

Definition _process_payment : Processor nat :=
  λ data batch_type drawn,
    match missing_field ["amount"; "card_number"; "expiry"; "cvv"] data with
    | Some field => (missing field, drawn)
    | None =>
      match float_le_0 (default (Some "0") (dict_get "amount" data)) with
      | inl exc => (Returned false (Some (Some exc)), drawn)
      | inr true => (Returned false (Some (Some "Invalid amount")), drawn)
      | inr false =>
        if bool_decide (py_hash (get_field "card_number" data) `mod` 10 ≠ 0)
        then (Returned true None, S drawn)
        else (Returned false (Some (Some "Payment declined")), drawn)
      end
    end.

Definition _process_refund : Processor nat :=
  λ data batch_type drawn,
    match missing_field ["transaction_id"; "amount"] data with
    | Some field => (missing field, drawn)
    | None =>
      if bool_decide (py_hash (get_field "transaction_id" data) `mod` 20 ≠ 0)
      then (Returned true None, S drawn)
      else (Returned false (Some (Some "Refund failed")), drawn)
    end.

Definition _process_transfer : Processor nat :=
  λ data batch_type drawn,
    match missing_field ["source_account"; "destination_account"; "amount"] data with
    | Some field => (missing field, drawn)
    | None =>
      if bool_decide (py_hash (get_field "source_account" data) `mod` 12 ≠ 0)
      then (Returned true None, S drawn)
      else (Returned false (Some (Some "Transfer failed")), drawn)
    end.

(** The card number is made of the characters [str(hash(...))[i % 5]]: the
    id is drawn first, and a text of fewer than five characters gives an
    [IndexError], which the [except] turns into a failure. *)
Definition _process_card_issuance : Processor nat :=
  λ data batch_type drawn,
    match missing_field ["customer_id"; "card_type"] data with
    | Some field => (missing field, drawn)
    | None =>
      if bool_decide (py_hash (get_field "customer_id" data) `mod` 50 ≠ 0)
      then
        if bool_decide (String.length (pretty (py_hash (get_field "customer_id" data))) < 5)%nat
        then (Returned false (Some (Some "string index out of range")), S drawn)
        else (Returned true None, S drawn)
      else (Returned false (Some (Some "Card issuance failed")), drawn)
    end.

Definition _process_customer_import : Processor nat :=
  λ data batch_type drawn,
    match missing_field ["first_name"; "last_name"; "email"] data with
    | Some field => (missing field, drawn)
    | None =>
      if bool_decide (py_hash (get_field "email" data) `mod` 25 ≠ 0)
      then (Returned true None, S drawn)
      else (Returned false (Some (Some "Customer import failed")), drawn)
    end.

Definition _process_merchant_import : Processor nat :=
  λ data batch_type drawn,
    match missing_field ["name"; "category"; "contact_email"] data with
    | Some field => (missing field, drawn)
    | None =>
      if bool_decide (py_hash (get_field "name" data) `mod` 16 ≠ 0)
      then (Returned true None, S drawn)
      else (Returned false (Some (Some "Merchant import failed")), drawn)
    end.

(** [self.processors[batch_type].process_function], as
    [_register_default_processors] sets it *)
Definition default_processor (batch_type : BatchType) : Processor nat :=
  match batch_type with
  | PAYMENT => _process_payment
  | REFUND => _process_refund
  | TRANSFER => _process_transfer
  | CARD_ISSUANCE => _process_card_issuance
  | CUSTOMER_IMPORT => _process_customer_import
  | MERCHANT_IMPORT => _process_merchant_import
  end.

End Processors.

(** ** Vocabulary of the further properties *)

(** The [required_fields] of the processor registered for a batch type *)
Definition required_fields (batch_type : BatchType) : list string :=
  match batch_type with
  | PAYMENT => ["amount"; "card_number"; "expiry"; "cvv"]
  | REFUND => ["transaction_id"; "amount"]
  | TRANSFER => ["source_account"; "destination_account"; "amount"]
  | CARD_ISSUANCE => ["customer_id"; "card_type"]
  | CUSTOMER_IMPORT => ["first_name"; "last_name"; "email"]
  | MERCHANT_IMPORT => ["name"; "category"; "contact_email"]
  end.

(** An item after the callback has given the result [r] for it and the
    clock has been read as [t] *)
Definition item_after (r : ProcResult) (t : Z) (item : BatchItem.t) : BatchItem.t :=
  BatchItem.set_processed_at (Some t)
    match r with
    | Returned true _ => BatchItem.set_status "Completed" item
    | Returned false error =>
      BatchItem.set_error_message (default (Some "Unknown error") error)
        (BatchItem.set_status "Failed" item)
    | Raised msg =>
      BatchItem.set_error_message (Some msg) (BatchItem.set_status "Failed" item)
    end.

(** An item that [_export_to_csv] can write under the headers made of
    [keys]: its fields are among them *)
Definition fits (keys : list string) (item : BatchItem.t) : Prop :=
  ∀ k, k ∈ dict_keys (BatchItem.data item) → k ∈ keys.

(** The status that the counters of a job give it at the end of [process_batch] *)
Definition final_status (failed successful : Z) : BatchStatus :=
  if bool_decide (failed = 0) then COMPLETED
  else if bool_decide (successful = 0) then FAILED
  else PARTIALLY_COMPLETED.

End Batch.

(** * fraud_detection.py *)

Module Fraud.

(** The values a transaction dict holds: [None], a [str], a finite number
    (exact: an [int], a [float] or a [Decimal] is the rational it denotes,
    and Python compares numbers by their value) or a [datetime]. *)
Inductive PyVal := VNone | VStr (s : string) | VNum (q : Qc) | VTime (t : Z).

#[global] Instance PyVal_eq_dec : EqDecision PyVal.
Proof. solve_decision. Defined.

#[global] Instance PyVal_countable : Countable PyVal :=
  inj_countable'
    (λ v, match v with
          | VNone => inl (inl ()) | VStr s => inl (inr s)
          | VNum q => inr (inl q) | VTime t => inr (inr t)
          end)
    (λ x, match x with
          | inl (inl _) => VNone | inl (inr s) => VStr s
          | inr (inl q) => VNum q | inr (inr t) => VTime t
          end)
    (λ v, match v with
          | VNone => eq_refl | VStr _ => eq_refl
          | VNum _ => eq_refl | VTime _ => eq_refl
          end).

(** The truth value of [v] in a condition *)
Definition truthy (v : PyVal) : bool :=
  match v with
  | VNone => false
  | VStr s => negb (bool_decide (s = ""))
  | VNum q => negb (bool_decide (q = Q2Qc 0))
  | VTime _ => true
  end.

(** A computation that returns a value or raises an exception *)
Inductive Raising (A : Type) := Return (a : A) | Raise (exc : string).
Arguments Return {A} _.
Arguments Raise {A} _.

(** [class FraudRiskLevel(Enum)], with the values [auto()] gives *)
Inductive FraudRiskLevel := LOW | MEDIUM | HIGH.

Definition FraudRiskLevel_value (l : FraudRiskLevel) : Z :=
  match l with LOW => 1 | MEDIUM => 2 | HIGH => 3 end.

Definition FraudRiskLevel_name (l : FraudRiskLevel) : string :=
  match l with LOW => "LOW" | MEDIUM => "MEDIUM" | HIGH => "HIGH" end.

(** What [evaluate] returns: [(triggered, risk_level, message)] *)
Definition Verdict : Type := bool * FraudRiskLevel * string.

(** [class FraudDetectionRule]: a rule is an object with a name, a
    description, a state of its own and the method [evaluate], which may
    change that state, read the clock, and raise. *)
Module FraudDetectionRule.

Record t := {
  name : string;
  description : string;
  state_type : Type;
  state : state_type;
  evaluate : gmap string PyVal → M state_type (Raising Verdict)
}.

Definition set_state (r : t) (s : state_type r) : t :=
  {| name := name r; description := description r; state := s;
     evaluate := evaluate r |}.

(** A rule of the base class itself: [evaluate] raises [NotImplementedError] *)
Definition base (name description : string) : t :=
  {| name := name; description := description; state := tt;
     evaluate := λ _, mret (Raise "NotImplementedError") |}.

End FraudDetectionRule.

Section Rules.
Context `{Platform}.

(** [AmountThresholdRule.evaluate]; a value that is no number cannot be
    compared with the threshold ([TypeError]). *)
Definition AmountThresholdRule_evaluate (threshold : Qc)
    (transaction : gmap string PyVal) : Raising Verdict :=
  let amount := default (VNum (Q2Qc 0)) (transaction !! "amount") in
  match amount with
  | VNum a =>
    if bool_decide (threshold < a)%Qc
    then Return (true, MEDIUM,
                 "Transaction amount ($" +:+ str_of_num a
                 +:+ ") exceeds threshold ($" +:+ str_of_num threshold +:+ ")")
    else Return (false, LOW, "")
  | _ => Raise "TypeError"
  end.

Definition AmountThresholdRule (threshold : Qc) : FraudDetectionRule.t :=
  {| FraudDetectionRule.name := "Amount Threshold";
     FraudDetectionRule.description :=
       "Flags transactions with amount greater than $" +:+ str_of_num threshold;
     FraudDetectionRule.state := tt;
     FraudDetectionRule.evaluate :=
       λ transaction, mret (AmountThresholdRule_evaluate threshold transaction) |}.

(** [GeographicAnomalyRule.evaluate]; [allowed_countries] is the list made
    upper case by [__init__]. Only a [str] has [upper] ([AttributeError]). *)
Definition GeographicAnomalyRule_evaluate (allowed_countries : list string)
    (transaction : gmap string PyVal) : Raising Verdict :=
  match default (VStr "") (transaction !! "country") with
  | VStr c =>
    let country := upper c in
    if negb (bool_decide (country = "")) && negb (bool_decide (country ∈ allowed_countries))
    then Return (true, HIGH, "Transaction from non-allowed country: " +:+ country)
    else Return (false, LOW, "")
  | _ => Raise "AttributeError"
  end.

Definition GeographicAnomalyRule (allowed_countries : list string) : FraudDetectionRule.t :=
  {| FraudDetectionRule.name := "Geographic Anomaly";
     FraudDetectionRule.description :=
       "Flags transactions from countries outside the allowed list";
     FraudDetectionRule.state := tt;
     FraudDetectionRule.evaluate :=
       λ transaction,
         mret (GeographicAnomalyRule_evaluate (upper <$> allowed_countries) transaction) |}.

(** [timestamp - self.time_window]: only a [datetime] has a [timedelta]
    subtracted from it ([TypeError]). *)
Definition sub_timedelta (timestamp : PyVal) (delta : Z) : Raising Z :=
  match timestamp with
  | VTime t => Return (t - delta)
  | _ => Raise "TypeError"
  end.

(** [[t for t in history if t >= cutoff_time]]: the comparison of a value
    that is no [datetime] with [cutoff_time] raises [TypeError]. *)
Fixpoint recent_since (cutoff_time : Z) (history : list PyVal) : Raising (list PyVal) :=
  match history with
  | [] => Return []
  | VTime t :: history' =>
    match recent_since cutoff_time history' with
    | Return l => Return (if bool_decide (cutoff_time ≤ t) then VTime t :: l else l)
    | Raise e => Raise e
    end
  | _ :: _ => Raise "TypeError"
  end.

(** [VelocityCheckRule.evaluate]. The state is [transaction_history];
    [time_window] is the [timedelta] made by [__init__]. The default of
    [transaction.get('timestamp', datetime.now())] is computed at every call. *)
Definition VelocityCheckRule_evaluate (max_transactions : Z) (time_window : Z)
    (transaction : gmap string PyVal) : M (gmap PyVal (list PyVal)) (Raising Verdict) :=
  let card_id := default VNone (transaction !! "card_id") in
  now ← datetime_now;
  let timestamp := default (VTime now) (transaction !! "timestamp") in
  if negb (truthy card_id) then mret (Return (false, LOW, ""))
  else
    _ ← modify (λ transaction_history : gmap PyVal (list PyVal),
                  match transaction_history !! card_id with
                  | None => <[card_id := []]> transaction_history
                  | Some _ => transaction_history
                  end);
    _ ← modify (λ transaction_history : gmap PyVal (list PyVal),
                  <[card_id := default [] (transaction_history !! card_id) ++ [timestamp]]>
                    transaction_history);
    match sub_timedelta timestamp time_window with
    | Raise e => mret (Raise e)
    | Return cutoff_time =>
      transaction_history ← get;
      match recent_since cutoff_time (default [] (transaction_history !! card_id)) with
      | Raise e => mret (Raise e)
      | Return recent_transactions =>
        _ ← modify (λ transaction_history : gmap PyVal (list PyVal),
                      <[card_id := recent_transactions]> transaction_history);
        if bool_decide (max_transactions < Z.of_nat (length recent_transactions))
        then mret (Return (true, HIGH,
                     "Velocity check: " +:+ str_of_int (Z.of_nat (length recent_transactions))
                     +:+ " transactions in "
                     +:+ str_of_num (Q2Qc (Qmake time_window 60000000))
                     +:+ " minutes"))
        else mret (Return (false, LOW, ""))
      end
    end.

Definition VelocityCheckRule (max_transactions time_window_minutes : Z) : FraudDetectionRule.t :=
  {| FraudDetectionRule.name := "Velocity Check";
     FraudDetectionRule.description :=
       "Flags if more than " +:+ str_of_int max_transactions
       +:+ " transactions occur within " +:+ str_of_int time_window_minutes
       +:+ " minutes";
     FraudDetectionRule.state := (∅ : gmap PyVal (list PyVal));
     FraudDetectionRule.evaluate :=
       VelocityCheckRule_evaluate max_transactions (time_window_minutes * 60 * 1000000) |}.

(** [PatternMatchingRule.evaluate]; [sm in merchant] is the search of a
    text in a text, and the pattern [test|dummy|unauthorized] is searched
    in the lower-case description with the case ignored. *)
Definition PatternMatchingRule_evaluate (suspicious_merchants : list string)
    (transaction : gmap string PyVal) : Raising Verdict :=
  match default (VStr "") (transaction !! "merchant") with
  | VStr m =>
    let merchant := lower m in
    match default (VStr "") (transaction !! "description") with
    | VStr d =>
      let description := lower d in
      if existsb (λ sm, contains merchant sm) suspicious_merchants
      then Return (true, HIGH, "Suspicious merchant detected: " +:+ merchant)
      else if re_search_ignorecase ["test"; "dummy"; "unauthorized"] description
      then Return (true, MEDIUM, "Suspicious keywords in description: " +:+ description)
      else Return (false, LOW, "")
    | _ => Raise "AttributeError"
    end
  | _ => Raise "AttributeError"
  end.

Definition PatternMatchingRule : FraudDetectionRule.t :=
  {| FraudDetectionRule.name := "Pattern Matching";
     FraudDetectionRule.description := "Detects suspicious patterns in transaction data";
     FraudDetectionRule.state := tt;
     FraudDetectionRule.evaluate :=
       λ transaction,
         mret (PatternMatchingRule_evaluate ["test-merchant"; "unauthorized-vendor"]
                 transaction) |}.

End Rules.

(** An entry of the list [evaluate_transaction] returns *)
Record RuleResult := { rule_name : string; risk_level : FraudRiskLevel; message : string }.

(** [class FraudDetectionEngine] *)
Record FraudDetectionEngine := { rules : list FraudDetectionRule.t }.

Section Engine.
Context `{Platform}.

Definition add_rule (rule : FraudDetectionRule.t) : M FraudDetectionEngine unit :=
  modify (λ e, {| rules := rules e ++ [rule] |}).

Definition remove_rule (rule_name : string) : M FraudDetectionEngine bool :=
  e ← get;
  let initial_count := length (rules e) in
  _ ← put {| rules := filter (λ r, FraudDetectionRule.name r ≠ rule_name) (rules e) |};
  e ← get;
  mret (bool_decide (length (rules e) < initial_count)%nat).

(** [FraudDetectionEngine.__init__] *)
Definition init : FraudDetectionEngine :=
  {| rules := [AmountThresholdRule (Q2Qc 1000);
               GeographicAnomalyRule ["US"; "CA"; "GB"; "AU"];
               VelocityCheckRule 3 5;
               PatternMatchingRule] |}.

(** [rule.evaluate(transaction)] on the rule object: the call runs on the
    state of the rule and leaves the rule with the state it ends in, also
    when it raises. *)
Definition call_evaluate (rule : FraudDetectionRule.t) (transaction : gmap string PyVal)
    (s : Sys) : Raising Verdict * FraudDetectionRule.t * Sys :=
  let '(r, w) := FraudDetectionRule.evaluate rule transaction
                   {| self := FraudDetectionRule.state rule; sys := s |} in
  (r, FraudDetectionRule.set_state rule (self w), sys w).

(** The body of the loop of [evaluate_transaction] for the rule at place
    [i], on the local variables [results] and [highest_risk] *)
Definition evaluate_rule (transaction : gmap string PyVal) (i : nat)
    (acc : list RuleResult * FraudRiskLevel)
    : M FraudDetectionEngine (list RuleResult * FraudRiskLevel) :=
  λ w,
    match rules (self w) !! i with
    | None => (acc, w)
    | Some rule =>
      let '(r, rule', s') := call_evaluate rule transaction (sys w) in
      let w' := {| self := {| rules := <[i := rule']> (rules (self w)) |}; sys := s' |} in
      match r with
      | Return (triggered, risk_level, message) =>
        if (triggered : bool)
        then
          let results :=
            acc.1 ++ [{| rule_name := FraudDetectionRule.name rule;
                         risk_level := risk_level; message := message |}] in
          let highest_risk :=
            if bool_decide (FraudRiskLevel_value acc.2 < FraudRiskLevel_value risk_level)
            then risk_level else acc.2 in
          ((results, highest_risk), w')
        else (acc, w')
      | Raise _ => (acc, w')
      end
    end.

Fixpoint evaluate_rules (transaction : gmap string PyVal) (todo : list nat)
    (acc : list RuleResult * FraudRiskLevel)
    : M FraudDetectionEngine (list RuleResult * FraudRiskLevel) :=
  match todo with
  | [] => mret acc
  | i :: todo' =>
    acc' ← evaluate_rule transaction i acc;
    evaluate_rules transaction todo' acc'
  end.

(** [FraudDetectionEngine.evaluate_transaction] *)
Definition evaluate_transaction (transaction : gmap string PyVal)
    : M FraudDetectionEngine (list RuleResult) :=
  e ← get;
  acc ← evaluate_rules transaction (seq 0 (length (rules e))) ([], LOW);
  mret acc.1.

End Engine.

(** ** Vocabulary of the properties *)

(** One cent, in dollars *)
Definition cent : Qc := Q2Qc (1 # 100).

Section Vocabulary.
Context `{Platform}.

(** The verdict of the velocity rule on [n] retained timestamps *)
Definition velocity_verdict (max_transactions time_window : Z) (n : nat) : Verdict :=
  if bool_decide (max_transactions < Z.of_nat n)
  then (true, HIGH,
        "Velocity check: " +:+ str_of_int (Z.of_nat n) +:+ " transactions in "
        +:+ str_of_num (Q2Qc (Qmake time_window 60000000)) +:+ " minutes")
  else (false, LOW, "").

(** What the evaluation of the rules [rs], one after the other from the
    counters [s], comes to: the outcome of each rule with its name, the
    rules with the states they end in, and the counters at the end. *)
Fixpoint outcomes (rs : list FraudDetectionRule.t) (transaction : gmap string PyVal)
    (s : Sys) : list (string * Raising Verdict) :=
  match rs with
  | [] => []
  | rule :: rs' =>
    let '(r, _, s') := call_evaluate rule transaction s in
    (FraudDetectionRule.name rule, r) :: outcomes rs' transaction s'
  end.

Fixpoint evaluated (rs : list FraudDetectionRule.t) (transaction : gmap string PyVal)
    (s : Sys) : list FraudDetectionRule.t :=
  match rs with
  | [] => []
  | rule :: rs' =>
    let '(_, rule', s') := call_evaluate rule transaction s in
    rule' :: evaluated rs' transaction s'
  end.

Fixpoint sys_after (rs : list FraudDetectionRule.t) (transaction : gmap string PyVal)
    (s : Sys) : Sys :=
  match rs with
  | [] => s
  | rule :: rs' =>
    let '(_, _, s') := call_evaluate rule transaction s in
    sys_after rs' transaction s'
  end.

End Vocabulary.

(** The entry of the result list for an outcome, if it is a triggered one *)
Definition triggered (o : string * Raising Verdict) : option RuleResult :=
  match o.2 with
  | Return (true, risk_level, message) =>
    Some {| rule_name := o.1; risk_level := risk_level; message := message |}
  | _ => None
  end.


(** The text [p] occurs in the text [s] *)
Definition occurs_in (p s : string) : Prop := ∃ a b, s = a +:+ p +:+ b.

End Fraud.

(** * Concrete inputs, on which the properties are tried *)

Module Examples.

(** A platform on which everything computes: the clock advances by one
    second at each reading, the draws of the entropy source are numbered,
    the hash of a password is the password with the salt, and the case of
    the ASCII letters is the only one there is. *)
Definition platform : Platform :=
  {| clock := λ n, Z.of_nat n * 1000000;
     entropy := λ n, "uuid-" +:+ pretty n;
     pbkdf2_hmac_sha256_hex := λ password salt, password +:+ "$" +:+ salt;
     isoformat := λ t, pretty t;
     strftime := λ t, pretty t;
     str_of_num := λ q, pretty (Qnum q) +:+ "/" +:+ pretty (Z.pos (Qden q));
     str_of_int := λ n, pretty n;
     lower := str_map lower_ascii;
     upper := str_map upper_ascii;
     lower_ascii_only := λ s _, eq_refl;
     upper_ascii_only := λ s _, eq_refl;
     upper_nonempty :=
       λ s, match s with
            | EmptyString => λ _, eq_refl
            | String c s' =>
              λ E : String (upper_ascii c) (str_map upper_ascii s') = "",
                match E in _ = t return match t with
                                        | EmptyString => String c s' = ""
                                        | String _ _ => True
                                        end with
                | eq_refl => I
                end
            end;
     re_search_ignorecase :=
       λ words text,
         existsb (λ word, contains (str_map lower_ascii text) (str_map lower_ascii word))
           words;
     re_search_ascii_only := λ words text _ _, eq_refl |}.

Definition start : Sys := {| ticks := 0; draws := 0 |}.

(** A manager with the user alice, whose password is [secret] *)
Definition alice : Auth.User.t :=
  {| Auth.User.id := "u-1"; Auth.User.username := "alice";
     Auth.User.email := "a@x.com"; Auth.User.password_hash := "secret$00";
     Auth.User.salt := "00"; Auth.User.role := Auth.VIEWER;
     Auth.User.first_name := ""; Auth.User.last_name := "";
     Auth.User.custom_permissions := []; Auth.User.created_at := 0;
     Auth.User.updated_at := 0; Auth.User.last_login := None;
     Auth.User.failed_login_attempts := 0; Auth.User.locked_until := None;
     Auth.User.active := true |}.

Definition manager : World Auth.AuthManager :=
  {| self := Auth.set_users [("u-1", alice)] Auth.init; sys := start |}.

Definition no_user : World Auth.AuthManager := {| self := Auth.init; sys := start |}.

Definition wrong_passwords : list string := ["a"; "b"; "c"; "d"; "e"].

(** The manager after alice has logged in: her session is [uuid-0] *)
Definition logged_in : World Auth.AuthManager :=
  (Auth.authenticate (H := platform) "alice" "secret" manager).2.

(** A manager in which alice was locked after five wrong passwords, the
    lock being over at the first reading of the clock *)
Definition was_locked : Auth.User.t :=
  Auth.User.set_locked_until (Some 0) (Auth.User.set_failed_login_attempts 5 alice).

Definition manager_after_lock : World Auth.AuthManager :=
  {| self := Auth.set_users [("u-1", was_locked)] Auth.init; sys := start |}.

(** Three payments, and a callback that fails the second call it gets *)
Definition payment (id amount status : string) : Batch.BatchItem.t :=
  {| Batch.BatchItem.id := id;
     Batch.BatchItem.data := [("amount", Some amount)];
     Batch.BatchItem.status := status;
     Batch.BatchItem.error_message := None;
     Batch.BatchItem.processed_at := None |}.

Definition three_payments : list Batch.BatchItem.t :=
  [payment "i-1" "10" "Pending"; payment "i-2" "20" "Pending";
   payment "i-3" "30" "Pending"].

Definition fails_second : Batch.Processor nat :=
  λ data batch_type calls,
    (if bool_decide (calls = 1%nat) then Batch.Returned false (Some (Some "declined"))
     else Batch.Returned true None,
     S calls).

(** A job with one item, which has been processed or not *)
Definition job_of (items : list Batch.BatchItem.t) : Batch.BatchJob.t :=
  {| Batch.BatchJob.id := "j-1"; Batch.BatchJob.name := "payments";
     Batch.BatchJob.batch_type := Batch.PAYMENT; Batch.BatchJob.items := items;
     Batch.BatchJob.description := ""; Batch.BatchJob.created_at := 0;
     Batch.BatchJob.updated_at := 0; Batch.BatchJob.started_at := None;
     Batch.BatchJob.completed_at := None; Batch.BatchJob.status := Batch.PENDING;
     Batch.BatchJob.total_items := Z.of_nat (length items);
     Batch.BatchJob.processed_items := 0; Batch.BatchJob.successful_items := 0;
     Batch.BatchJob.failed_items := 0 |}.

Definition pending_job : Batch.BatchJob.t := job_of [payment "i-1" "10" "Pending"].

Definition completed_job : Batch.BatchJob.t := job_of [payment "i-1" "10" "Completed"].

Definition no_job : World Batch.BatchManager :=
  {| self := {| Batch.batch_jobs := ∅ |}; sys := start |}.

(** A CSV file with two data columns whose names start like the special ones *)
Definition csv_file : list (list string) :=
  [["id"; "identifier"; "status_code"; "data_amount"; "name"];
   ["1"; "X-17"; "200"; "10"; "bob"]].

(** Transactions *)
Definition tx_card (t : Z) : gmap string Fraud.PyVal :=
  {["card_id" := Fraud.VStr "card-1"; "timestamp" := Fraud.VTime t]}.

Definition tx_amount (amount : Qc) : gmap string Fraud.PyVal :=
  {["amount" := Fraud.VNum amount]}.


(** An engine whose first rule always raises *)
Definition faulty_engine : World Fraud.FraudDetectionEngine :=
  {| self := {| Fraud.rules :=
                  [Fraud.FraudDetectionRule.base "Broken" "always raises";
                   Fraud.AmountThresholdRule (H := platform) (Q2Qc 1000)] |};
     sys := start |}.

End Examples.

(** * Proofs *)

(** Running a computation of the monad on a world *)
Ltac run :=
  repeat (progress (cbn [fst snd self sys ticks draws] in *;
    unfold mbind, mret, State_bind, State_ret, get, put, modify, uuid4,
      urandom_hex, datetime_now, draw_entropy in *)).


(** ** Session authority *)

Module AuthSpec.
Import Auth.

Lemma list_find_insert_same {A} (P : A → Prop) `{∀ x, Decision (P x)} (l : list A) i x y :
  list_find P l = Some (i, x) → P y → list_find P (<[i := y]> l) = Some (i, y).
Proof.
  revert i. induction l as [|a l IH]; intros i Hf Hy; [done|].
  cbn in Hf. destruct (decide (P a)) as [Ha|Ha].
  - simplify_eq. cbn. by rewrite decide_True.
  - destruct (list_find P l) as [[j z]|] eqn:E; simplify_eq/=.
    rewrite decide_False by done. by rewrite (IH j).
Qed.

Lemma fmap_snd_alter_pair {K V} (l : list (K * V)) i v :
  (alter (λ kv, (kv.1, v)) i l).*2 = <[i := v]> (l.*2).
Proof.
  revert i. induction l as [|[k x] l IH]; intros [|i]; cbn; try done.
  by rewrite <- IH.
Qed.

Section AuthFacts.
Context {PF : Platform}.

Lemma list_find_is_Some {A} (P : A → Prop) `{∀ x, Decision (P x)} (l : list A) :
  is_Some (list_find P l) ↔ ∃ x, x ∈ l ∧ P x.
Proof.
  split.
  - intros [[i x] Hf]. apply list_find_Some in Hf as (Hl & HP & _).
    exists x. split; [by eapply list_elem_of_lookup_2|done].
  - intros (x & Hx & HP). by eapply list_find_elem_of.
Qed.

Lemma create_user_guard a username email :
  bool_decide (is_Some (get_user_by_username a username))
  || bool_decide (is_Some (get_user_by_email a email)) = true ↔ duplicate a username email.
Proof.
  rewrite orb_true_iff, !bool_decide_eq_true.
  unfold get_user_by_username, get_user_by_email, duplicate.
  rewrite !list_find_is_Some. split.
  - intros [(u & ? & ?)|(u & ? & ?)]; exists u; eauto.
  - intros (u & ? & [?|?]); [left|right]; eauto.
Qed.

Lemma elem_of_dict_set_values {V} k (v : V) d : v ∈ (dict_set k v d).*2.
Proof.
  unfold dict_set, dict_find.
  destruct (list_find _ d) as [[i kv]|] eqn:E.
  - apply list_find_Some in E as (Hl & _ & _).
    rewrite list_fmap_insert. cbn.
    apply list_elem_of_lookup. exists i.
    apply list_lookup_insert_eq. rewrite length_fmap. by eapply lookup_lt_Some.
  - rewrite fmap_app. cbn. set_solver.
Qed.

Lemma create_user_duplicate_None (w : World AuthManager) username email password role
    first_name last_name perms :
  duplicate (self w) username email →
  create_user username email password role first_name last_name perms w = (None, w).
Proof.
  intros Hdup%create_user_guard. unfold create_user. run. by rewrite Hdup.
Qed.

(** C6. [create_user] fails, that is returns no user id and leaves the user
    table as it is, exactly when some user already has the username or the
    email, letter case apart. In particular, once ["alice"] has been
    created, creating ["Alice"] with another email fails and changes
    nothing. *)
Theorem create_user_fails_iff_duplicate :
  (∀ (w : World AuthManager) username email password role first_name last_name perms,
     let r := create_user username email password role first_name last_name perms w in
     (r.1 = None ∧ users (self r.2) = users (self w))
     ↔ ∃ u, u ∈ (users (self w)).*2 ∧
            (lower (User.username u) = lower username ∨ lower (User.email u) = lower email))
  ∧
  (∀ (w : World AuthManager) password role first_name last_name perms
     password' role' first_name' last_name' perms',
     let r := create_user "alice" "a@x.com" password role first_name last_name perms w in
     is_Some r.1 →
     let r' := create_user "Alice" "other@x.com" password' role' first_name' last_name' perms' r.2 in
     r'.1 = None ∧ users (self r'.2) = users (self r.2)).
Proof.
  split.
  - intros w username email password role first_name last_name perms r.
    fold (duplicate (self w) username email).
    rewrite <- create_user_guard. subst r. unfold create_user. run.
    destruct (_ || _); run; [done|]. split; [intros [? _]|]; done.
  - intros w password role first_name last_name perms
      password' role' first_name' last_name' perms' r Hr r'.
    assert (duplicate (self r.2) "Alice" "other@x.com") as Hdup.
    { subst r. unfold create_user, User.init in *. run.
      destruct (_ || _); run; [by destruct Hr|].
      eexists. split; [apply elem_of_dict_set_values|]. left.
      cbn [User.username]. by rewrite !lower_ascii_only. }
    subst r'. by rewrite create_user_duplicate_None.
Qed.

(** Lockout *)

Lemma dict_find_alter_value {V} k (d : list (string * V)) i kv v :
  dict_find k d = Some (i, kv) →
  dict_find k (alter (λ kv, (kv.1, v)) i d) = Some (i, (kv.1, v)).
Proof.
  unfold dict_find. revert i. induction d as [|[k' x] d IH]; intros i Hf; [done|].
  cbn in Hf. destruct (decide (k' = k)) as [->|Hne].
  - simplify_eq. cbn. by rewrite decide_True.
  - destruct (list_find _ d) as [[j z]|] eqn:E; simplify_eq/=.
    rewrite decide_False by done. by rewrite (IH j).
Qed.

Lemma account_at_put a username user_id ref user user' :
  account_at a username user_id ref user →
  User.username user' = User.username user →
  account_at (put_user ref user' a) username user_id ref user'.
Proof.
  intros [Hn Hk] Hu. split.
  - unfold get_user_by_username, put_user in *. cbn.
    rewrite fmap_snd_alter_pair.
    eapply list_find_insert_same; [done|].
    apply list_find_Some in Hn as (_ & HP & _). by rewrite Hu.
  - unfold get_user, put_user in *. cbn [users set_users].
    destruct (dict_find user_id (users a)) as [[i kv]|] eqn:E; [|done].
    injection Hk as -> <-. by erewrite dict_find_alter_value.
Qed.

Lemma is_locked_None user (w : World AuthManager) :
  User.locked_until user = None → User.is_locked user w = (false, w).
Proof. intros E. unfold User.is_locked. by rewrite E. Qed.

Lemma is_locked_Some user until (w : World AuthManager) :
  User.locked_until user = Some until →
  User.is_locked user w
  = (bool_decide (clock (ticks (sys w)) < until),
     {| self := self w; sys := tick 1 (sys w) |}).
Proof. intros E. unfold User.is_locked. by rewrite E. Qed.

Lemma is_locked_over user (w : World AuthManager) :
  lock_over user (ticks (sys w)) →
  User.is_locked user w = (false, after_is_locked user w).
Proof.
  intros Hover. unfold after_is_locked.
  destruct (User.locked_until user) as [until|] eqn:E.
  - rewrite (is_locked_Some _ until) by done. f_equal.
    apply bool_decide_eq_false. specialize (Hover until _ E (le_n _)). lia.
  - by apply is_locked_None.
Qed.

Lemma authenticate_wrong (w : World AuthManager) username password ref user :
  get_user_by_username (self w) username = Some (ref, user) →
  User.active user = true →
  lock_over user (ticks (sys w)) →
  _hash_password password (User.salt user) ≠ User.password_hash user →
  authenticate username password w
  = (None, {| self := put_user ref (failed_user (self w) user (sys (after_is_locked user w)))
                        (self w);
              sys := failed_sys (self w) user (sys (after_is_locked user w)) |}).
Proof.
  intros Hn Ha Hover Hne. unfold authenticate. run.
  rewrite Hn, Ha. cbn [negb]. rewrite is_locked_over by done.
  rewrite bool_decide_true by done.
  unfold failed_user, failed_sys, put_user, write_user. run.
  replace (self (after_is_locked user w)) with (self w)
    by (unfold after_is_locked; by destruct (User.locked_until user)).
  case_bool_decide as Hc; cbn in Hc; run;
    [rewrite !bool_decide_true by done | rewrite !bool_decide_false by done]; done.
Qed.

Lemma authenticate_locked (w : World AuthManager) username password ref user until :
  get_user_by_username (self w) username = Some (ref, user) →
  User.active user = true →
  User.locked_until user = Some until →
  clock (ticks (sys w)) < until →
  authenticate username password w = (None, {| self := self w; sys := tick 1 (sys w) |}).
Proof.
  intros Hn Ha Hl Hlt. unfold authenticate. run.
  rewrite Hn, Ha. cbn [negb]. rewrite (is_locked_Some _ until) by done.
  by rewrite bool_decide_true.
Qed.


Lemma authenticate_ok (w : World AuthManager) username password ref user :
  get_user_by_username (self w) username = Some (ref, user) →
  User.active user = true →
  (∀ until, User.locked_until user = Some until → until ≤ clock (ticks (sys w))) →
  _hash_password password (User.salt user) = User.password_hash user →
  let s := sys (after_is_locked user w) in
  authenticate username password w
  = (Some (entropy (draws s)),
     {| self := set_active_sessions
                  (<[entropy (draws s) := login_session (self w) user s]>
                     (active_sessions (self w)))
                  (put_user ref (login_user user s) (self w));
        sys := {| ticks := 4 + ticks s; draws := S (draws s) |} |}).
Proof.
  intros Hn Ha Hover Heq s. unfold authenticate. run.
  rewrite Hn, Ha. cbn [negb].
  assert (User.is_locked user w = (false, after_is_locked user w)) as ->.
  { unfold after_is_locked. destruct (User.locked_until user) as [until|] eqn:E.
    - rewrite (is_locked_Some _ until) by done. f_equal.
      apply bool_decide_eq_false. specialize (Hover until eq_refl). lia.
    - by apply is_locked_None. }
  rewrite bool_decide_false by (by intros []).
  unfold write_user, put_user, login_user, login_session. run.
  subst s. replace (self (after_is_locked user w)) with (self w)
    by (unfold after_is_locked; by destruct (User.locked_until user)).
  done.
Qed.

Lemma map_M_app {W A B} (f : A → State W B) (l1 l2 : list A) (w : W) :
  map_M f (l1 ++ l2) w
  = ((map_M f l1 w).1 ++ (map_M f l2 (map_M f l1 w).2).1,
     (map_M f l2 (map_M f l1 w).2).2).
Proof.
  revert w. induction l1 as [|x l1 IH]; intros w; cbn [map_M app]; run.
  - by destruct (map_M f l2 w).
  - destruct (f x w) as [y w1]. rewrite IH.
    destruct (map_M f l1 w1) as [ys w2]. cbn.
    by destruct (map_M f l2 w2).
Qed.

Lemma after_is_locked_self user (w : World AuthManager) :
  self (after_is_locked user w) = self w.
Proof. unfold after_is_locked. by destruct (User.locked_until user). Qed.

Lemma after_is_locked_ticks user (w : World AuthManager) :
  (ticks (sys w) ≤ ticks (sys (after_is_locked user w)))%nat.
Proof. unfold after_is_locked. destruct (User.locked_until user); cbn; lia. Qed.

Lemma wrong_attempts_below_threshold username user_id ref (wrong : list string) :
  ∀ (w : World AuthManager) user,
    account_at (self w) username user_id ref user →
    User.active user = true →
    lock_over user (ticks (sys w)) →
    Forall (λ p, _hash_password p (User.salt user) ≠ User.password_hash user) wrong →
    User.failed_login_attempts user + Z.of_nat (length wrong) < max_failed_attempts (self w) →
    let r := map_M (authenticate username) wrong w in
    Forall (λ o, o = None) r.1 ∧
    same_config (self w) (self r.2) ∧
    (ticks (sys w) ≤ ticks (sys r.2))%nat ∧
    ∃ user', account_at (self r.2) username user_id ref user' ∧
             same_account user user' ∧
             User.failed_login_attempts user'
             = User.failed_login_attempts user + Z.of_nat (length wrong).
Proof.
  induction wrong as [|p wrong IH]; intros w user Hacc Ha Hover Hw Hlt r.
  - subst r. cbn. split; [constructor|]. split; [done|]. split; [done|].
    exists user. split; [done|]. split; [by repeat split|]. lia.
  - inversion_clear Hw as [|? ? Hp Hw']. cbn [length] in Hlt.
    subst r. cbn [map_M]. run.
    rewrite (authenticate_wrong _ _ _ ref user) by (done || apply Hacc).
    set (w0 := after_is_locked user w).
    assert (max_failed_attempts (self w) ≤ User.failed_login_attempts user + 1 → False)
      as Hbelow by lia.
    unfold failed_user, failed_sys. rewrite !bool_decide_false by done.
    set (user1 := User.set_updated_at _ _).
    set (w1 := {| self := _; sys := _ |}).
    assert (ticks (sys w) ≤ ticks (sys w1))%nat as Hticks.
    { pose proof (after_is_locked_ticks user w). subst w1 w0. cbn. lia. }
    destruct (IH w1 user1) as (Hnone & Hcfg & Ht & user' & Hacc' & Hsame & Hf).
    + subst w1. cbn [self]. by apply (account_at_put _ _ _ _ user).
    + done.
    + intros lu n E Hn. apply (Hover lu n); [done|lia].
    + done.
    + subst w1 user1. cbn. lia.
    + destruct (map_M (authenticate username) wrong w1) as [rs w2]. cbn in *.
      split; [by constructor|]. split; [|split; [lia|]].
      { destruct Hcfg as (? & ? & ?). by repeat split. }
      exists user'. split; [done|]. split; [|subst user1; cbn in *; lia].
      destruct Hsame as (? & ? & ? & ? & ? & ?). by repeat split.
Qed.


Lemma unlock_user_found (w : World AuthManager) user_id ref user :
  get_user (self w) user_id = Some (ref, user) →
  unlock_user user_id w
  = (true,
     {| self := put_user ref
                  (User.set_updated_at (clock (ticks (sys w)))
                     (User.set_failed_login_attempts 0 (User.set_locked_until None user)))
                  (self w);
        sys := tick 1 (sys w) |}).
Proof. intros Hk. unfold unlock_user. run. rewrite Hk. by unfold write_user. Qed.

(** C1. A user who is active, has no failed attempt counted and is not
    locked makes [max_failed_attempts] attempts in a row with wrong
    passwords. All of them fail; the last one sets [locked_until] to the
    time read at that moment plus [lockout_duration], and none before it
    touches [locked_until]. From then on an attempt with the correct
    password fails, leaving the manager as it is, as long as the clock reads
    less than [locked_until]; it succeeds once the clock has reached
    [locked_until], and it succeeds at any time after [unlock_user]. *)
Theorem lockout_after_max_failed_attempts
    (w : World AuthManager) (username user_id : string) (ref : nat) (user : User.t)
    (wrong : list string) (correct : string) :
  get_user_by_username (self w) username = Some (ref, user) →
  get_user (self w) user_id = Some (ref, user) →
  User.active user = true →
  User.failed_login_attempts user = 0 →
  (∀ lu n, User.locked_until user = Some lu → (ticks (sys w) ≤ n)%nat → lu ≤ clock n) →
  (0 < length wrong)%nat →
  Z.of_nat (length wrong) = max_failed_attempts (self w) →
  Forall (λ p, _hash_password p (User.salt user) ≠ User.password_hash user) wrong →
  _hash_password correct (User.salt user) = User.password_hash user →
  let r := map_M (authenticate username) wrong w in
  let locked_until := clock (pred (ticks (sys r.2))) + lockout_duration (self w) in
  Forall (λ o, o = None) r.1
  ∧ (∃ user', get_user_by_username (self r.2) username = Some (ref, user')
              ∧ User.locked_until user' = Some locked_until)
  ∧ (∀ k, (k < length wrong)%nat →
       ∃ user',
         get_user_by_username
           (self (map_M (authenticate username) (take k wrong) w).2) username
         = Some (ref, user')
         ∧ User.locked_until user' = User.locked_until user
         ∧ User.failed_login_attempts user' = Z.of_nat k)
  ∧ (∀ w' : World AuthManager, self w' = self r.2 →
       clock (ticks (sys w')) < locked_until →
       authenticate username correct w'
       = (None, {| self := self w';
                   sys := {| ticks := S (ticks (sys w')); draws := draws (sys w') |} |}))
  ∧ (∀ w' : World AuthManager, self w' = self r.2 →
       locked_until ≤ clock (ticks (sys w')) →
       is_Some (authenticate username correct w').1)
  ∧ (∀ w' : World AuthManager, self w' = self r.2 →
       (unlock_user user_id w').1 = true
       ∧ is_Some (authenticate username correct (unlock_user user_id w').2).1).
Proof.
  intros Hn Hk Ha Hf Hover Hpos Hlen Hwrong Hcorrect.
  assert (account_at (self w) username user_id ref user) as Hacc by done.
  destruct wrong as [|last wrong' _] using rev_ind; [cbn in Hpos; lia|].
  rewrite length_app in Hlen. cbn in Hlen.
  apply Forall_app in Hwrong as [Hwrong' Hlast].
  rewrite Forall_singleton in Hlast.
  (* the attempts before the last one *)
  assert (∀ k, (k ≤ length wrong')%nat →
    let r := map_M (authenticate username) (take k wrong') w in
    Forall (λ o, o = None) r.1 ∧ same_config (self w) (self r.2) ∧
    (ticks (sys w) ≤ ticks (sys r.2))%nat ∧
    ∃ user', account_at (self r.2) username user_id ref user' ∧
             same_account user user' ∧
             User.failed_login_attempts user' = Z.of_nat k) as Hbefore.
  { intros k Hle.
    destruct (wrong_attempts_below_threshold username user_id ref (take k wrong') w user)
      as (? & ? & ? & user' & ? & ? & Hf'); try done.
    - by apply Forall_take.
    - rewrite length_take. lia.
    - split; [done|]. split; [done|]. split; [done|].
      exists user'. split; [done|]. split; [done|].
      rewrite Hf', Hf, length_take. lia. }
  cbv zeta. rewrite map_M_app.
  destruct (Hbefore (length wrong') (le_n _))
    as (Hnone & Hcfg & Ht & user1 & Hacc1 & Hsame1 & Hf1).
  rewrite firstn_all in Hnone, Hcfg, Ht, Hacc1.
  destruct (map_M (authenticate username) wrong' w) as [rs w1]. cbn [fst snd] in *.
  destruct Hsame1 as (Hid1 & Hname1 & Hsalt1 & Hhash1 & Hact1 & Hlock1).
  destruct Hcfg as (Hmax1 & Hdur1 & Htime1).
  assert (lock_over user1 (ticks (sys w1))) as Hover1.
  { intros lu n E Hle. apply (Hover lu n); [congruence|lia]. }
  cbn [map_M]. run.
  rewrite (authenticate_wrong w1 _ _ ref user1);
    [|apply Hacc1|by rewrite Hact1|done|by rewrite Hsalt1, Hhash1].
  unfold failed_user, failed_sys.
  rewrite !bool_decide_true by lia.
  set (s1 := sys (after_is_locked user1 w1)).
  set (user2 := User.set_locked_until _ _).
  cbn [fst snd self sys ticks tick Nat.add Nat.pred].
  assert (account_at (put_user ref user2 (self w1)) username user_id ref user2) as Hacc2.
  { by apply (account_at_put _ _ _ _ user1). }
  rewrite <- Hdur1.
  set (lu := clock (S (ticks s1)) + lockout_duration (self w1)) in *.
  assert (User.locked_until user2 = Some lu) as Hlock2 by done.
  assert (User.active user2 = true) as Hact2 by (cbn; by rewrite Hact1).
  assert (_hash_password correct (User.salt user2) = User.password_hash user2) as Hcorrect2.
  { cbn. by rewrite Hsalt1, Hhash1. }
  destruct Hacc2 as [Hn2 Hk2].
  split; [|split; [|split; [|split; [|split]]]].
  - apply Forall_app. split; [done|by constructor].
  - by exists user2.
  - intros k Hlt. rewrite length_app in Hlt. cbn in Hlt.
    rewrite take_app_le by lia.
    destruct (Hbefore k) as (_ & _ & _ & user' & [Hfind _] & Hsame & Hcount); [lia|].
    exists user'. split; [done|]. split; [apply Hsame|done].
  - intros w' Hself Hlt. rewrite <- Hself in Hn2.
    by rewrite (authenticate_locked w' _ _ ref user2 lu).
  - intros w' Hself Hle. rewrite <- Hself in Hn2.
    rewrite (authenticate_ok w' _ _ ref user2); [by eexists|done|done| |done].
    intros lu' E. rewrite Hlock2 in E. by injection E as <-.
  - intros w' Hself. rewrite <- Hself in Hk2, Hn2.
    rewrite (unlock_user_found w' _ ref user2) by done. split; [done|].
    cbn [snd].
    set (user3 := User.set_updated_at _ _).
    rewrite (authenticate_ok _ _ _ ref user3); [by eexists| |done|done|done].
    cbn [self]. by apply (account_at_put _ _ user_id _ user2).
Qed.


(** C4. For a user who is found, active and not locked, and the correct
    password, [authenticate] returns a session id, and [validate_session]
    on that id, called before the session has expired (no more than
    [session_timeout] after the expiry time was stamped), returns the id of
    that user. *)
Theorem authenticate_then_validate_session
    (w : World AuthManager) (username password : string) (ref : nat) (user : User.t) :
  get_user_by_username (self w) username = Some (ref, user) →
  User.active user = true →
  (∀ lu, User.locked_until user = Some lu → lu ≤ clock (ticks (sys w))) →
  _hash_password password (User.salt user) = User.password_hash user →
  let r := authenticate username password w in
  clock (ticks (sys r.2)) - clock (pred (ticks (sys r.2))) ≤ session_timeout (self w) →
  ∃ session_id,
    r.1 = Some session_id ∧ (validate_session session_id r.2).1 = Some (User.id user).
Proof.
  intros Hn Ha Hover Heq r. subst r.
  rewrite (authenticate_ok w _ _ ref user) by done.
  cbn [fst snd self sys ticks Nat.add Nat.pred]. intros Hfresh.
  eexists. split; [done|].
  unfold validate_session. run. cbn [active_sessions set_active_sessions].
  rewrite lookup_insert_eq. run.
  rewrite bool_decide_false; [done|]. cbn. lia.
Qed.

End AuthFacts.

#[local] Existing Instance Examples.platform.

Lemma create_user_fails_iff_duplicate_witness :
  let r := create_user "alice" "a@x.com" "secret" VIEWER "" "" [] Examples.no_user in
  let r' := create_user "Alice" "other@x.com" "other" VIEWER "" "" [] r.2 in
  r'.1 = None ∧ users (self r'.2) = users (self r.2).
Proof.
  apply (proj2 create_user_fails_iff_duplicate Examples.no_user).
  vm_compute. by eexists.
Defined.

Lemma lockout_after_max_failed_attempts_witness :
  let r := map_M (authenticate "alice") Examples.wrong_passwords Examples.manager in
  Forall (λ o, o = None) r.1
  ∧ (∃ user', get_user_by_username (self r.2) "alice" = Some (0%nat, user')
              ∧ User.locked_until user' = Some 905000000).
Proof.
  pose proof (lockout_after_max_failed_attempts Examples.manager "alice" "u-1" 0
                Examples.alice Examples.wrong_passwords "secret") as Hthm.
  cbv zeta in Hthm. destruct Hthm as (Hnone & Hlock & _).
  - reflexivity.
  - reflexivity.
  - reflexivity.
  - reflexivity.
  - intros lu n Hlu. vm_compute in Hlu. discriminate Hlu.
  - vm_compute. lia.
  - reflexivity.
  - repeat constructor; vm_compute; discriminate.
  - reflexivity.
  - split; [exact Hnone|exact Hlock].
Defined.

Lemma authenticate_then_validate_session_witness :
  ∃ session_id,
    (authenticate "alice" "secret" Examples.manager).1 = Some session_id
    ∧ (validate_session session_id (authenticate "alice" "secret" Examples.manager).2).1
      = Some "u-1".
Proof.
  apply (authenticate_then_validate_session Examples.manager "alice" "secret" 0
           Examples.alice).
  - reflexivity.
  - reflexivity.
  - intros lu Hlu. vm_compute in Hlu. discriminate Hlu.
  - reflexivity.
  - vm_compute. discriminate.
Defined.

(** The sixth attempt, with the right password and the name in upper case,
    is made one second after the lock was set: it fails too. *)
Example sixth_attempt_is_locked_out :
  (map_M (authenticate "ALICE") (Examples.wrong_passwords ++ ["secret"])
     Examples.manager).1
  = [None; None; None; None; None; None].
Proof. reflexivity. Qed.

Example login_then_logout :
  let r := authenticate "alice" "secret" Examples.manager in
  r.1 = Some "uuid-0"
  ∧ (logout "uuid-0" r.2).1 = true
  ∧ (validate_session "uuid-0" (logout "uuid-0" r.2).2).1 = None.
Proof. repeat split; reflexivity. Qed.

End AuthSpec.

(** ** Batch execution engine *)

Module BatchSpec.
Import Batch.

Lemma fmap_alter_same {A B} (g : A → B) (f : A → A) i (l : list A) :
  (∀ x, g (f x) = g x) → g <$> alter f i l = g <$> l.
Proof.
  intros Hg. revert i. induction l as [|x l IH]; intros [|i]; cbn; try done.
  - by rewrite Hg.
  - by rewrite IH.
Qed.

Section BatchFacts.
Context {PF : Platform} {PS : Type}.
Implicit Types (f : Processor PS) (w : World (Run PS)) (j : BatchJob.t).

Lemma process_item_spec f i w item :
  BatchJob.items (job (self w)) !! i = Some item →
  let j := job (self w) in
  let r := (f (BatchItem.data item) (BatchJob.batch_type j) (pstate (self w))).1 in
  let w' := (process_item f i w).2 in
  let j' := job (self w') in
  pstate (self w') = (f (BatchItem.data item) (BatchJob.batch_type j) (pstate (self w))).2
  ∧ BatchJob.processed_items j' = BatchJob.processed_items j + 1
  ∧ BatchJob.successful_items j'
    = BatchJob.successful_items j + (if succeeded r then 1 else 0)
  ∧ BatchJob.failed_items j' = BatchJob.failed_items j + (if succeeded r then 0 else 1)
  ∧ BatchJob.total_items j' = BatchJob.total_items j
  ∧ BatchJob.batch_type j' = BatchJob.batch_type j
  ∧ BatchJob.status j' = BatchJob.status j
  ∧ datas j' = datas j
  ∧ BatchItem.status <$> BatchJob.items j' !! i
    = Some (if succeeded r then "Completed" else "Failed").
Proof.
  intros Hi. cbv zeta. unfold process_item. run. rewrite Hi.
  unfold call_processor. run.
  destruct (f _ _ _) as [[[]|] ps] eqn:E; unfold update_item, update_job; run; cbn;
    unfold datas; cbn; rewrite ?fmap_alter_same by done;
    rewrite ?list_lookup_alter_eq, ?Hi, ?Z.add_0_r; done.
Qed.

Lemma successes_cons r rs :
  successes (r :: rs) = (if succeeded r then 1 else 0) + successes rs.
Proof.
  unfold successes. rewrite filter_cons.
  destruct (succeeded r); [rewrite decide_True by done|rewrite decide_False by done];
    cbn [length]; lia.
Qed.

Lemma failures_cons r rs :
  failures (r :: rs) = (if succeeded r then 0 else 1) + failures rs.
Proof.
  unfold failures. rewrite filter_cons.
  destruct (succeeded r); [rewrite decide_False by done|rewrite decide_True by done];
    cbn [length]; lia.
Qed.

Lemma successes_failures rs : successes rs + failures rs = Z.of_nat (length rs).
Proof.
  induction rs as [|r rs IH]; [done|].
  rewrite successes_cons, failures_cons. cbn [length]. destruct (succeeded r); lia.
Qed.

Lemma length_results_of f bt ds ps : length (results_of f bt ds ps) = length ds.
Proof.
  revert ps. induction ds as [|d ds IH]; intros ps; cbn; [done|].
  destruct (f d bt ps). cbn. by rewrite IH.
Qed.

Lemma for_each_app {W A} (body : A → State W unit) (l1 l2 : list A) (w : W) :
  for_each (l1 ++ l2) body w = for_each l2 body (for_each l1 body w).2.
Proof.
  revert w. induction l1 as [|x l1 IH]; intros w; cbn [for_each app]; run; [done|].
  destruct (body x w) as [[] w1]. by rewrite IH.
Qed.

(** The loop over the items at the places [a], ..., [a + k - 1] *)
Lemma process_items_spec f k : ∀ a w,
  (a + k ≤ length (BatchJob.items (job (self w))))%nat →
  let j := job (self w) in
  let ds := take k (drop a (datas j)) in
  let rs := results_of f (BatchJob.batch_type j) ds (pstate (self w)) in
  let w' := (for_each (seq a k) (process_item f) w).2 in
  let j' := job (self w') in
  pstate (self w') = pstate_after f (BatchJob.batch_type j) ds (pstate (self w))
  ∧ BatchJob.processed_items j' = BatchJob.processed_items j + Z.of_nat k
  ∧ BatchJob.successful_items j' = BatchJob.successful_items j + successes rs
  ∧ BatchJob.failed_items j' = BatchJob.failed_items j + failures rs
  ∧ BatchJob.total_items j' = BatchJob.total_items j
  ∧ BatchJob.batch_type j' = BatchJob.batch_type j
  ∧ BatchJob.status j' = BatchJob.status j
  ∧ datas j' = datas j.
Proof.
  induction k as [|k IH]; intros a w Hle; cbv zeta.
  - cbn. rewrite take_0. cbn. unfold successes, failures. cbn.
    rewrite !Z.add_0_r. done.
  - cbn [seq for_each]. run.
    destruct (lookup_lt_is_Some_2 (BatchJob.items (job (self w))) a) as [item Hi]; [lia|].
    pose proof (process_item_spec f a w item Hi) as Hstep. cbv zeta in Hstep.
    destruct (process_item f a w) as [[] w1]. cbn [snd] in Hstep.
    destruct Hstep as (Hps & Hp & Hs & Hf & Ht & Hbt & Hst & Hd & _).
    specialize (IH (S a) w1). cbv zeta in IH.
    destruct IH as (IHps & IHp & IHs & IHf & IHt & IHbt & IHst & IHd).
    { unfold datas in Hd. apply (f_equal length) in Hd. rewrite !length_fmap in Hd. lia. }
    rewrite IHps, IHp, IHs, IHf, IHt, IHbt, IHst, IHd, Hps, Hp, Hs, Hf, Ht, Hbt, Hst, Hd.
    assert (drop a (datas (job (self w)))
            = BatchItem.data item :: drop (S a) (datas (job (self w)))) as ->.
    { apply drop_S. unfold datas. by rewrite list_lookup_fmap, Hi. }
    cbn [take results_of pstate_after].
    destruct (f (BatchItem.data item) _ _) as [r ps1]. cbn [fst snd].
    rewrite successes_cons, failures_cons.
    repeat (split; [done || lia|]). done.
Qed.

Lemma process_batch_upto_all f w :
  process_batch (Some f) w
  = finish_batch (process_batch_upto f (length (BatchJob.items (job (self w)))) w).2.
Proof.
  unfold process_batch, process_batch_upto. run.
  rewrite firstn_all2 by (by rewrite length_seq).
  destruct (begin_batch w) as [[] w1].
  by destruct (for_each _ _ w1) as [[] w2].
Qed.

Lemma process_batch_upto_spec f n w :
  let j := job (self w) in
  let m := (n `min` length (BatchJob.items j))%nat in
  let rs := results_of f (BatchJob.batch_type j) (take m (datas j)) (pstate (self w)) in
  let j' := job (self (process_batch_upto f n w).2) in
  BatchJob.processed_items j' = BatchJob.processed_items j + Z.of_nat m
  ∧ BatchJob.successful_items j' = BatchJob.successful_items j + successes rs
  ∧ BatchJob.failed_items j' = BatchJob.failed_items j + failures rs
  ∧ BatchJob.total_items j' = BatchJob.total_items j
  ∧ BatchJob.status j' = PROCESSING.
Proof.
  cbv zeta. unfold process_batch_upto. run.
  set (N := length (BatchJob.items (job (self w)))).
  assert (take n (seq 0 N) = seq 0 (n `min` N)) as ->.
  { destruct (decide (n ≤ N)%nat).
    - rewrite Nat.min_l by done. by rewrite take_seq, Nat.min_l.
    - rewrite Nat.min_r by lia. apply firstn_all2. rewrite length_seq. lia. }
  unfold begin_batch, update_job. run.
  set (w1 := {| self := _; sys := _ |}).
  pose proof (process_items_spec f (n `min` N) 0 w1) as Hloop. cbv zeta in Hloop.
  destruct Hloop as (_ & Hp & Hs & Hf & Ht & _ & Hst & _); [subst w1 N; cbn; lia|].
  rewrite drop_0 in Hs, Hf.
  by rewrite Hp, Hs, Hf, Ht, Hst.
Qed.


Lemma successes_nonneg rs : 0 ≤ successes rs.
Proof. unfold successes. lia. Qed.

Lemma failures_nonneg rs : 0 ≤ failures rs.
Proof. unfold failures. lia. Qed.

Lemma finish_batch_spec w :
  let j := job (self w) in
  let j' := job (self (finish_batch w).2) in
  BatchJob.processed_items j' = BatchJob.processed_items j
  ∧ BatchJob.successful_items j' = BatchJob.successful_items j
  ∧ BatchJob.failed_items j' = BatchJob.failed_items j
  ∧ BatchJob.total_items j' = BatchJob.total_items j
  ∧ BatchJob.status j'
    = (if bool_decide (BatchJob.failed_items j = 0) then COMPLETED
       else if bool_decide (BatchJob.successful_items j = 0) then FAILED
       else PARTIALLY_COMPLETED).
Proof.
  cbv zeta. unfold finish_batch, update_job. run.
  repeat case_bool_decide; run; done.
Qed.



(** C3. For a job of [N] items made by [BatchJob.__init__] and run to its end
    by [process_batch], with [k] the number of items the callback fails:
    the status stays [PROCESSING] as long as the loop runs and is set after
    it, to [COMPLETED] if [failed_items = 0], else to [FAILED] if
    [successful_items = 0] (then there were items), else to
    [PARTIALLY_COMPLETED]; at the end [processed_items = N],
    [failed_items = k] and [successful_items = N - k]; in particular
    [0 < k < N] gives [PARTIALLY_COMPLETED]. *)
Theorem batch_terminal_status {O} (w0 : World O) (name : string)
    (batch_type : BatchType) (items : list BatchItem.t) (description : string)
    (f : Processor PS) (ps : PS) (s : Sys) :
  let job0 := (BatchJob.init name batch_type items description w0).1 in
  let N := Z.of_nat (length items) in
  let k := failures (results_of f batch_type (BatchItem.data <$> items) ps) in
  let after := job (self (process_batch (Some f) (start_run job0 ps s)).2) in
  (∀ n, BatchJob.status
          (job (self (process_batch_upto f n (start_run job0 ps s)).2)) = PROCESSING)
  ∧ BatchJob.processed_items after = N
  ∧ BatchJob.failed_items after = k
  ∧ BatchJob.successful_items after = N - k
  ∧ BatchJob.status after
    = (if bool_decide (BatchJob.failed_items after = 0) then COMPLETED
       else if bool_decide (BatchJob.successful_items after = 0) then FAILED
       else PARTIALLY_COMPLETED)
  ∧ (BatchJob.status after = FAILED → 0 < N)
  ∧ (0 < k < N → BatchJob.status after = PARTIALLY_COMPLETED).
Proof.
  cbv zeta. unfold BatchJob.init. run.
  set (job0 := BatchJob.Build_t _ _ _ _ _ _ _ _ _ _ _ _ _ _).
  split.
  { intros n. pose proof (process_batch_upto_spec f n (start_run job0 ps s)) as Hspec.
    cbv zeta in Hspec. apply Hspec. }
  rewrite process_batch_upto_all.
  pose proof (finish_batch_spec
    (process_batch_upto f (length (BatchJob.items (job (self (start_run job0 ps s)))))
       (start_run job0 ps s)).2) as Hfin.
  cbv zeta in Hfin. destruct Hfin as (-> & -> & -> & _ & ->).
  pose proof (process_batch_upto_spec f (length items) (start_run job0 ps s)) as Hspec.
  cbv zeta in Hspec. destruct Hspec as (Hp & Hs & Hf & _ & _).
  change (BatchJob.items (job (self (start_run job0 ps s)))) with items in *.
  rewrite Nat.min_id in *. unfold datas in *. cbn in Hp, Hs, Hf.
  rewrite firstn_all2 in Hs, Hf by (by rewrite length_fmap).
  rewrite Hp, Hs, Hf.
  set (rs := results_of f batch_type (BatchItem.data <$> items) ps).
  pose proof (successes_failures rs) as Hsum.
  pose proof (successes_nonneg rs). pose proof (failures_nonneg rs).
  subst rs. rewrite length_results_of, length_fmap in Hsum.
  split; [done|]. split; [done|]. split; [lia|]. split; [done|].
  split; repeat case_bool_decide; try done; lia.
Qed.

End BatchFacts.

Section CsvFacts.
Context {PF : Platform}.

Lemma BatchItem_init_eq {O} (d : list (string * option string)) (w : World O) :
  BatchItem.init d w
  = ({| BatchItem.id := entropy (draws (sys w)); BatchItem.data := d;
        BatchItem.status := "Pending"; BatchItem.error_message := None;
        BatchItem.processed_at := None |},
     {| self := self w;
        sys := {| ticks := ticks (sys w); draws := S (draws (sys w)) |} |}).
Proof. done. Qed.

Lemma map_M_BatchItem_init {O} (ds : list (list (string * option string))) (w : World O) :
  let r := map_M BatchItem.init ds w in
  BatchItem.data <$> r.1 = ds
  ∧ Forall (λ item, BatchItem.status item = "Pending") r.1
  ∧ self r.2 = self w.
Proof.
  revert w. induction ds as [|d ds IH]; intros w; cbn [map_M]; run; [done|].
  rewrite BatchItem_init_eq.
  set (w1 := {| self := self w; sys := _ |}).
  specialize (IH w1). cbv zeta in IH.
  destruct (map_M BatchItem.init ds w1) as [its w2]. cbn in *.
  destruct IH as (-> & ? & Hs). split; [done|]. split; [by constructor|done].
Qed.

Lemma create_batch_job_spec name batch_type ds description (w : World BatchManager) :
  let r := create_batch_job name batch_type ds description w in
  ∃ job, get_batch_job (self r.2) r.1 = Some job
         ∧ BatchItem.data <$> BatchJob.items job = ds
         ∧ Forall (λ item, BatchItem.status item = "Pending") (BatchJob.items job)
         ∧ BatchJob.total_items job = Z.of_nat (length ds)
         ∧ BatchJob.status job = PENDING.
Proof.
  cbv zeta. unfold create_batch_job. run.
  pose proof (map_M_BatchItem_init ds w) as Hitems. cbv zeta in Hitems.
  destruct (map_M BatchItem.init ds w) as [its w1]. cbn [fst snd] in Hitems.
  destruct Hitems as (Hd & Hst & Hself).
  unfold BatchJob.init. run. unfold get_batch_job. cbn [batch_jobs BatchJob.id].
  rewrite lookup_insert_eq. eexists. split; [done|]. cbn.
  split; [done|]. split; [done|]. split; [|done].
  by rewrite <- Hd, length_fmap.
Qed.

(** keys of dictionaries *)
Lemma dict_find_None {V} k (d : list (string * V)) :
  dict_find k d = None ↔ k ∉ dict_keys d.
Proof.
  unfold dict_find, dict_keys. rewrite list_find_None, list.Forall_forall, list_elem_of_fmap.
  split.
  - intros Hall ([k' v] & -> & Hin). by apply (Hall _ Hin).
  - intros Hnot [k' v] Hin <-. apply Hnot. by exists (k', v).
Qed.

Lemma dict_keys_set {V} k (v : V) d :
  dict_keys (dict_set k v d)
  = if bool_decide (k ∈ dict_keys d) then dict_keys d else dict_keys d ++ [k].
Proof.
  unfold dict_set. destruct (dict_find k d) as [[i kv]|] eqn:E.
  - rewrite bool_decide_true.
    2:{ destruct (decide (k ∈ dict_keys d)) as [|Hn]; [done|].
        apply dict_find_None in Hn. congruence. }
    unfold dict_find in E. apply list_find_Some in E as (Hl & Hk & _).
    unfold dict_keys. rewrite list_fmap_insert. cbn.
    apply list_insert_id. rewrite list_lookup_fmap, Hl. cbn. by rewrite Hk.
  - apply dict_find_None in E. rewrite bool_decide_false by done.
    unfold dict_keys. by rewrite fmap_app.
Qed.

Lemma elem_of_dict_keys_set {V} k k' (v : V) d :
  k' ∈ dict_keys (dict_set k v d) ↔ k' = k ∨ k' ∈ dict_keys d.
Proof.
  rewrite dict_keys_set. case_bool_decide as Hk.
  - split; [by right|]. by intros [->|].
  - rewrite elem_of_app, list_elem_of_singleton. tauto.
Qed.

Lemma NoDup_dict_keys_set {V} k (v : V) d :
  NoDup (dict_keys d) → NoDup (dict_keys (dict_set k v d)).
Proof.
  intros Hnd. rewrite dict_keys_set. case_bool_decide; [done|].
  apply list.NoDup_app. split; [done|]. split; [|apply NoDup_singleton].
  intros x Hx ->%list_elem_of_singleton. done.
Qed.

Lemma dict_set_fresh {V} k (v : V) d :
  k ∉ dict_keys d → dict_set k v d = d ++ [(k, v)].
Proof. intros Hn%dict_find_None. unfold dict_set. by rewrite Hn. Qed.


Lemma dict_keys_foldl_set {V} (l : list (string * V)) : ∀ d k,
  k ∈ dict_keys (foldl (λ d kv, dict_set kv.1 kv.2 d) d l)
  ↔ k ∈ dict_keys d ∨ k ∈ l.*1.
Proof.
  induction l as [|[k' v] l IH]; intros d k; cbn [foldl fmap list_fmap].
  - rewrite elem_of_nil. tauto.
  - rewrite IH, elem_of_dict_keys_set, elem_of_cons. cbn. tauto.
Qed.

Lemma NoDup_dict_keys_foldl_set {V} (l : list (string * V)) : ∀ d,
  NoDup (dict_keys d) → NoDup (dict_keys (foldl (λ d kv, dict_set kv.1 kv.2 d) d l)).
Proof.
  induction l as [|[k' v] l IH]; intros d Hd; cbn [foldl]; [done|].
  by apply IH, NoDup_dict_keys_set.
Qed.

Lemma dict_keys_foldl_pad {V} (v : V) (ks : list string) : ∀ d k,
  k ∈ dict_keys (foldl (λ d key, dict_set key v d) d ks) ↔ k ∈ dict_keys d ∨ k ∈ ks.
Proof.
  induction ks as [|k' ks IH]; intros d k; cbn [foldl].
  - rewrite elem_of_nil. tauto.
  - rewrite IH, elem_of_dict_keys_set, elem_of_cons. tauto.
Qed.

Lemma NoDup_dict_keys_foldl_pad {V} (v : V) (ks : list string) : ∀ d,
  NoDup (dict_keys d) → NoDup (dict_keys (foldl (λ d key, dict_set key v d) d ks)).
Proof.
  induction ks as [|k' ks IH]; intros d Hd; cbn [foldl]; [done|].
  by apply IH, NoDup_dict_keys_set.
Qed.

Lemma fst_zip_take {A B} (l : list A) (k : list B) : (zip l k).*1 = take (length k) l.
Proof.
  revert k. induction l as [|x l IH]; intros [|y k]; cbn; try done.
  by rewrite IH.
Qed.

(** A row that is not longer than the header: the dict has the field names
    as keys. *)
Lemma DictReader_row_short fieldnames row :
  (length row ≤ length fieldnames)%nat →
  (DictReader_row fieldnames row).2 = None
  ∧ NoDup (dict_keys (DictReader_row fieldnames row).1)
  ∧ ∀ k, k ∈ dict_keys (DictReader_row fieldnames row).1 ↔ k ∈ fieldnames.
Proof.
  intros Hle. unfold DictReader_row. rewrite bool_decide_false by lia. cbn [fst snd].
  split; [done|]. split.
  - apply NoDup_dict_keys_foldl_pad, NoDup_dict_keys_foldl_set. constructor.
  - intros k. rewrite dict_keys_foldl_pad. unfold dict_of_zip.
    rewrite dict_keys_foldl_set, fst_zip_take, length_fmap.
    unfold dict_keys at 1. cbn. rewrite elem_of_nil.
    rewrite <- (take_drop (length row) fieldnames) at 3.
    rewrite elem_of_app. tauto.
Qed.

Lemma DictReader_row_long fieldnames row :
  (length fieldnames < length row)%nat → is_Some (DictReader_row fieldnames row).2.
Proof. intros Hlt. unfold DictReader_row. by rewrite bool_decide_true. Qed.

Lemma import_fold (l : list (string * option string)) : ∀ acc,
  NoDup (dict_keys acc ++ dict_keys l) →
  foldl (λ d kv, if negb (special_prefix kv.1) then dict_set kv.1 kv.2 d else d) acc l
  = acc ++ filter (λ kv, special_prefix kv.1 = false) l.
Proof.
  induction l as [|[k v] l IH]; intros acc Hnd; cbn [foldl].
  - by rewrite filter_nil, app_nil_r.
  - rewrite filter_cons. cbn [fst snd]. unfold dict_keys in Hnd. cbn in Hnd.
    destruct (special_prefix k) eqn:Ek; cbn [negb].
    + rewrite decide_False by done. apply IH.
      apply list.NoDup_app in Hnd as (? & Hdisj & Hl%list.NoDup_cons).
      apply list.NoDup_app. split; [done|]. split; [|apply Hl].
      intros x Hx Hx'. apply (Hdisj x Hx). by right.
    + rewrite decide_True by done.
      apply list.NoDup_app in Hnd as (Hacc & Hdisj & [Hk Hl]%list.NoDup_cons).
      rewrite dict_set_fresh.
      2:{ intros Hin. apply (Hdisj k Hin). by left. }
      rewrite IH; [by rewrite <- app_assoc|].
      unfold dict_keys. rewrite fmap_app. cbn.
      apply list.NoDup_app. split; [|split; [|done]].
      * apply list.NoDup_app. split; [done|]. split; [|apply NoDup_singleton].
        intros x Hx ->%list_elem_of_singleton. apply (Hdisj k Hx). by left.
      * intros x [Hx| ->%list_elem_of_singleton]%elem_of_app Hx'; [|done].
        apply (Hdisj x Hx). by right.
Qed.

Lemma import_row_short fieldnames row :
  (length row ≤ length fieldnames)%nat →
  import_row (DictReader_row fieldnames row)
  = Some (filter (λ kv, special_prefix kv.1 = false) (DictReader_row fieldnames row).1).
Proof.
  intros Hle. destruct (DictReader_row_short fieldnames row Hle) as (Hnone & Hnd & _).
  unfold import_row. rewrite Hnone. f_equal.
  rewrite import_fold; [done|]. by cbn.
Qed.

Lemma import_row_long fieldnames row :
  (length fieldnames < length row)%nat →
  import_row (DictReader_row fieldnames row) = None.
Proof.
  intros [x Hx]%DictReader_row_long. unfold import_row. by rewrite Hx.
Qed.

Lemma dict_keys_filter {V} (P : string → Prop) `{∀ k, Decision (P k)}
    (d : list (string * V)) k :
  k ∈ dict_keys (filter (λ kv, P kv.1) d) ↔ k ∈ dict_keys d ∧ P k.
Proof.
  unfold dict_keys. rewrite !list_elem_of_fmap. split.
  - intros ([k' v] & -> & [? ?]%list_elem_of_filter). split; [by exists (k', v)|done].
  - intros [([k' v] & -> & ?) ?]. exists (k', v). split; [done|].
    by apply list_elem_of_filter.
Qed.


Lemma mapM_import_rows fieldnames (rows : list (list string)) : ∀ payloads,
  mapM import_row (DictReader_row fieldnames <$> rows) = Some payloads →
  payloads = kept <$> (DictReader_row fieldnames <$> rows)
  ∧ Forall (λ row, length row ≤ length fieldnames)%nat rows.
Proof.
  induction rows as [|row rows IH]; intros payloads Hm.
  - cbn in Hm. by injection Hm as <-.
  - rewrite fmap_cons in Hm. apply mapM_Some in Hm.
    inversion Hm as [|? y ? ys Hrow Hrest]; subst.
    apply mapM_Some in Hrest. destruct (IH _ Hrest) as [-> Hall].
    destruct (decide (length row ≤ length fieldnames)%nat) as [Hle|Hgt].
    + rewrite import_row_short in Hrow by done. injection Hrow as <-.
      split; [done|by constructor].
    + rewrite import_row_long in Hrow by lia. done.
Qed.

Lemma mapM_import_rows_short fieldnames (rows : list (list string)) :
  Forall (λ row, length row ≤ length fieldnames)%nat rows →
  mapM import_row (DictReader_row fieldnames <$> rows)
  = Some (kept <$> (DictReader_row fieldnames <$> rows)).
Proof.
  intros Hall. apply mapM_Some. induction Hall as [|row rows Hle _ IH]; cbn.
  - constructor.
  - constructor; [by apply import_row_short|done].
Qed.

Lemma import_batch_from_csv_spec file batch_type name description
    (w : World BatchManager) payloads :
  mapM import_row (DictReader file) = Some payloads →
  let r := import_batch_from_csv file batch_type name description w in
  ∃ job_id job,
    r.1 = Some job_id
    ∧ get_batch_job (self r.2) job_id = Some job
    ∧ BatchItem.data <$> BatchJob.items job = payloads
    ∧ Forall (λ item, BatchItem.status item = "Pending") (BatchJob.items job)
    ∧ BatchJob.total_items job = Z.of_nat (length payloads).
Proof.
  intros Hm. cbv zeta. unfold import_batch_from_csv. rewrite Hm. run.
  set (named := match name with Some n => _ | None => _ end).
  destruct (named w) as [name' w1].
  pose proof (create_batch_job_spec name' batch_type payloads description w1) as Hc.
  cbv zeta in Hc. destruct Hc as (job & Hget & Hd & Hst & Ht & _).
  destruct (create_batch_job _ _ _ _ w1) as [job_id w2]. cbn [fst snd] in *.
  by exists job_id, job.
Qed.

Lemma import_batch_from_csv_None file batch_type name description
    (w : World BatchManager) :
  mapM import_row (DictReader file) = None →
  (import_batch_from_csv file batch_type name description w).1 = None.
Proof. intros Hm. unfold import_batch_from_csv. by rewrite Hm. Qed.

(** C10. In a job imported from a CSV file, the payload of each item is the
    row without the fields whose header starts with ["id"], ["status"],
    ["error"] or ["processed"]: its keys are exactly the other headers of
    the file, under their own names. So the data columns ["identifier"] and
    ["status_code"] are dropped, and a column written with the prefix
    ["data_"] keeps it. *)
Theorem import_excludes_special_columns :
  (∀ (w : World BatchManager) file batch_type name description job_id,
     let r := import_batch_from_csv file batch_type name description w in
     r.1 = Some job_id →
     ∃ job, get_batch_job (self r.2) job_id = Some job
       ∧ BatchItem.data <$> BatchJob.items job
         = (λ row, filter (λ kv, special_prefix kv.1 = false) row.1) <$> DictReader file
       ∧ ∀ item key, item ∈ BatchJob.items job →
           key ∈ dict_keys (BatchItem.data item)
           ↔ key ∈ default [] (head file) ∧ special_prefix key = false)
  ∧ (∀ key, special_prefix key = true
            ↔ startswith key "id" = true ∨ startswith key "status" = true
              ∨ startswith key "error" = true ∨ startswith key "processed" = true)
  ∧ special_prefix "identifier" = true
  ∧ special_prefix "status_code" = true
  ∧ (∀ key, special_prefix ("data_" +:+ key) = false).
Proof.
  split; [|split; [|split; [done|split; [done|done]]]].
  - intros w file batch_type name description job_id r Hr.
    destruct (mapM import_row (DictReader file)) as [payloads|] eqn:Hm.
    2:{ subst r. by rewrite import_batch_from_csv_None in Hr. }
    destruct (import_batch_from_csv_spec file batch_type name description w payloads Hm)
      as (job_id' & job & Hid & Hget & Hd & _ & _).
    fold r in Hid, Hget. rewrite Hid in Hr. injection Hr as ->.
    exists job. split; [done|].
    destruct file as [|fieldnames rows].
    { cbn in Hm. injection Hm as <-. split; [done|].
      intros item key Hin. destruct (BatchJob.items job); [|done].
      by apply elem_of_nil in Hin. }
    cbn [DictReader] in *.
    destruct (mapM_import_rows _ _ _ Hm) as [-> Hall].
    split; [done|]. intros item key Hin. cbn [head default].
    assert (BatchItem.data item ∈ BatchItem.data <$> BatchJob.items job) as Hdin.
    { apply list_elem_of_fmap. by exists item. }
    rewrite Hd in Hdin.
    apply list_elem_of_fmap in Hdin as (rd & -> & Hrd).
    apply list_elem_of_fmap in Hrd as (row & -> & Hrow).
    unfold kept.
    pose proof (dict_keys_filter (λ k, special_prefix k = false)
                  (DictReader_row fieldnames row).1 key) as Hf.
    cbn beta in Hf. rewrite Hf. clear Hf.
    rewrite list.Forall_forall in Hall.
    assert (length row ≤ length fieldnames)%nat as Hle.
    { by apply Hall. }
    destruct (DictReader_row_short fieldnames row Hle) as (_ & _ & Hkeys).
    by rewrite Hkeys.
  - intros key. unfold special_prefix. rewrite !orb_true_iff. tauto.
Qed.


Lemma DictWriter_writerow_length fieldnames row cells :
  DictWriter_writerow fieldnames row = Some cells → length cells = length fieldnames.
Proof.
  unfold DictWriter_writerow. case_bool_decide; [|done].
  intros [= <-]. by rewrite length_fmap.
Qed.

Lemma export_rows_spec headers (items : list BatchItem.t) : ∀ file0 file,
  export_rows headers items file0 = (true, file) →
  ∃ rows, file = file0 ++ rows ∧ length rows = length items
          ∧ Forall (λ row, length row = length headers) rows.
Proof.
  induction items as [|item items IH]; intros file0 file Hex; cbn [export_rows] in Hex.
  - injection Hex as <-. exists []. by rewrite app_nil_r.
  - destruct (DictWriter_writerow headers (export_row item)) as [row|] eqn:Hrow; [|done].
    apply IH in Hex as (rows & -> & Hlen & Hall).
    exists (row :: rows). rewrite <- app_assoc. split; [done|]. cbn [length].
    split; [by rewrite Hlen|]. constructor; [|done].
    by eapply DictWriter_writerow_length.
Qed.

Lemma status_all_pending (items items' : list BatchItem.t) :
  length items' = length items →
  Forall (λ item, BatchItem.status item = "Pending") items' →
  BatchItem.status <$> items' = BatchItem.status <$> items
  ↔ Forall (λ item, BatchItem.status item = "Pending") items.
Proof.
  intros Hlen Hall. revert items Hlen.
  induction Hall as [|item' items' Hp _ IH]; intros [|item items] Hlen; try done.
  cbn [fmap list_fmap]. injection Hlen as Hlen. specialize (IH items Hlen).
  rewrite list.Forall_cons, <- IH, Hp. split.
  - by intros [= <- ?].
  - by intros [<- ->].
Qed.

(** C7, amended. When [_export_to_csv] succeeds on a job, importing the file
    it wrote with [import_batch_from_csv] yields a job with as many items as
    the original, all of them with the status ["Pending"]; the statuses of
    the items are those of the original exactly when every item of the
    original is ["Pending"]. *)
Theorem csv_export_import_round_trip
    (batch_job : BatchJob.t) (file : list (list string)) (w : World BatchManager)
    (batch_type : BatchType) (name : option string) (description : string) :
  _export_to_csv batch_job = (true, file) →
  let r := import_batch_from_csv file batch_type name description w in
  ∃ job_id job',
    r.1 = Some job_id
    ∧ get_batch_job (self r.2) job_id = Some job'
    ∧ length (BatchJob.items job') = length (BatchJob.items batch_job)
    ∧ BatchJob.total_items job' = Z.of_nat (length (BatchJob.items batch_job))
    ∧ Forall (λ item, BatchItem.status item = "Pending") (BatchJob.items job')
    ∧ (BatchItem.status <$> BatchJob.items job' = BatchItem.status <$> BatchJob.items batch_job
       ↔ Forall (λ item, BatchItem.status item = "Pending") (BatchJob.items batch_job)).
Proof.
  intros Hex. unfold _export_to_csv in Hex.
  apply export_rows_spec in Hex as (rows & -> & Hlen & Hall).
  set (headers := export_headers batch_job) in *.
  assert (4 ≤ length headers)%nat as Hh.
  { subst headers. unfold export_headers. rewrite length_app. cbn. lia. }
  assert (filter (λ row : list string, row ≠ []) rows = rows) as Hfilter.
  { clear Hlen. induction Hall as [|row rows Hrow _ IH]; [done|].
    rewrite filter_cons, decide_True, IH; [done|].
    intros ->. cbn in Hrow. lia. }
  assert (mapM import_row (DictReader ([headers] ++ rows))
          = Some (kept <$> (DictReader_row headers <$> rows))) as Hm.
  { cbn [app DictReader]. rewrite Hfilter. apply mapM_import_rows_short.
    eapply list.Forall_impl; [exact Hall|]. intros row Hrow. cbn beta in *. lia. }
  cbv zeta.
  destruct (import_batch_from_csv_spec _ batch_type name description w _ Hm)
    as (job_id & job' & Hid & Hget & Hd & Hst & Ht).
  exists job_id, job'.
  assert (length (BatchJob.items job') = length (BatchJob.items batch_job)) as Hlen'.
  { apply (f_equal length) in Hd. rewrite !length_fmap in Hd. lia. }
  split; [done|]. split; [done|]. split; [done|]. split.
  { rewrite Ht, !length_fmap. by rewrite Hlen. }
  split; [done|]. by apply status_all_pending.
Qed.

End CsvFacts.

#[local] Existing Instance Examples.platform.

Lemma batch_terminal_status_witness :
  let job0 := (BatchJob.init "payments" PAYMENT Examples.three_payments ""
                 {| self := (); sys := Examples.start |}).1 in
  let after :=
    job (self (process_batch (Some Examples.fails_second)
                 (start_run job0 0%nat Examples.start)).2) in
  BatchJob.status after = PARTIALLY_COMPLETED
  ∧ BatchJob.processed_items after = 3
  ∧ BatchJob.failed_items after = 1
  ∧ BatchJob.successful_items after = 2.
Proof.
  pose proof (batch_terminal_status {| self := (); sys := Examples.start |} "payments"
                PAYMENT Examples.three_payments "" Examples.fails_second 0%nat
                Examples.start) as Hthm.
  cbv zeta in Hthm. destruct Hthm as (_ & Hp & Hf & Hs & _ & _ & Hpart).
  split; [|split; [|split]].
  - apply Hpart. vm_compute. split; reflexivity.
  - rewrite Hp. reflexivity.
  - rewrite Hf. reflexivity.
  - rewrite Hs. reflexivity.
Defined.

Lemma import_excludes_special_columns_witness :
  let r := import_batch_from_csv Examples.csv_file PAYMENT None "" Examples.no_job in
  ∃ job, get_batch_job (self r.2) "uuid-1" = Some job
         ∧ BatchItem.data <$> BatchJob.items job
           = [[("data_amount", Some "10"); ("name", Some "bob")]].
Proof.
  destruct (proj1 import_excludes_special_columns Examples.no_job Examples.csv_file
              PAYMENT None "" "uuid-1") as (job & Hget & Hdata & _).
  - reflexivity.
  - exists job. split; [exact Hget|]. rewrite Hdata. reflexivity.
Defined.

Lemma csv_export_import_round_trip_witness :
  let file := (_export_to_csv Examples.pending_job).2 in
  let r := import_batch_from_csv file PAYMENT None "" Examples.no_job in
  ∃ job_id job',
    r.1 = Some job_id
    ∧ get_batch_job (self r.2) job_id = Some job'
    ∧ length (BatchJob.items job') = 1%nat
    ∧ Forall (λ item, BatchItem.status item = "Pending") (BatchJob.items job').
Proof.
  destruct (csv_export_import_round_trip Examples.pending_job
              (_export_to_csv Examples.pending_job).2 Examples.no_job PAYMENT None "")
    as (job_id & job' & Hid & Hget & Hlen & _ & Hpending & _).
  - reflexivity.
  - exists job_id, job'. split; [exact Hid|]. split; [exact Hget|].
    split; [exact Hlen|exact Hpending].
Defined.

(** The round trip through a CSV file does not keep the status of an item
    that has been processed: the item of [Examples.completed_job] is
    ["Completed"], the one imported from the file written for it is
    ["Pending"]. *)
Lemma csv_round_trip_loses_status :
  ¬ (∀ (batch_job : BatchJob.t) (file : list (list string)) (w : World BatchManager)
       (batch_type : BatchType) (name : option string) (description : string),
       _export_to_csv batch_job = (true, file) →
       let r := import_batch_from_csv file batch_type name description w in
       ∃ job_id job',
         r.1 = Some job_id
         ∧ get_batch_job (self r.2) job_id = Some job'
         ∧ length (BatchJob.items job') = length (BatchJob.items batch_job)
         ∧ BatchItem.status <$> BatchJob.items job'
           = BatchItem.status <$> BatchJob.items batch_job).
Proof.
  intros Hclaim.
  destruct (Hclaim Examples.completed_job (_export_to_csv Examples.completed_job).2
              Examples.no_job PAYMENT None "" eq_refl)
    as (job_id & job' & Hid & Hget & _ & Hstatus).
  vm_compute in Hid. injection Hid as <-.
  vm_compute in Hget. injection Hget as <-.
  vm_compute in Hstatus. discriminate Hstatus.
Qed.

(** The second of three payments is declined *)
Example statuses_after_processing :
  let after :=
    job (self (process_batch (Some Examples.fails_second)
                 (start_run (Examples.job_of Examples.three_payments) 0%nat
                    Examples.start)).2) in
  (λ item, (BatchItem.status item, BatchItem.error_message item)) <$> BatchJob.items after
  = [("Completed", None); ("Failed", Some "declined"); ("Completed", None)].
Proof. reflexivity. Qed.

Example no_processor_fails_the_job :
  let after :=
    job (self (process_batch (PS := unit) None
                 (start_run (Examples.job_of Examples.three_payments) ()
                    Examples.start)).2) in
  BatchJob.status after = FAILED ∧ BatchJob.processed_items after = 0.
Proof. split; reflexivity. Qed.

Example exported_file :
  _export_to_csv Examples.completed_job
  = (true,
     [["id"; "status"; "error_message"; "processed_at"; "data_amount"];
      ["i-1"; "Completed"; ""; ""; "10"]]).
Proof. reflexivity. Qed.

(** A header met twice, a blank row, a short row and a long one *)
Example DictReader_rows :
  DictReader [["a"; "b"; "a"]; ["1"; "2"; "3"]; []; ["4"]; ["5"; "6"; "7"; "8"]]
  = [([("a", Some "3"); ("b", Some "2")], None);
     ([("a", None); ("b", None)], None);
     ([("a", Some "7"); ("b", Some "6")], Some ["8"])].
Proof. reflexivity. Qed.

Example long_row_aborts_the_import :
  (import_batch_from_csv [["name"]; ["bob"; "extra"]] PAYMENT None "" Examples.no_job).1
  = None.
Proof. reflexivity. Qed.

End BatchSpec.

(** ** Fraud rule engine *)

Module FraudSpec.
Import Fraud.



Section FraudFacts.
Context {PF : Platform}.

Lemma Qclt_plus_cent (x : Qc) : (x < x + cent)%Qc.
Proof.
  rewrite <- (Qcplus_0_r x) at 1. apply Qcplus_lt_mono_l. done.
Qed.

(** C9. The amount-threshold rule does not trigger on an amount equal to the
    threshold, and triggers with [MEDIUM] on an amount one cent above it, as
    on any amount above it. *)
Theorem amount_threshold_boundary (threshold amount : Qc)
    (transaction : gmap string PyVal) :
  default (VNum (Q2Qc 0)) (transaction !! "amount") = VNum amount →
  (amount = threshold →
   AmountThresholdRule_evaluate threshold transaction = Return (false, LOW, ""))
  ∧ (amount = (threshold + cent)%Qc →
     ∃ message,
       AmountThresholdRule_evaluate threshold transaction = Return (true, MEDIUM, message))
  ∧ ((threshold < amount)%Qc →
     ∃ message,
       AmountThresholdRule_evaluate threshold transaction = Return (true, MEDIUM, message))
  ∧ ((amount ≤ threshold)%Qc →
     AmountThresholdRule_evaluate threshold transaction = Return (false, LOW, ""))
  ∧ (∀ w : World unit,
       FraudDetectionRule.evaluate (AmountThresholdRule threshold) transaction w
       = (AmountThresholdRule_evaluate threshold transaction, w)).
Proof.
  intros Ha. unfold AmountThresholdRule_evaluate. rewrite Ha.
  assert ((threshold < amount)%Qc → ∃ message,
    (if bool_decide (threshold < amount)%Qc
     then Return (true, MEDIUM,
                  "Transaction amount ($" +:+ str_of_num amount
                  +:+ ") exceeds threshold ($" +:+ str_of_num threshold +:+ ")")
     else Return (false, LOW, "")) = Return (true, MEDIUM, message)) as Hgt.
  { intros Hlt. rewrite bool_decide_true by done. by eexists. }
  assert ((amount ≤ threshold)%Qc →
    (if bool_decide (threshold < amount)%Qc
     then Return (true, MEDIUM,
                  "Transaction amount ($" +:+ str_of_num amount
                  +:+ ") exceeds threshold ($" +:+ str_of_num threshold +:+ ")")
     else Return (false, LOW, "")) = Return (false, LOW, "")) as Hle.
  { intros Hle. rewrite bool_decide_false; [done|]. by apply Qcle_not_lt. }
  split; [|split; [|split; [|split]]].
  - intros ->. apply Hle, Qcle_refl.
  - intros ->. apply Hgt, Qclt_plus_cent.
  - exact Hgt.
  - exact Hle.
  - intros w. cbn. unfold AmountThresholdRule_evaluate. by rewrite Ha.
Qed.







(** ** The engine *)

Lemma evaluate_rules_spec transaction (todo : list FraudDetectionRule.t) :
  ∀ (done : list FraudDetectionRule.t) acc s,
    ∃ highest_risk,
      evaluate_rules transaction (seq (length done) (length todo)) acc
        {| self := {| rules := done ++ todo |}; sys := s |}
      = ((acc.1 ++ omap triggered (outcomes todo transaction s), highest_risk),
         {| self := {| rules := done ++ evaluated todo transaction s |};
            sys := sys_after todo transaction s |}).
Proof.
  induction todo as [|rule todo IH]; intros done [results highest] s.
  - cbn. exists highest. by rewrite !app_nil_r.
  - cbn [length seq evaluate_rules outcomes evaluated sys_after]. run.
    unfold evaluate_rule at 1. cbn [self rules sys].
    rewrite list_lookup_middle by done.
    destruct (call_evaluate rule transaction s) as [[r rule'] s'] eqn:Hcall.
    rewrite insert_app_r_alt, Nat.sub_diag by done. cbn [insert list_insert].
    assert (FraudDetectionRule.name rule' = FraudDetectionRule.name rule) as Hname.
    { unfold call_evaluate in Hcall.
      destruct (FraudDetectionRule.evaluate rule transaction _) as [r0 w0].
      by injection Hcall as _ <- _. }
    specialize (IH (done ++ [rule'])).
    rewrite length_app in IH. cbn [length] in IH.
    replace (length done + 1)%nat with (S (length done)) in IH by lia.
    setoid_rewrite <- app_assoc in IH. cbn [app] in IH.
    destruct r as [[[[] risk_level] message]|exc]; cbn [omap triggered fst snd].
    + destruct (IH (results ++ [{| rule_name := FraudDetectionRule.name rule;
                                   risk_level := risk_level; message := message |}],
                    if bool_decide (FraudRiskLevel_value highest
                                    < FraudRiskLevel_value risk_level)
                    then risk_level else highest) s') as [h ->].
      exists h. cbn [fst]. by rewrite <- app_assoc.
    + destruct (IH (results, highest) s') as [h ->]. by exists h.
    + destruct (IH (results, highest) s') as [h ->]. by exists h.
Qed.


Lemma outcomes_app (l1 l2 : list FraudDetectionRule.t) transaction : ∀ s,
  outcomes (l1 ++ l2) transaction s
  = outcomes l1 transaction s ++ outcomes l2 transaction (sys_after l1 transaction s).
Proof.
  induction l1 as [|rule l1 IH]; intros s; [done|].
  cbn [app outcomes sys_after].
  destruct (call_evaluate rule transaction s) as [[r rule'] s']. by rewrite IH.
Qed.

Lemma length_outcomes (rs : list FraudDetectionRule.t) transaction : ∀ s,
  length (outcomes rs transaction s) = length rs.
Proof.
  induction rs as [|rule rs IH]; intros s; [done|]. cbn [outcomes].
  destruct (call_evaluate rule transaction s) as [[r rule'] s']. cbn. by rewrite IH.
Qed.

(** C8. [evaluate_transaction] evaluates every rule, once and in the order of
    registration, and returns the entries [rule_name], [risk_level],
    [message] of the rules that triggered, in that order; it does not raise.
    A rule whose [evaluate] raises adds no entry, and the rules after it are
    evaluated as they are after any other rule. *)
Theorem evaluate_transaction_isolates_faults
    (w : World FraudDetectionEngine) (transaction : gmap string PyVal) :
  let r := evaluate_transaction transaction w in
  r.1 = omap triggered (outcomes (rules (self w)) transaction (sys w))
  ∧ rules (self r.2) = evaluated (rules (self w)) transaction (sys w)
  ∧ length (outcomes (rules (self w)) transaction (sys w)) = length (rules (self w))
  ∧ ∀ before faulty after exc,
      rules (self w) = before ++ faulty :: after →
      (call_evaluate faulty transaction (sys_after before transaction (sys w))).1.1
      = Raise exc →
      r.1 = omap triggered (outcomes before transaction (sys w))
            ++ omap triggered
                 (outcomes after transaction
                    (sys_after (before ++ [faulty]) transaction (sys w))).
Proof.
  cbv zeta. unfold evaluate_transaction. run.
  destruct (evaluate_rules_spec transaction (rules (self w)) [] ([], LOW) (sys w))
    as [h Hloop].
  cbn [length app fst] in Hloop.
  destruct w as [[rs] s]. cbn [self sys rules] in *. rewrite Hloop. cbn [fst snd self rules].
  split; [done|]. split; [done|]. split; [apply length_outcomes|].
  intros before faulty after exc -> Hraise.
  rewrite outcomes_app, omap_app. f_equal.
  cbn [outcomes].
  assert (sys_after (before ++ [faulty]) transaction s
          = (call_evaluate faulty transaction (sys_after before transaction s)).2) as ->.
  { clear. revert s. induction before as [|rule before IH]; intros s.
    - cbn. by destruct (call_evaluate faulty transaction s) as [[? ?] ?].
    - cbn [app sys_after]. destruct (call_evaluate rule transaction s) as [[? ?] s'].
      apply IH. }
  destruct (call_evaluate faulty _ _) as [[r rule'] s']. cbn in Hraise. subst r.
  done.
Qed.

End FraudFacts.

#[local] Existing Instance Examples.platform.

Lemma amount_threshold_boundary_witness :
  AmountThresholdRule_evaluate (Q2Qc 1000) (Examples.tx_amount (Q2Qc 1000))
  = Return (false, LOW, "")
  ∧ ∃ message,
      AmountThresholdRule_evaluate (Q2Qc 1000) (Examples.tx_amount (Q2Qc 1000 + cent)%Qc)
      = Return (true, MEDIUM, message).
Proof.
  split.
  - apply (amount_threshold_boundary (Q2Qc 1000) (Q2Qc 1000)
             (Examples.tx_amount (Q2Qc 1000))); reflexivity.
  - apply (amount_threshold_boundary (Q2Qc 1000) (Q2Qc 1000 + cent)%Qc
             (Examples.tx_amount (Q2Qc 1000 + cent)%Qc)); reflexivity.
Defined.


Lemma evaluate_transaction_isolates_faults_witness :
  rule_name <$> (evaluate_transaction (Examples.tx_amount (Q2Qc 2000))
                   Examples.faulty_engine).1
  = ["Amount Threshold"].
Proof.
  rewrite (proj2 (proj2 (proj2 (evaluate_transaction_isolates_faults
             Examples.faulty_engine (Examples.tx_amount (Q2Qc 2000)))))
             [] (FraudDetectionRule.base "Broken" "always raises")
             [AmountThresholdRule (Q2Qc 1000)] "NotImplementedError");
    reflexivity.
Defined.

(** The default rules on a large payment from abroad to a suspicious merchant *)
Example default_rules_flag :
  rule_name <$>
    (evaluate_transaction
       {["amount" := VNum (Q2Qc 2000); "country" := VStr "ru";
         "merchant" := VStr "Test-Merchant Inc"]}
       {| self := init; sys := Examples.start |}).1
  = ["Amount Threshold"; "Geographic Anomaly"; "Pattern Matching"].
Proof. reflexivity. Qed.

(** An amount that is no number and a country that is [None] make the first
    two default rules raise; the last one still sees the description. *)
Example default_rules_survive_faults :
  (evaluate_transaction
     {["amount" := VStr "abc"; "country" := VNone;
       "description" := VStr "a DUMMY order"]}
     {| self := init; sys := Examples.start |}).1
  = [{| rule_name := "Pattern Matching"; risk_level := MEDIUM;
        message := "Suspicious keywords in description: a dummy order" |}].
Proof. reflexivity. Qed.

(** A timestamp that is no [datetime] stays in the history of the card, and
    every later evaluation for that card raises. *)
Example bad_timestamp_poisons_history :
  (map_M (VelocityCheckRule_evaluate 3 (5 * 60 * 1000000))
     [{["card_id" := VStr "card-1"; "timestamp" := VStr "now"]}; Examples.tx_card 0]
     {| self := ∅; sys := Examples.start |}).1
  = [Raise "TypeError"; Raise "TypeError"].
Proof. reflexivity. Qed.

End FraudSpec.

(** * Further properties *)

(** ** Accounts and sessions *)

Module AccountSpec.
Import Auth AuthSpec.

Section SessionFacts.
Context {PF : Platform}.

Lemma validate_session_eq (w : World AuthManager) session_id :
  validate_session session_id w
  = match active_sessions (self w) !! session_id with
    | None => (None, w)
    | Some session =>
      if bool_decide (expires_at session < clock (ticks (sys w)))
      then (None, {| self := set_active_sessions
                               (delete session_id (active_sessions (self w))) (self w);
                     sys := tick 1 (sys w) |})
      else (Some (user_id session), {| self := self w; sys := tick 1 (sys w) |})
    end.
Proof.
  unfold validate_session. run.
  destruct (active_sessions (self w) !! session_id); run; [|done].
  by case_bool_decide.
Qed.

(** X1. [logout] returns [True] exactly when the session id is in
    [active_sessions]. It then removes that session, and no other: from then
    on [validate_session] returns [None] for the id, at any time. It never
    touches the users or the clock, and when it returns [False] nothing has
    changed. *)
Theorem logout_ends_session (w : World AuthManager) (session_id : string) :
  let r := logout session_id w in
  (r.1 = true ↔ is_Some (active_sessions (self w) !! session_id))
  ∧ (r.1 = false → r.2 = w)
  ∧ (∀ s, (validate_session session_id {| self := self r.2; sys := s |}).1 = None)
  ∧ (∀ other, other ≠ session_id →
       active_sessions (self r.2) !! other = active_sessions (self w) !! other)
  ∧ users (self r.2) = users (self w)
  ∧ sys r.2 = sys w.
Proof.
  cbv zeta. unfold logout. run.
  destruct (active_sessions (self w) !! session_id) as [session|] eqn:E; run.
  - split; [by split; [eexists|]|]. split; [done|].
    split; [|split; [|done]].
    + intros s. rewrite validate_session_eq. cbn [self active_sessions set_active_sessions].
      by rewrite lookup_delete_eq.
    + intros other Hne. cbn [active_sessions set_active_sessions].
      by rewrite lookup_delete_ne.
  - split; [split; [done|by intros [? ?]]|]. split; [by destruct w|].
    split; [|done]. intros s. rewrite validate_session_eq. cbn [self]. by rewrite E.
Qed.

(** X2. [validate_session] on a session that is in [active_sessions]: when
    the clock reads no more than [expires_at], it returns the user id of the
    session and changes nothing in the manager; when the clock reads more, it
    returns [None] and removes the session, and that session only, so that
    every later validation of the id returns [None] too. *)
Theorem validate_session_expiry (w : World AuthManager) (session_id : string)
    (session : Session) :
  active_sessions (self w) !! session_id = Some session →
  let r := validate_session session_id w in
  let now := clock (ticks (sys w)) in
  (now ≤ expires_at session → r.1 = Some (user_id session) ∧ self r.2 = self w)
  ∧ (expires_at session < now →
     r.1 = None
     ∧ active_sessions (self r.2) = delete session_id (active_sessions (self w))
     ∧ users (self r.2) = users (self w)
     ∧ ∀ s, (validate_session session_id {| self := self r.2; sys := s |}).1 = None).
Proof.
  intros Hs. cbv zeta. rewrite (validate_session_eq w), Hs.
  split; intros Hnow.
  - rewrite bool_decide_false by lia. done.
  - rewrite bool_decide_true by done. cbn [fst snd self]. split; [done|]. split; [done|].
    split; [done|]. intros s. rewrite validate_session_eq.
    cbn [self active_sessions set_active_sessions]. by rewrite lookup_delete_eq.
Qed.

End SessionFacts.

Section AccountFacts.
Context {PF : Platform}.

(** The sessions left by the revocation of those of [user_id0] *)
Lemma lookup_revoked (m : gmap string Session) user_id0 session_id session :
  filter (λ kv, user_id kv.2 ≠ user_id0) m !! session_id = Some session
  ↔ m !! session_id = Some session ∧ user_id session ≠ user_id0.
Proof. by rewrite map_lookup_filter_Some. Qed.

Lemma lock_user_found (w : World AuthManager) user_id0 duration ref user :
  get_user (self w) user_id0 = Some (ref, user) →
  0 ≤ clock (ticks (sys w)) + lock_duration_of (self w) duration ≤ datetime_max →
  lock_user user_id0 duration w
  = (Returns true,
     {| self := set_active_sessions
                  (filter (λ kv, user_id kv.2 ≠ user_id0) (active_sessions (self w)))
                  (put_user ref
                     (User.set_updated_at (clock (S (ticks (sys w))))
                        (User.set_locked_until
                           (Some (clock (ticks (sys w))
                                  + lock_duration_of (self w) duration)) user))
                     (self w));
        sys := tick 2 (sys w) |}).
Proof.
  intros Hk Hrange. unfold lock_user. run. rewrite Hk.
  fold (lock_duration_of (self w) duration). unfold add_timedelta.
  rewrite bool_decide_true by done. by unfold write_user, revoke_sessions.
Qed.

Lemma lock_user_overflow (w : World AuthManager) user_id0 duration ref user :
  get_user (self w) user_id0 = Some (ref, user) →
  ¬ (0 ≤ clock (ticks (sys w)) + lock_duration_of (self w) duration ≤ datetime_max) →
  lock_user user_id0 duration w
  = (OverflowError, {| self := self w; sys := tick 1 (sys w) |}).
Proof.
  intros Hk Hrange. unfold lock_user. run. rewrite Hk.
  fold (lock_duration_of (self w) duration). unfold add_timedelta.
  by rewrite bool_decide_false.
Qed.

(** X3. [lock_user] on a known, active user, when the time read plus the
    duration given (the manager's [lockout_duration] when none, or a zero
    one, is given) is a [datetime]: it returns [True], sets [locked_until]
    to that time, leaves the count of failed attempts as it is, and removes
    the sessions of that user and no others; as long as the clock reads less
    than [locked_until], [authenticate] refuses the user whatever the
    password, and changes nothing. When that time is no [datetime], the call
    raises [OverflowError]: the clock has been read once, and the user, who
    is not locked by it, and the sessions are as they were. *)
Theorem lock_user_locks_and_revokes (w : World AuthManager) (username user_id0 : string)
    (duration : option Z) (ref : nat) (user : User.t) :
  get_user_by_username (self w) username = Some (ref, user) →
  get_user (self w) user_id0 = Some (ref, user) →
  User.active user = true →
  let r := lock_user user_id0 duration w in
  let lock_duration :=
    match duration with
    | Some d => if bool_decide (d = 0) then lockout_duration (self w) else d
    | None => lockout_duration (self w)
    end in
  let locked_until := clock (ticks (sys w)) + lock_duration in
  (0 ≤ locked_until ≤ datetime_max →
   r.1 = Returns true
   ∧ (∃ user', get_user (self r.2) user_id0 = Some (ref, user')
               ∧ User.locked_until user' = Some locked_until
               ∧ User.failed_login_attempts user' = User.failed_login_attempts user)
   ∧ (∀ session_id session,
        active_sessions (self r.2) !! session_id = Some session
        ↔ active_sessions (self w) !! session_id = Some session
          ∧ user_id session ≠ user_id0)
   ∧ (∀ (w' : World AuthManager) password, self w' = self r.2 →
        clock (ticks (sys w')) < locked_until →
        authenticate username password w'
        = (None, {| self := self w'; sys := tick 1 (sys w') |})))
  ∧ (¬ (0 ≤ locked_until ≤ datetime_max) →
     r = (OverflowError, {| self := self w; sys := tick 1 (sys w) |})).
Proof.
  intros Hn Hk Ha. cbv zeta. fold (lock_duration_of (self w) duration). split.
  - intros Hrange. rewrite (lock_user_found w _ _ ref user) by done.
    cbn [fst snd self]. set (user' := User.set_updated_at _ _).
    assert (account_at (put_user ref user' (self w)) username user_id0 ref user')
      as [Hn' Hk'].
    { by apply (account_at_put _ _ _ _ user). }
    split; [done|]. split; [by exists user'|]. split.
    + intros session_id session.
      cbn [active_sessions set_active_sessions put_user set_users].
      apply lookup_revoked.
    + intros w' password Hself Hlt.
      eapply (authenticate_locked w' _ _ ref user'); [by rewrite Hself|done|done|done].
  - intros Hrange. by apply (lock_user_overflow w _ _ ref user).
Qed.

Lemma lock_user_unknown (w : World AuthManager) (user_id0 : string) (duration : option Z) :
  get_user (self w) user_id0 = None → lock_user user_id0 duration w = (Returns false, w).
Proof. intros Hk. unfold lock_user. run. rewrite Hk. by destruct w. Qed.


(** X4. The count of failed attempts is not reset when a lock runs out:
    for an active user whose lock is over and whose count is one short of the
    threshold or more, a single wrong password is counted and locks the
    account again, for [lockout_duration] from the time read. *)
Theorem wrong_password_after_lock_expiry_relocks (w : World AuthManager)
    (username password : string) (ref : nat) (user : User.t) (lu : Z) :
  get_user_by_username (self w) username = Some (ref, user) →
  User.active user = true →
  User.locked_until user = Some lu →
  lu ≤ clock (ticks (sys w)) →
  max_failed_attempts (self w) ≤ User.failed_login_attempts user + 1 →
  _hash_password password (User.salt user) ≠ User.password_hash user →
  let r := authenticate username password w in
  r.1 = None
  ∧ ∃ user', get_user_by_username (self r.2) username = Some (ref, user')
             ∧ User.locked_until user'
               = Some (clock (2 + ticks (sys w)) + lockout_duration (self w))
             ∧ User.failed_login_attempts user' = User.failed_login_attempts user + 1.
Proof.
  intros Hn Ha Hl Hlu Hmax Hne. cbv zeta.
  unfold authenticate. run. rewrite Hn, Ha. cbn [negb].
  rewrite (is_locked_Some _ lu) by done. run.
  rewrite bool_decide_false by lia. rewrite bool_decide_true by done.
  cbn [User.failed_login_attempts User.set_updated_at User.set_failed_login_attempts].
  rewrite bool_decide_true by done. unfold write_user. run.
  split; [done|]. eexists. split.
  - unfold get_user_by_username. cbn [users set_users].
    rewrite fmap_snd_alter_pair.
    eapply list_find_insert_same; [exact Hn|].
    apply list_find_Some in Hn as (_ & HP & _). exact HP.
  - done.
Qed.

(** X5. A successful [authenticate] sets [failed_login_attempts] to 0
    and [last_login] to the time read, and leaves [locked_until] as it is.
    Wrong passwords after it, fewer than [max_failed_attempts] of them, are
    all refused, are counted from 0, and do not lock the account: the right
    password is accepted again after them. *)
Theorem login_resets_failed_attempts (w : World AuthManager)
    (username user_id0 password : string) (ref : nat) (user : User.t)
    (wrong : list string) :
  get_user_by_username (self w) username = Some (ref, user) →
  get_user (self w) user_id0 = Some (ref, user) →
  User.active user = true →
  (∀ lu n, User.locked_until user = Some lu → (ticks (sys w) ≤ n)%nat → lu ≤ clock n) →
  _hash_password password (User.salt user) = User.password_hash user →
  Forall (λ p, _hash_password p (User.salt user) ≠ User.password_hash user) wrong →
  Z.of_nat (length wrong) < max_failed_attempts (self w) →
  let r := authenticate username password w in
  let r' := map_M (authenticate username) wrong r.2 in
  is_Some r.1
  ∧ (∃ user', get_user_by_username (self r.2) username = Some (ref, user')
              ∧ User.failed_login_attempts user' = 0
              ∧ User.last_login user' = Some (clock (ticks (sys (after_is_locked user w))))
              ∧ User.locked_until user' = User.locked_until user)
  ∧ Forall (λ o, o = None) r'.1
  ∧ (∃ user'', get_user_by_username (self r'.2) username = Some (ref, user'')
               ∧ User.failed_login_attempts user'' = Z.of_nat (length wrong)
               ∧ User.locked_until user'' = User.locked_until user)
  ∧ is_Some (authenticate username password r'.2).1.
Proof.
  intros Hn Hk Ha Hover Heq Hwrong Hlt. cbv zeta.
  rewrite (authenticate_ok w _ _ ref user); [|done|done| |done].
  2:{ intros lu E. by apply (Hover lu). }
  cbn [fst snd]. set (s := sys (after_is_locked user w)).
  set (user1 := login_user user s).
  set (w1 := {| self := _; sys := _ |}).
  assert (account_at (self w1) username user_id0 ref user1) as Hacc1.
  { subst w1. cbn [self]. destruct (account_at_put (self w) username user_id0 ref user user1)
      as [? ?]; [done|done|]. by split. }
  assert (ticks (sys w) ≤ ticks (sys w1))%nat as Hticks.
  { subst w1 s. cbn. pose proof (after_is_locked_ticks user w). lia. }
  split; [by eexists|]. split; [exists user1; split; [apply Hacc1|done]|].
  destruct (wrong_attempts_below_threshold username user_id0 ref wrong w1 user1)
    as (Hnone & Hcfg & Ht & user2 & Hacc2 & Hsame & Hcount).
  { done. }
  { done. }
  { intros lu n E Hle. apply (Hover lu n); [done|lia]. }
  { done. }
  { subst w1 user1. unfold login_user, put_user. cbn. lia. }
  destruct Hsame as (Hid & Hname & Hsalt & Hhash & Hact & Hlock).
  split; [done|]. split.
  { exists user2. split; [apply Hacc2|]. split; [by rewrite Hcount|by rewrite Hlock]. }
  rewrite (authenticate_ok _ _ _ ref user2); [by eexists|apply Hacc2|by rewrite Hact| |].
  - intros lu E. rewrite Hlock in E. apply (Hover lu); [done|lia].
  - by rewrite Hsalt, Hhash.
Qed.


(** X6. [change_password] on a known user: when the current password given
    does not hash to the stored hash, it returns [False] and changes nothing.
    When it does, it returns [True], draws a new salt and stores the hash of
    the new password under it; sessions, failed attempts and lock are left
    as they are, and the user, if active and not locked, is authenticated
    with the new password. *)
Theorem change_password_checks_current (w : World AuthManager)
    (username user_id0 current_password new_password : string) (ref : nat)
    (user : User.t) :
  get_user_by_username (self w) username = Some (ref, user) →
  get_user (self w) user_id0 = Some (ref, user) →
  let r := change_password user_id0 current_password new_password w in
  (_hash_password current_password (User.salt user) ≠ User.password_hash user →
   r = (false, w))
  ∧ (_hash_password current_password (User.salt user) = User.password_hash user →
     r.1 = true
     ∧ active_sessions (self r.2) = active_sessions (self w)
     ∧ (∃ user', get_user (self r.2) user_id0 = Some (ref, user')
                 ∧ User.salt user' = entropy (draws (sys w))
                 ∧ User.password_hash user'
                   = _hash_password new_password (entropy (draws (sys w)))
                 ∧ User.failed_login_attempts user' = User.failed_login_attempts user
                 ∧ User.locked_until user' = User.locked_until user)
     ∧ (User.active user = true →
        (∀ lu, User.locked_until user = Some lu → lu ≤ clock (ticks (sys r.2))) →
        is_Some (authenticate username new_password r.2).1)).
Proof.
  intros Hn Hk. cbv zeta. unfold change_password. run. rewrite Hk.
  split; intros Hcur.
  - rewrite bool_decide_true by done. by destruct w.
  - rewrite bool_decide_false by (by intros []). unfold write_user. run.
    set (user' := User.set_updated_at _ _).
    fold (put_user ref user' (self w)).
    destruct (account_at_put (self w) username user_id0 ref user user') as [Hn' Hk'];
      [done|done|].
    split; [done|]. split; [done|]. split; [by exists user'|].
    intros Ha Hover.
    rewrite (authenticate_ok _ _ _ ref user'); [by eexists|done|done|done|done].
Qed.

(** X7. [reset_password] on a known user returns [True] without asking
    for the current password, stores the hash of the new password under a
    new salt, sets [failed_login_attempts] to 0 and clears [locked_until];
    the sessions are kept. If the user is active, [authenticate] with the
    new password succeeds at once, whatever the lock was. *)
Theorem reset_password_unlocks (w : World AuthManager)
    (username user_id0 new_password : string) (ref : nat) (user : User.t) :
  get_user_by_username (self w) username = Some (ref, user) →
  get_user (self w) user_id0 = Some (ref, user) →
  let r := reset_password user_id0 new_password w in
  r.1 = true
  ∧ active_sessions (self r.2) = active_sessions (self w)
  ∧ (∃ user', get_user (self r.2) user_id0 = Some (ref, user')
              ∧ User.failed_login_attempts user' = 0
              ∧ User.locked_until user' = None
              ∧ User.password_hash user'
                = _hash_password new_password (User.salt user'))
  ∧ (User.active user = true →
     ∀ w' : World AuthManager, self w' = self r.2 →
       is_Some (authenticate username new_password w').1).
Proof.
  intros Hn Hk. cbv zeta. unfold reset_password. run. rewrite Hk.
  unfold write_user. run.
  set (user' := User.set_updated_at _ _).
  fold (put_user ref user' (self w)).
  destruct (account_at_put (self w) username user_id0 ref user user') as [Hn' Hk'];
    [done|done|].
  split; [done|]. split; [done|]. split; [by exists user'|].
  intros Ha w' Hself. rewrite <- Hself in Hn'.
  rewrite (authenticate_ok _ _ _ ref user'); [by eexists|done|done|done|done].
Qed.


Lemma authenticate_inactive (w : World AuthManager) username password ref user :
  get_user_by_username (self w) username = Some (ref, user) →
  User.active user = false →
  authenticate username password w = (None, w).
Proof.
  intros Hn Ha. unfold authenticate. run. rewrite Hn, Ha. by destruct w.
Qed.

Lemma authenticate_unknown (w : World AuthManager) username password :
  get_user_by_username (self w) username = None →
  authenticate username password w = (None, w).
Proof. intros Hn. unfold authenticate. run. rewrite Hn. by destruct w. Qed.

(** X8. [deactivate_user] on a known user returns [True], removes the
    sessions of that user and no others, and from then on [authenticate]
    refuses the user whatever the password, changing nothing.
    [activate_user] after it returns [True], gives back neither the
    sessions nor anything else: password, salt, failed attempts and lock are
    as they were. *)
Theorem deactivate_user_blocks_login (w : World AuthManager) (username user_id0 : string)
    (ref : nat) (user : User.t) :
  get_user_by_username (self w) username = Some (ref, user) →
  get_user (self w) user_id0 = Some (ref, user) →
  let r := deactivate_user user_id0 w in
  let r' := activate_user user_id0 r.2 in
  r.1 = true
  ∧ (∀ session_id session,
       active_sessions (self r.2) !! session_id = Some session
       ↔ active_sessions (self w) !! session_id = Some session
         ∧ user_id session ≠ user_id0)
  ∧ (∀ (w' : World AuthManager) password, self w' = self r.2 →
       authenticate username password w' = (None, w'))
  ∧ r'.1 = true
  ∧ active_sessions (self r'.2) = active_sessions (self r.2)
  ∧ ∃ user', get_user_by_username (self r'.2) username = Some (ref, user')
             ∧ User.active user' = true
             ∧ User.password_hash user' = User.password_hash user
             ∧ User.salt user' = User.salt user
             ∧ User.failed_login_attempts user' = User.failed_login_attempts user
             ∧ User.locked_until user' = User.locked_until user.
Proof.
  intros Hn Hk. cbv zeta. unfold deactivate_user. run. rewrite Hk.
  unfold write_user, revoke_sessions. run.
  set (user1 := User.set_updated_at _ _).
  fold (put_user ref user1 (self w)).
  destruct (account_at_put (self w) username user_id0 ref user user1) as [Hn1 Hk1];
    [done|done|].
  split; [done|]. split.
  { intros session_id session. cbn [active_sessions set_active_sessions].
    apply lookup_revoked. }
  split.
  { intros w' password Hself.
    apply (authenticate_inactive w' _ _ ref user1); [by rewrite Hself|done]. }
  unfold activate_user. run.
  assert (get_user (set_active_sessions
            (filter (λ kv : string * Session, user_id kv.2 ≠ user_id0)
               (active_sessions (put_user ref user1 (self w))))
            (put_user ref user1 (self w))) user_id0 = Some (ref, user1)) as -> by done.
  unfold write_user. run.
  set (user2 := User.set_updated_at _ _).
  split; [done|]. split; [done|]. exists user2. split; [|done].
  destruct (account_at_put (put_user ref user1 (self w)) username user_id0 ref user1 user2)
    as [Hn2 _]; [done|done|]. exact Hn2.
Qed.


(** What [authenticate] does to the manager: nothing, or it changes the user
    found for the name, but not the identity of that user, and adds at most
    the session it returns. *)
Lemma authenticate_effect (w : World AuthManager) username password :
  let r := authenticate username password w in
  (r.1 = None ∧ self r.2 = self w)
  ∨ ∃ ref user user',
      get_user_by_username (self w) username = Some (ref, user)
      ∧ identity user' = identity user
      ∧ ((r.1 = None ∧ self r.2 = put_user ref user' (self w))
         ∨ ∃ session_id session,
             r.1 = Some session_id
             ∧ user_id session = User.id user
             ∧ self r.2
               = set_active_sessions
                   (<[session_id := session]> (active_sessions (self w)))
                   (put_user ref user' (self w))).
Proof.
  cbv zeta. unfold authenticate. run.
  destruct (get_user_by_username (self w) username) as [[ref user]|] eqn:Hn;
    [|by left].
  destruct (User.active user) eqn:Ha; cbn [negb]; [|by left].
  unfold User.is_locked.
  destruct (User.locked_until user) as [lu|] eqn:Hl; run.
  - case_bool_decide; [by left|]. right. exists ref, user.
    case_bool_decide; unfold write_user; run.
    + case_bool_decide; run; eexists; (split; [done|]);
        (split; [|left; split; [done|unfold put_user; reflexivity]]);
        unfold identity; cbn; by rewrite Ha.
    + eexists. split; [done|].
      split; [|right; do 2 eexists; split; [done|]; split;
                 [|unfold put_user; reflexivity]; done].
      unfold identity; cbn; by rewrite Ha.
  - right. exists ref, user.
    case_bool_decide; unfold write_user; run.
    + case_bool_decide; run; eexists; (split; [done|]);
        (split; [|left; split; [done|unfold put_user; reflexivity]]);
        unfold identity; cbn; by rewrite Ha.
    + eexists. split; [done|].
      split; [|right; do 2 eexists; split; [done|]; split;
                 [|unfold put_user; reflexivity]; done].
      unfold identity; cbn; by rewrite Ha.
Qed.


(** ** The user table stays well formed *)

Lemma fmap_fst_alter_pair {K V} (l : list (K * V)) i v :
  (alter (λ kv, (kv.1, v)) i l).*1 = l.*1.
Proof.
  revert i. induction l as [|[k x] l IH]; intros [|i]; cbn; try done.
  by rewrite IH.
Qed.

Lemma elem_of_insert_inv {A} (l : list A) i x y :
  y ∈ <[i := x]> l → y = x ∨ y ∈ l.
Proof.
  intros (j & Hj)%list_elem_of_lookup.
  destruct (decide (i = j)) as [->|Hij].
  - apply list_lookup_insert_Some in Hj as [(_ & -> & _)|[? ?]]; [by left|done].
  - rewrite list_lookup_insert_ne in Hj by done.
    right. by eapply list_elem_of_lookup_2.
Qed.

Lemma NoDup_insert_fresh {A} (l : list A) i x :
  NoDup l → x ∉ l → NoDup (<[i := x]> l).
Proof.
  intros Hnd. revert i. induction Hnd as [|y l Hy Hnd IH]; intros i Hx; [constructor|].
  apply not_elem_of_cons in Hx as [Hxy Hx].
  destruct i as [|i].
  - by constructor.
  - change (NoDup (y :: <[i := x]> l)). constructor; [|by apply IH].
    intros [->|Hin]%elem_of_insert_inv; done.
Qed.

Lemma NoDup_delete {A} (l : list A) i : NoDup l → NoDup (delete i l).
Proof. intros Hnd. eapply sublist_NoDup; [exact Hnd|apply sublist_delete]. Qed.

Lemma well_formed_sessions a sessions :
  well_formed a → well_formed (set_active_sessions sessions a).
Proof. done. Qed.

Lemma well_formed_put_user a ref user user' :
  (users a).*2 !! ref = Some user →
  User.id user' = User.id user →
  User.username user' = User.username user →
  User.email user' = User.email user →
  well_formed a → well_formed (put_user ref user' a).
Proof.
  intros Href Hid Hname Hemail (Hkeys & Hids & Hnames & Hemails).
  unfold well_formed, put_user. cbn [users set_users].
  rewrite fmap_fst_alter_pair, fmap_snd_alter_pair, !list_fmap_insert.
  rewrite !list_insert_id
    by (rewrite list_lookup_fmap, Href; cbn; congruence).
  split; [done|]. split; [|done].
  rewrite list_lookup_fmap in Href.
  destruct (users a !! ref) as [[k u]|] eqn:E; [|done]. injection Href as ->.
  apply Forall_alter; [done|]. intros [k' u'] E'. rewrite E in E'. injection E' as -> ->.
  pose proof (proj1 (list.Forall_lookup _ _) Hids ref _ E) as Hk. cbn in *. congruence.
Qed.

Lemma get_user_lookup a user_id0 ref user :
  get_user a user_id0 = Some (ref, user) → (users a).*2 !! ref = Some user.
Proof.
  unfold get_user, dict_find. intros Hk.
  destruct (list_find _ (users a)) as [[i kv]|] eqn:E; [|done].
  injection Hk as -> <-. apply list_find_Some in E as (Hl & _ & _).
  by rewrite list_lookup_fmap, Hl.
Qed.

Lemma get_user_by_username_lookup a username ref user :
  get_user_by_username a username = Some (ref, user) → (users a).*2 !! ref = Some user.
Proof. unfold get_user_by_username. by intros (Hl & _ & _)%list_find_Some. Qed.

Lemma well_formed_create_user (w : World AuthManager) username email password role
    first_name last_name perms :
  well_formed (self w) →
  well_formed (self (create_user username email password role first_name last_name
                       perms w).2).
Proof.
  intros Hwf. unfold create_user. run.
  destruct (bool_decide (is_Some (get_user_by_username (self w) username))
            || bool_decide (is_Some (get_user_by_email (self w) email))) eqn:Hdup;
    run; [done|].
  apply orb_false_iff in Hdup as [Hn He].
  apply bool_decide_eq_false in Hn, He.
  rewrite <- eq_None_not_Some in Hn, He.
  unfold get_user_by_username, get_user_by_email in Hn, He.
  rewrite list_find_None, list.Forall_forall in Hn, He.
  unfold User.init. run.
  set (user := User.Build_t _ _ _ _ _ _ _ _ _ _ _ _ _ _ _).
  destruct Hwf as (Hkeys & Hids & Hnames & Hemails).
  assert (lower username ∉ (λ u, lower (User.username u)) <$> (users (self w)).*2) as Hn'.
  { intros (u & Hu & Hin)%list_elem_of_fmap. by apply (Hn u Hin). }
  assert (lower email ∉ (λ u, lower (User.email u)) <$> (users (self w)).*2) as He'.
  { intros (u & Hu & Hin)%list_elem_of_fmap. by apply (He u Hin). }
  unfold well_formed. cbn [users set_users self]. unfold dict_set.
  destruct (dict_find (User.id user) (users (self w))) as [[i kv]|] eqn:E.
  - unfold dict_find in E. apply list_find_Some in E as (Hl & Hk & _).
    rewrite !list_fmap_insert. cbn [fst snd].
    split; [|split; [|split]].
    + rewrite list_insert_id; [done|]. rewrite list_lookup_fmap, Hl. cbn. by rewrite Hk.
    + apply Forall_insert; done.
    + by apply NoDup_insert_fresh.
    + by apply NoDup_insert_fresh.
  - apply BatchSpec.dict_find_None in E. unfold dict_keys in E.
    rewrite !fmap_app. cbn [fmap list_fmap fst snd].
    split; [|split; [|split]].
    + apply list.NoDup_app. split; [done|]. split; [|apply NoDup_singleton].
      intros x Hx ->%list_elem_of_singleton. done.
    + apply list.Forall_app. split; [done|]. by constructor.
    + apply list.NoDup_app. split; [done|]. split; [|apply NoDup_singleton].
      intros x Hx ->%list_elem_of_singleton. done.
    + apply list.NoDup_app. split; [done|]. split; [|apply NoDup_singleton].
      intros x Hx ->%list_elem_of_singleton. done.
Qed.

Lemma well_formed_delete a i :
  well_formed a → well_formed (set_users (delete i (users a)) a).
Proof.
  intros (Hkeys & Hids & Hnames & Hemails). unfold well_formed. cbn [users set_users].
  rewrite !list_fmap_delete. split; [by apply NoDup_delete|].
  split; [|split; by apply NoDup_delete].
  by apply Forall_delete.
Qed.


Lemma drop_result {W A} (m : State W A) (w : W) :
  ((_ ← m; mret ()) w).2 = (m w).2.
Proof. unfold mbind, mret, State_bind, State_ret. by destruct (m w). Qed.

Lemma well_formed_call (c : Call) (w : World AuthManager) :
  well_formed (self w) → well_formed (self (call c w).2).
Proof.
  intros Hwf. destruct c; unfold call; rewrite drop_result.
  - by apply well_formed_create_user.
  - destruct (authenticate_effect w username password)
      as [[_ ->]|(ref & user & user' & Hn & Hid & [[_ ->]|(sid & ses & _ & _ & ->)])];
      [done| |]; unfold identity in Hid; injection Hid as Hi Hu He _ _ _ _;
      by apply (well_formed_put_user _ _ user); [eapply get_user_by_username_lookup|..].
  - rewrite validate_session_eq.
    destruct (active_sessions (self w) !! session_id); [|done]. by case_bool_decide.
  - unfold logout. run. by destruct (active_sessions (self w) !! session_id).
  - destruct (get_user (self w) user_id0) as [[ref user]|] eqn:Hk.
    + destruct (decide (0 ≤ clock (ticks (sys w)) + lock_duration_of (self w) duration
                        ≤ datetime_max)) as [Hrange|Hrange].
      * rewrite (lock_user_found w _ _ ref user) by done.
        by apply (well_formed_put_user _ _ user); [eapply get_user_lookup|..].
      * by rewrite (lock_user_overflow w _ _ ref user).
    + by rewrite lock_user_unknown.
  - unfold unlock_user. run.
    destruct (get_user (self w) user_id0) as [[ref user]|] eqn:Hk; [|done].
    unfold write_user. run.
    by apply (well_formed_put_user _ _ user); [eapply get_user_lookup|..].
  - unfold change_password. run.
    destruct (get_user (self w) user_id0) as [[ref user]|] eqn:Hk; [|done].
    case_bool_decide; [done|]. unfold write_user. run.
    by apply (well_formed_put_user _ _ user); [eapply get_user_lookup|..].
  - unfold reset_password. run.
    destruct (get_user (self w) user_id0) as [[ref user]|] eqn:Hk; [|done].
    unfold write_user. run.
    by apply (well_formed_put_user _ _ user); [eapply get_user_lookup|..].
  - unfold activate_user. run.
    destruct (get_user (self w) user_id0) as [[ref user]|] eqn:Hk; [|done].
    unfold write_user. run.
    by apply (well_formed_put_user _ _ user); [eapply get_user_lookup|..].
  - unfold deactivate_user. run.
    destruct (get_user (self w) user_id0) as [[ref user]|] eqn:Hk; [|done].
    unfold write_user, revoke_sessions. run.
    by apply (well_formed_put_user _ _ user); [eapply get_user_lookup|..].
  - unfold delete_user. run.
    destruct (dict_find user_id0 (users (self w))) as [[i kv]|] eqn:Hk; [|done].
    unfold revoke_sessions. run. unfold dict_del. rewrite Hk.
    by apply well_formed_delete.
Qed.

Lemma well_formed_calls (cs : list Call) : ∀ w : World AuthManager,
  well_formed (self w) → well_formed (self (for_each cs call w).2).
Proof.
  induction cs as [|c cs IH]; intros w Hwf; [done|].
  cbn [for_each]. unfold mbind, State_bind.
  pose proof (well_formed_call c w Hwf) as Hc.
  destruct (call c w) as [[] w1]. by apply IH.
Qed.

Lemma well_formed_init : well_formed init.
Proof. unfold well_formed. cbn. split; [constructor|]. split; [constructor|].
  split; constructor. Qed.

(** In a list without two elements of the same [f], the search for the [f]
    of an element finds this element *)
Lemma NoDup_fmap_lookup_eq {A B} (f : A → B) (l : list A) i j x y :
  NoDup (f <$> l) → l !! i = Some x → l !! j = Some y → f y = f x → j = i.
Proof.
  intros Hnd Hi Hj Heq. eapply NoDup_lookup; [exact Hnd| |].
  - rewrite list_lookup_fmap, Hj. cbn. by rewrite Heq.
  - by rewrite list_lookup_fmap, Hi.
Qed.

Lemma well_formed_get_user a username ref user :
  well_formed a →
  get_user_by_username a username = Some (ref, user) →
  get_user a (User.id user) = Some (ref, user).
Proof.
  intros (Hkeys & Hids & _ & _) Hn.
  apply get_user_by_username_lookup in Hn as Href.
  rewrite list_lookup_fmap in Href.
  destruct (users a !! ref) as [[k u]|] eqn:E; [|done]. injection Href as ->.
  pose proof (proj1 (list.Forall_lookup _ _) Hids ref _ E) as Hk. cbn in Hk. subst k.
  unfold get_user, dict_find.
  assert (list_find (λ kv : string * User.t, kv.1 = User.id user) (users a)
          = Some (ref, (User.id user, user))) as ->; [|done].
  apply list_find_Some. split; [done|]. split; [done|].
  intros j [k' u'] Hj Hlt Heq. cbn in Heq.
  assert (j = ref); [|lia].
  by eapply (NoDup_fmap_lookup_eq fst (users a) ref j (User.id user, user) (k', u')).
Qed.

Lemma well_formed_get_user_by_username a user_id0 ref user :
  well_formed a →
  get_user a user_id0 = Some (ref, user) →
  get_user_by_username a (User.username user) = Some (ref, user)
  ∧ get_user_by_email a (User.email user) = Some (ref, user)
  ∧ User.id user = user_id0.
Proof.
  intros (Hkeys & Hids & Hnames & Hemails) Hk.
  apply get_user_lookup in Hk as Href.
  split; [|split].
  - apply list_find_Some. split; [done|]. split; [done|].
    intros j u' Hj Hlt Heq.
    assert (j = ref); [|lia].
    by eapply (NoDup_fmap_lookup_eq (λ u, lower (User.username u)) _ ref j user u').
  - apply list_find_Some. split; [done|]. split; [done|].
    intros j u' Hj Hlt Heq.
    assert (j = ref); [|lia].
    by eapply (NoDup_fmap_lookup_eq (λ u, lower (User.email u)) _ ref j user u').
  - unfold get_user, dict_find in Hk.
    destruct (list_find _ (users a)) as [[i [k u]]|] eqn:E; [|done].
    injection Hk as -> ->. apply list_find_Some in E as (Hl & Hkey & _). cbn in Hkey.
    pose proof (proj1 (list.Forall_lookup _ _) Hids _ _ Hl) as Hk. cbn in Hk. congruence.
Qed.

(** X9. Whatever calls of [create_user], [authenticate],
    [validate_session], [logout], [lock_user], [unlock_user],
    [change_password], [reset_password], [activate_user], [deactivate_user]
    and [delete_user] are made on a new manager, the user table stays well
    formed: every user is stored under its own id, and no two users share a
    username or an email, letter case apart. So the user that
    [get_user_by_username] finds is the one [get_user] finds under its id,
    and conversely a user found by id is the one found by its username and
    by its email. *)
Theorem users_stay_well_formed (cs : list Call) (s : Sys) :
  let a := self (for_each cs call {| self := init; sys := s |}).2 in
  well_formed a
  ∧ (∀ username ref user,
       get_user_by_username a username = Some (ref, user) →
       get_user a (User.id user) = Some (ref, user))
  ∧ (∀ user_id0 ref user,
       get_user a user_id0 = Some (ref, user) →
       User.id user = user_id0
       ∧ get_user_by_username a (User.username user) = Some (ref, user)
       ∧ get_user_by_email a (User.email user) = Some (ref, user)).
Proof.
  cbv zeta.
  assert (well_formed (self (for_each cs call {| self := init; sys := s |}).2)) as Hwf.
  { apply well_formed_calls. apply well_formed_init. }
  split; [done|]. split.
  - intros username ref user. by apply well_formed_get_user.
  - intros user_id0 ref user Hk.
    by destruct (well_formed_get_user_by_username _ _ _ _ Hwf Hk) as (? & ? & ?).
Qed.


(** ** Removal of a user *)

Lemma Forall_delete_NoDup {A B} (f : A → B) (l : list A) i x :
  NoDup (f <$> l) → l !! i = Some x → Forall (λ y, f y ≠ f x) (delete i l).
Proof.
  intros Hnd Hi. apply list.Forall_lookup. intros j y Hj Heq.
  destruct (decide (j < i)%nat) as [Hlt|Hge].
  - rewrite list_lookup_delete_lt in Hj by done.
    pose proof (NoDup_fmap_lookup_eq f l i j x y Hnd Hi Hj Heq). lia.
  - rewrite list_lookup_delete_ge in Hj by lia.
    pose proof (NoDup_fmap_lookup_eq f l i (S j) x y Hnd Hi Hj Heq). lia.
Qed.

Lemma get_user_None a user_id0 :
  get_user a user_id0 = None ↔ dict_find user_id0 (users a) = None.
Proof. unfold get_user. by rewrite fmap_None. Qed.

Lemma delete_user_unknown (w : World AuthManager) user_id0 :
  get_user (self w) user_id0 = None → delete_user user_id0 w = (false, w).
Proof.
  intros Hk%get_user_None. unfold delete_user. run. rewrite Hk. by destruct w.
Qed.

Lemma delete_user_found (w : World AuthManager) user_id0 i kv :
  dict_find user_id0 (users (self w)) = Some (i, kv) →
  delete_user user_id0 w
  = (true,
     {| self := set_active_sessions
                  (filter (λ kv, user_id kv.2 ≠ user_id0) (active_sessions (self w)))
                  (set_users (delete i (users (self w))) (self w));
        sys := sys w |}).
Proof.
  intros E. unfold delete_user. run. rewrite E. unfold revoke_sessions, dict_del. run.
  by rewrite E.
Qed.

Lemma create_user_fresh (w : World AuthManager) username email password role
    first_name last_name perms :
  get_user_by_username (self w) username = None →
  get_user_by_email (self w) email = None →
  is_Some (create_user username email password role first_name last_name perms w).1.
Proof.
  intros Hn He. unfold create_user. run. rewrite Hn, He.
  rewrite !bool_decide_false by (by intros [? ?]). cbn [orb].
  unfold User.init. run. by eexists.
Qed.

(** X10. [delete_user] on a known user of a well-formed manager returns
    [True] and removes that user, and that one only, from the table, and its
    sessions, and those only, from [active_sessions]. After it, the user is
    found neither by id, nor by username, nor by email, [authenticate] under
    its username fails and changes nothing, a second [delete_user] returns
    [False], and [create_user] with the same username and email succeeds. *)
Theorem delete_user_forgets_user (w : World AuthManager) (user_id0 : string) (ref : nat)
    (user : User.t) (password : string) (role : UserRole) (first_name last_name : string)
    (perms : list Permission) :
  well_formed (self w) →
  get_user (self w) user_id0 = Some (ref, user) →
  let r := delete_user user_id0 w in
  r.1 = true
  ∧ sys r.2 = sys w
  ∧ get_all_users (self r.2) = delete ref (get_all_users (self w))
  ∧ get_user (self r.2) user_id0 = None
  ∧ get_user_by_username (self r.2) (User.username user) = None
  ∧ get_user_by_email (self r.2) (User.email user) = None
  ∧ (∀ session_id session,
       active_sessions (self r.2) !! session_id = Some session
       ↔ active_sessions (self w) !! session_id = Some session
         ∧ user_id session ≠ user_id0)
  ∧ (∀ (w' : World AuthManager) password', self w' = self r.2 →
       authenticate (User.username user) password' w' = (None, w'))
  ∧ delete_user user_id0 r.2 = (false, r.2)
  ∧ is_Some (create_user (User.username user) (User.email user) password role
               first_name last_name perms r.2).1.
Proof.
  intros Hwf Hk. cbv zeta.
  destruct (well_formed_get_user_by_username _ _ _ _ Hwf Hk) as (_ & _ & Hid).
  destruct Hwf as (Hkeys & Hids & Hnames & Hemails).
  apply get_user_lookup in Hk as Href.
  unfold get_user in Hk.
  destruct (dict_find user_id0 (users (self w))) as [[i kv]|] eqn:E; [|done].
  injection Hk as -> Hkv.
  assert (users (self w) !! ref = Some kv) as Hl.
  { unfold dict_find in E. by apply list_find_Some in E as (? & _). }
  assert (kv = (user_id0, user)) as ->.
  { destruct kv as [k u]. cbn in Hkv. subst u.
    unfold dict_find in E. apply list_find_Some in E as (_ & Hkey & _). cbn in Hkey.
    by subst k. }
  rewrite (delete_user_found w _ _ _ E). cbn [fst snd self sys].
  set (a' := set_active_sessions _ _).
  assert (users a' = delete ref (users (self w))) as Husers by done.
  assert (get_user a' user_id0 = None) as Hk'.
  { apply get_user_None. unfold dict_find. apply list_find_None. rewrite Husers.
    pose proof (Forall_delete_NoDup fst _ _ _ Hkeys Hl) as Hall.
    eapply list.Forall_impl; [exact Hall|]. by intros [k u]. }
  assert (get_user_by_username a' (User.username user) = None) as Hn'.
  { unfold get_user_by_username. apply list_find_None. rewrite Husers, list_fmap_delete.
    exact (Forall_delete_NoDup (λ u, lower (User.username u)) _ _ _ Hnames Href). }
  assert (get_user_by_email a' (User.email user) = None) as He'.
  { unfold get_user_by_email. apply list_find_None. rewrite Husers, list_fmap_delete.
    exact (Forall_delete_NoDup (λ u, lower (User.email u)) _ _ _ Hemails Href). }
  split; [done|]. split; [done|].
  split; [unfold get_all_users; by rewrite Husers, list_fmap_delete|].
  split; [done|]. split; [done|]. split; [done|].
  split; [intros session_id session; apply lookup_revoked|].
  split.
  { intros w' password' Hself. apply authenticate_unknown. by rewrite Hself. }
  split; [by apply delete_user_unknown|].
  by apply create_user_fresh.
Qed.

(** ** Unknown user ids *)

(** X11. On a user id that is not in the table, [lock_user],
    [unlock_user], [change_password], [reset_password], [activate_user],
    [deactivate_user] and [delete_user] all return [False] and change
    nothing: neither the manager, nor the readings of the clock and of the
    entropy source. *)
Theorem unknown_user_id_changes_nothing (w : World AuthManager) (user_id0 : string) :
  get_user (self w) user_id0 = None →
  (∀ duration, lock_user user_id0 duration w = (Returns false, w))
  ∧ unlock_user user_id0 w = (false, w)
  ∧ (∀ current_password new_password,
       change_password user_id0 current_password new_password w = (false, w))
  ∧ (∀ new_password, reset_password user_id0 new_password w = (false, w))
  ∧ activate_user user_id0 w = (false, w)
  ∧ deactivate_user user_id0 w = (false, w)
  ∧ delete_user user_id0 w = (false, w).
Proof.
  intros Hk.
  split; [intros; by apply lock_user_unknown|].
  split; [unfold unlock_user; run; rewrite Hk; by destruct w|].
  split; [intros; unfold change_password; run; rewrite Hk; by destruct w|].
  split; [intros; unfold reset_password; run; rewrite Hk; by destruct w|].
  split; [unfold activate_user; run; rewrite Hk; by destruct w|].
  split; [unfold deactivate_user; run; rewrite Hk; by destruct w|].
  by apply delete_user_unknown.
Qed.

(** ** What a login needs, and what it leaves alone *)

Lemma authenticate_Some_inv (w : World AuthManager) username password session_id :
  (authenticate username password w).1 = Some session_id →
  ∃ ref user,
    get_user_by_username (self w) username = Some (ref, user)
    ∧ User.active user = true
    ∧ (∀ lu, User.locked_until user = Some lu → lu ≤ clock (ticks (sys w)))
    ∧ _hash_password password (User.salt user) = User.password_hash user.
Proof.
  intros Hs. unfold authenticate in Hs. run.
  destruct (get_user_by_username (self w) username) as [[ref user]|] eqn:Hn; [|done].
  destruct (User.active user) eqn:Ha; cbn [negb] in Hs; [|done].
  exists ref, user. split; [done|]. split; [done|].
  unfold User.is_locked in Hs.
  destruct (User.locked_until user) as [lu|] eqn:Hl; run.
  - destruct (bool_decide (clock (ticks (sys w)) < lu)) eqn:Hlt; [done|].
    apply bool_decide_eq_false in Hlt.
    destruct (bool_decide (_hash_password password (User.salt user)
                           ≠ User.password_hash user)) eqn:Hne.
    + unfold write_user in Hs. run.
      by destruct (bool_decide (max_failed_attempts (self w) ≤ _)).
    + apply bool_decide_eq_false in Hne. split.
      * intros lu' [= <-]. lia.
      * by destruct (decide (_hash_password password (User.salt user)
                             = User.password_hash user)).
  - destruct (bool_decide (_hash_password password (User.salt user)
                           ≠ User.password_hash user)) eqn:Hne.
    + unfold write_user in Hs. run.
      by destruct (bool_decide (max_failed_attempts (self w) ≤ _)).
    + apply bool_decide_eq_false in Hne. split; [done|].
      by destruct (decide (_hash_password password (User.salt user)
                           = User.password_hash user)).
Qed.

(** X12. [authenticate] returns a session id only if the username is
    that of a user who is active, whose lock, if any, is over at the time
    read, and whose stored hash is the hash of the password given under the
    stored salt. The session is then in [active_sessions] under that id, it
    is a session of that user, and it expires [session_timeout] after the
    last reading of the clock. *)
Theorem session_only_for_valid_credentials (w : World AuthManager)
    (username password session_id : string) :
  let r := authenticate username password w in
  r.1 = Some session_id →
  ∃ ref user session,
    get_user_by_username (self w) username = Some (ref, user)
    ∧ User.active user = true
    ∧ (∀ lu, User.locked_until user = Some lu → lu ≤ clock (ticks (sys w)))
    ∧ _hash_password password (User.salt user) = User.password_hash user
    ∧ active_sessions (self r.2) !! session_id = Some session
    ∧ user_id session = User.id user
    ∧ expires_at session = clock (pred (ticks (sys r.2))) + session_timeout (self w).
Proof.
  cbv zeta. intros Hs.
  destruct (authenticate_Some_inv _ _ _ _ Hs) as (ref & user & Hn & Ha & Hover & Heq).
  exists ref, user, (login_session (self w) user (sys (after_is_locked user w))).
  rewrite (authenticate_ok w _ _ ref user) in Hs |- * by done.
  cbn [fst snd self sys ticks] in *. injection Hs as <-.
  split; [done|]. split; [done|]. split; [done|]. split; [done|].
  split; [|done]. cbn [active_sessions set_active_sessions]. by rewrite lookup_insert_eq.
Qed.

(** X13. What [authenticate] leaves alone, whatever its arguments and its
    result: the configuration, the keys of the user table, every user other
    than the one found for the username, and in that one the id, username,
    email, password hash, salt, role and [active] flag. When it returns
    [None] the sessions are what they were; when it returns a session id,
    that session is what has been added to them. *)
Theorem authenticate_frame (w : World AuthManager) (username password : string) :
  let r := authenticate username password w in
  same_config (self w) (self r.2)
  ∧ (users (self r.2)).*1 = (users (self w)).*1
  ∧ (∀ i u, get_all_users (self w) !! i = Some u →
       ∃ u', get_all_users (self r.2) !! i = Some u'
             ∧ identity u' = identity u
             ∧ (fst <$> get_user_by_username (self w) username ≠ Some i → u' = u))
  ∧ (r.1 = None → active_sessions (self r.2) = active_sessions (self w))
  ∧ (∀ session_id, r.1 = Some session_id →
       ∃ session,
         active_sessions (self r.2)
         = <[session_id := session]> (active_sessions (self w))).
Proof.
  cbv zeta.
  assert (∀ ref user user' a,
            get_user_by_username (self w) username = Some (ref, user) →
            identity user' = identity user →
            users a = users (put_user ref user' (self w)) →
            (users a).*1 = (users (self w)).*1
            ∧ ∀ i u, get_all_users (self w) !! i = Some u →
                ∃ u', get_all_users a !! i = Some u'
                      ∧ identity u' = identity u
                      ∧ (fst <$> get_user_by_username (self w) username ≠ Some i
                         → u' = u)) as Hput.
  { intros ref user user' a Hn Hid Ha. unfold get_all_users. rewrite Ha.
    unfold put_user. cbn [users set_users].
    rewrite fmap_fst_alter_pair, fmap_snd_alter_pair. split; [done|].
    intros i u Hi. apply get_user_by_username_lookup in Hn as Href.
    destruct (decide (i = ref)) as [->|Hne].
    - exists user'. rewrite Href in Hi. injection Hi as <-.
      split; [|split; [done|]].
      + apply list_lookup_insert_eq. by eapply lookup_lt_Some.
      + rewrite Hn. by intros [].
    - exists u. by rewrite list_lookup_insert_ne. }
  destruct (authenticate_effect w username password)
    as [[Hr Hself]|(ref & user & user' & Hn & Hid & [[Hr Hself]|(sid & ses & Hr & _ & Hself)])];
    rewrite Hr, Hself.
  - split; [done|]. split; [done|]. split; [by eauto|]. split; [done|]. done.
  - destruct (Hput ref user user' (put_user ref user' (self w))) as [Hk Hu]; [done..|].
    split; [done|]. split; [done|]. split; [done|]. split; [done|]. done.
  - destruct (Hput ref user user'
                (set_active_sessions (<[sid := ses]> (active_sessions (self w)))
                   (put_user ref user' (self w)))) as [Hk Hu]; [done..|].
    split; [done|]. split; [done|]. split; [done|]. split; [done|].
    intros session_id [= <-]. by exists ses.
Qed.

(** X14. After a successful [authenticate] on a well-formed manager,
    [get_user_by_session] on the session id returned gives the user who
    logged in, with [failed_login_attempts] at 0, provided the validation
    reads the clock no more than [session_timeout] after the reading that
    stamped the expiry, and the id of the user is not the empty text: a user
    whose id is empty is not found through a session. After [logout] of
    the session, [get_user_by_session] gives [None]. *)
Theorem get_user_by_session_after_login (w : World AuthManager)
    (username password : string) (ref : nat) (user : User.t) :
  well_formed (self w) →
  get_user_by_username (self w) username = Some (ref, user) →
  User.active user = true →
  (∀ lu, User.locked_until user = Some lu → lu ≤ clock (ticks (sys w))) →
  _hash_password password (User.salt user) = User.password_hash user →
  let r := authenticate username password w in
  clock (ticks (sys r.2)) - clock (pred (ticks (sys r.2))) ≤ session_timeout (self w) →
  ∃ session_id,
    r.1 = Some session_id
    ∧ (User.id user ≠ "" →
       ∃ user', (get_user_by_session session_id r.2).1 = Some user'
                ∧ identity user' = identity user
                ∧ User.failed_login_attempts user' = 0)
    ∧ (User.id user = "" → (get_user_by_session session_id r.2).1 = None)
    ∧ (get_user_by_session session_id (logout session_id r.2).2).1 = None.
Proof.
  intros Hwf Hn Ha Hover Heq. cbv zeta.
  pose proof (well_formed_get_user _ _ _ _ Hwf Hn) as Hk.
  rewrite (authenticate_ok w _ _ ref user) by done.
  cbn [fst snd self sys ticks]. intros Htime.
  set (s := sys (after_is_locked user w)) in *.
  set (user1 := login_user user s).
  destruct (account_at_put (self w) username (User.id user) ref user user1) as [_ Hk1];
    [done|done|].
  exists (entropy (draws s)). split; [done|].
  assert (∀ s', validate_session (entropy (draws s))
                  {| self := set_active_sessions
                               (<[entropy (draws s) := login_session (self w) user s]>
                                  (active_sessions (self w)))
                               (put_user ref user1 (self w));
                     sys := {| ticks := 4 + ticks s; draws := s' |} |}
                = (Some (User.id user),
                   {| self := set_active_sessions
                               (<[entropy (draws s) := login_session (self w) user s]>
                                  (active_sessions (self w)))
                               (put_user ref user1 (self w));
                      sys := tick 1 {| ticks := 4 + ticks s; draws := s' |} |})) as Hv.
  { intros s'. rewrite validate_session_eq.
    cbn [self sys ticks active_sessions set_active_sessions].
    rewrite lookup_insert_eq. cbn [expires_at login_session user_id].
    rewrite bool_decide_false; [done|]. cbn [Init.Nat.pred plus] in Htime.
    change (4 + ticks s)%nat with (S (S (S (S (ticks s))))). lia. }
  split; [|split].
  - intros Hne. exists user1. unfold get_user_by_session. run. rewrite Hv. run.
    rewrite bool_decide_false by done. run.
    assert (get_user (set_active_sessions
              (<[entropy (draws s) := login_session (self w) user s]>
                 (active_sessions (self w))) (put_user ref user1 (self w))) (User.id user)
            = Some (ref, user1)) as -> by done.
    split; [done|]. split; [|done]. unfold identity. by destruct user.
  - intros Hemp. unfold get_user_by_session. run. rewrite Hv. run.
    by rewrite bool_decide_true.
  - unfold logout. run. cbn [active_sessions set_active_sessions].
    rewrite lookup_insert_eq. run.
    unfold get_user_by_session. run. rewrite validate_session_eq.
    cbn [self active_sessions set_active_sessions]. by rewrite lookup_delete_eq.
Qed.

End AccountFacts.

(** ** Permissions *)

(** Membership in a list that is written out *)
Ltac is_member :=
  match goal with
  | |- ?x ∈ ?l => apply (bool_decide_unpack (x ∈ l)); vm_compute; exact I
  end.
Ltac not_member H :=
  match type of H with
  | ?x ∈ ?l => exfalso; apply (bool_decide_pack (x ∈ l)) in H; vm_compute in H; exact H
  end.

(** X15. [has_permission] holds exactly for the default permissions of
    the role of the user and for its custom permissions. So an [ADMIN] has
    every permission, every user can view the dashboard and the
    transactions, the management of users and of merchants and the system
    settings are open to an [ADMIN] and to those who hold them as custom
    permissions, and to no one else, and what a [VIEWER] may do every role
    but [CUSTOMER] may do. *)
Theorem permissions_by_role (u : User.t) (p : Permission) :
  (has_permission u p = true
   ↔ p ∈ get_permissions_for_role (User.role u) ∨ p ∈ User.custom_permissions u)
  ∧ (User.role u = ADMIN → has_permission u p = true)
  ∧ (p ∈ [VIEW_DASHBOARD; VIEW_TRANSACTIONS] → has_permission u p = true)
  ∧ (p ∈ [MANAGE_USERS; MANAGE_MERCHANTS; SYSTEM_SETTINGS] →
     has_permission u p = true ↔ User.role u = ADMIN ∨ p ∈ User.custom_permissions u)
  ∧ (p ∈ get_permissions_for_role VIEWER → User.role u ≠ CUSTOMER →
     has_permission u p = true).
Proof.
  assert (has_permission u p = true
          ↔ p ∈ get_permissions_for_role (User.role u) ∨ p ∈ User.custom_permissions u)
    as Hiff.
  { unfold has_permission, permissions. by rewrite bool_decide_eq_true, elem_of_app. }
  split; [done|]. rewrite !Hiff. unfold get_permissions_for_role.
  split; [|split; [|split]].
  - intros ->. left. destruct p; is_member.
  - intros Hp. left. destruct p; try (by not_member Hp); destruct (User.role u); is_member.
  - intros Hp. split.
    + intros [Hd|Hc]; [|by right]. left.
      destruct (User.role u); [done|..]; destruct p;
        first [by not_member Hp|by not_member Hd].
    + intros [->|Hc]; [|by right]. left. destruct p; is_member.
  - intros Hp Hne. left.
    destruct (User.role u); [..|done|]; destruct p; first [is_member|by not_member Hp].
Qed.

#[local] Existing Instance Examples.platform.

Lemma well_formed_manager : well_formed (self Examples.manager).
Proof.
  unfold well_formed. cbn.
  split; [apply NoDup_singleton|]. split; [by repeat constructor|].
  split; apply NoDup_singleton.
Qed.

Lemma validate_session_expiry_witness :
  (validate_session "uuid-0" Examples.logged_in).1 = Some "u-1"
  ∧ self (validate_session "uuid-0" Examples.logged_in).2 = self Examples.logged_in.
Proof.
  edestruct (validate_session_expiry Examples.logged_in "uuid-0") as [Hvalid _].
  - vm_compute. reflexivity.
  - apply Hvalid. vm_compute. discriminate.
Defined.

Lemma lock_user_locks_and_revokes_witness :
  (lock_user "u-1" None Examples.logged_in).1 = Returns true
  ∧ active_sessions (self (lock_user "u-1" None Examples.logged_in).2) !! "uuid-0" = None
  ∧ lock_user "u-1" (Some (datetime_max + 1)) Examples.logged_in
    = (OverflowError,
       {| self := self Examples.logged_in; sys := tick 1 (sys Examples.logged_in) |}).
Proof.
  pose proof (lock_user_locks_and_revokes Examples.logged_in "alice" "u-1" None 0
                (login_user Examples.alice Examples.start)) as Hthm.
  pose proof (lock_user_locks_and_revokes Examples.logged_in "alice" "u-1"
                (Some (datetime_max + 1)) 0
                (login_user Examples.alice Examples.start)) as Hover.
  cbv zeta in Hthm, Hover.
  destruct Hthm as [Hin _]; [reflexivity..|].
  destruct Hover as [_ Hout]; [reflexivity..|].
  destruct Hin as (Hr & _ & _ & _).
  { vm_compute. split; discriminate. }
  split; [exact Hr|]. split; [reflexivity|].
  apply Hout. vm_compute. intros [_ Hle]. by apply Hle.
Defined.

Lemma wrong_password_after_lock_expiry_relocks_witness :
  (authenticate "alice" "guess" Examples.manager_after_lock).1 = None
  ∧ ∃ user',
      get_user_by_username
        (self (authenticate "alice" "guess" Examples.manager_after_lock).2) "alice"
      = Some (0%nat, user')
      ∧ User.locked_until user' = Some 902000000
      ∧ User.failed_login_attempts user' = 6.
Proof.
  pose proof (wrong_password_after_lock_expiry_relocks Examples.manager_after_lock "alice"
                "guess" 0 Examples.was_locked 0) as Hthm.
  cbv zeta in Hthm. apply Hthm.
  - reflexivity.
  - reflexivity.
  - reflexivity.
  - vm_compute. discriminate.
  - vm_compute. discriminate.
  - vm_compute. discriminate.
Defined.

Lemma login_resets_failed_attempts_witness :
  let r := authenticate "alice" "secret" Examples.manager in
  let r' := map_M (authenticate "alice") ["a"; "b"] r.2 in
  is_Some r.1
  ∧ (∃ user'', get_user_by_username (self r'.2) "alice" = Some (0%nat, user'')
               ∧ User.failed_login_attempts user'' = 2)
  ∧ is_Some (authenticate "alice" "secret" r'.2).1.
Proof.
  pose proof (login_resets_failed_attempts Examples.manager "alice" "u-1" "secret" 0
                Examples.alice ["a"; "b"]) as Hthm.
  cbv zeta in Hthm. destruct Hthm as (Hr & _ & _ & (user'' & Hn & Hf & _) & Hagain).
  - reflexivity.
  - reflexivity.
  - reflexivity.
  - intros lu n Hlu. vm_compute in Hlu. discriminate Hlu.
  - reflexivity.
  - repeat constructor; vm_compute; discriminate.
  - vm_compute. reflexivity.
  - split; [exact Hr|]. split; [by exists user''|exact Hagain].
Defined.

Lemma change_password_checks_current_witness :
  change_password "u-1" "guess" "new" Examples.manager = (false, Examples.manager)
  ∧ (change_password "u-1" "secret" "new" Examples.manager).1 = true.
Proof.
  pose proof (change_password_checks_current Examples.manager "alice" "u-1" "guess" "new"
                0 Examples.alice eq_refl eq_refl) as Hwrong.
  pose proof (change_password_checks_current Examples.manager "alice" "u-1" "secret" "new"
                0 Examples.alice eq_refl eq_refl) as Hright.
  cbv zeta in Hwrong, Hright. split.
  - apply Hwrong. vm_compute. discriminate.
  - apply Hright. reflexivity.
Defined.

Lemma reset_password_unlocks_witness :
  let r := reset_password "u-1" "new" Examples.manager_after_lock in
  r.1 = true ∧ is_Some (authenticate "alice" "new" r.2).1.
Proof.
  pose proof (reset_password_unlocks Examples.manager_after_lock "alice" "u-1" "new" 0
                Examples.was_locked eq_refl eq_refl) as Hthm.
  cbv zeta in Hthm. destruct Hthm as (Hr & _ & _ & Hlogin).
  split; [exact Hr|]. apply Hlogin; reflexivity.
Defined.

Lemma deactivate_user_blocks_login_witness :
  let r := deactivate_user "u-1" Examples.logged_in in
  r.1 = true
  ∧ authenticate "alice" "secret" r.2 = (None, r.2)
  ∧ (activate_user "u-1" r.2).1 = true.
Proof.
  pose proof (deactivate_user_blocks_login Examples.logged_in "alice" "u-1" 0
                (login_user Examples.alice Examples.start) eq_refl eq_refl) as Hthm.
  cbv zeta in Hthm. destruct Hthm as (Hr & _ & Hblocked & Hr' & _).
  split; [exact Hr|]. split; [|exact Hr']. by apply Hblocked.
Defined.

Lemma delete_user_forgets_user_witness :
  let r := delete_user "u-1" Examples.logged_in in
  r.1 = true
  ∧ get_all_users (self r.2) = []
  ∧ get_user_by_username (self r.2) "alice" = None
  ∧ is_Some (create_user "alice" "a@x.com" "other" VIEWER "" "" [] r.2).1.
Proof.
  pose proof (delete_user_forgets_user Examples.logged_in "u-1" 0
                (login_user Examples.alice Examples.start) "other" VIEWER "" "" [])
    as Hthm.
  cbv zeta in Hthm. destruct Hthm as (Hr & _ & Hall & _ & Hn & _ & _ & _ & _ & Hcreate).
  - unfold well_formed. vm_compute. split; [apply NoDup_singleton|].
    split; [by repeat constructor|]. split; apply NoDup_singleton.
  - reflexivity.
  - split; [exact Hr|]. split; [exact Hall|]. split; [exact Hn|exact Hcreate].
Defined.

Lemma unknown_user_id_changes_nothing_witness :
  lock_user "nobody" None Examples.manager = (Returns false, Examples.manager)
  ∧ delete_user "nobody" Examples.manager = (false, Examples.manager).
Proof.
  pose proof (unknown_user_id_changes_nothing Examples.manager "nobody" eq_refl) as Hthm.
  destruct Hthm as (Hlock & _ & _ & _ & _ & _ & Hdelete).
  split; [apply Hlock|exact Hdelete].
Defined.

Lemma session_only_for_valid_credentials_witness :
  ∃ ref user session,
    get_user_by_username (self Examples.manager) "alice" = Some (ref, user)
    ∧ _hash_password "secret" (User.salt user) = User.password_hash user
    ∧ active_sessions (self (authenticate "alice" "secret" Examples.manager).2) !! "uuid-0"
      = Some session
    ∧ user_id session = User.id user.
Proof.
  pose proof (session_only_for_valid_credentials Examples.manager "alice" "secret"
                "uuid-0" eq_refl) as (ref & user & session & Hn & _ & _ & Hh & Hs & Hu & _).
  exists ref, user, session. split; [exact Hn|]. split; [exact Hh|].
  split; [exact Hs|exact Hu].
Defined.

Lemma get_user_by_session_after_login_witness :
  ∃ session_id user',
    (authenticate "alice" "secret" Examples.manager).1 = Some session_id
    ∧ (get_user_by_session session_id
         (authenticate "alice" "secret" Examples.manager).2).1 = Some user'
    ∧ identity user' = identity Examples.alice.
Proof.
  pose proof (get_user_by_session_after_login Examples.manager "alice" "secret" 0
                Examples.alice) as Hthm.
  cbv zeta in Hthm. destruct Hthm as (session_id & Hr & Hfound & _).
  - exact well_formed_manager.
  - reflexivity.
  - reflexivity.
  - intros lu Hlu. vm_compute in Hlu. discriminate Hlu.
  - reflexivity.
  - vm_compute. discriminate.
  - destruct Hfound as (user' & Hu & Hid & _).
    + vm_compute. discriminate.
    + exists session_id, user'. split; [exact Hr|]. split; [exact Hu|exact Hid].
Defined.

End AccountSpec.

(** ** Jobs, files and processors *)

Module JobSpec.
Import Batch BatchSpec.

Section ItemFacts.
Context {PF : Platform} {PS : Type}.
Implicit Types (f : Processor PS) (w : World (Run PS)).

Lemma alter_as_insert {A} (g : A → A) i (l : list A) x :
  l !! i = Some x → alter g i l = <[i := g x]> l.
Proof.
  revert i. induction l as [|y l IH]; intros [|i] Hi; cbn in *; try done.
  - by injection Hi as ->.
  - f_equal. by apply IH.
Qed.

Lemma alter_insert_same {A} (g : A → A) i (l : list A) x y :
  l !! i = Some x → alter g i (<[i := y]> l) = <[i := g y]> l.
Proof.
  intros Hi. rewrite (alter_as_insert g i _ y).
  - by rewrite list_insert_insert_eq.
  - apply list_lookup_insert_eq. by eapply lookup_lt_Some.
Qed.

Lemma tick_tick n m (s : Sys) : tick n (tick m s) = tick (n + m) s.
Proof. unfold tick. cbn. f_equal. lia. Qed.

Lemma process_item_items f i w item :
  BatchJob.items (job (self w)) !! i = Some item →
  let j := job (self w) in
  let r := (f (BatchItem.data item) (BatchJob.batch_type j) (pstate (self w))).1 in
  let w' := (process_item f i w).2 in
  BatchJob.items (job (self w'))
  = <[i := item_after r (clock (ticks (sys w))) item]> (BatchJob.items j)
  ∧ sys w' = tick 2 (sys w).
Proof.
  intros Hi. cbv zeta. unfold process_item. run. rewrite Hi.
  unfold call_processor. run.
  destruct (f _ _ _) as [[[]|] ps] eqn:E; unfold update_item, update_job; run; cbn;
    rewrite (alter_as_insert _ _ _ _ Hi), ?(alter_insert_same _ _ _ _ _ Hi); done.
Qed.

Lemma process_items_items f k : ∀ a w,
  (a + k ≤ length (BatchJob.items (job (self w))))%nat →
  let j := job (self w) in
  let rs := results_of f (BatchJob.batch_type j) (take k (drop a (datas j)))
              (pstate (self w)) in
  let w' := (for_each (seq a k) (process_item f) w).2 in
  let j' := job (self w') in
  sys w' = tick (2 * k) (sys w)
  ∧ length (BatchJob.items j') = length (BatchJob.items j)
  ∧ (∀ i, (i < a ∨ a + k ≤ i)%nat → BatchJob.items j' !! i = BatchJob.items j !! i)
  ∧ (∀ i item r, BatchJob.items j !! (a + i)%nat = Some item → rs !! i = Some r →
       BatchJob.items j' !! (a + i)%nat
       = Some (item_after r (clock (ticks (sys w) + 2 * i)) item)).
Proof.
  induction k as [|k IH]; intros a w Hle; cbv zeta.
  - cbn. rewrite take_0. cbn. split; [by destruct (sys w)|]. split; [done|].
    split; [done|]. by intros i item r _ ?.
  - cbn [seq for_each]. run.
    destruct (lookup_lt_is_Some_2 (BatchJob.items (job (self w))) a) as [item0 Hi]; [lia|].
    pose proof (process_item_spec f a w item0 Hi) as Hstep. cbv zeta in Hstep.
    pose proof (process_item_items f a w item0 Hi) as Hitems. cbv zeta in Hitems.
    destruct (process_item f a w) as [[] w1]. cbn [snd] in Hstep, Hitems.
    destruct Hstep as (Hps & _ & _ & _ & _ & Hbt & _ & Hd & _).
    destruct Hitems as [Hitems Hsys].
    specialize (IH (S a) w1). cbv zeta in IH.
    destruct IH as (IHsys & IHlen & IHout & IHin).
    { rewrite Hitems, length_insert. lia. }
    rewrite Hbt, Hd, Hps in IHin.
    assert (drop a (datas (job (self w)))
            = BatchItem.data item0 :: drop (S a) (datas (job (self w)))) as ->.
    { apply drop_S. unfold datas. by rewrite list_lookup_fmap, Hi. }
    cbn [take results_of].
    destruct (f (BatchItem.data item0) _ _) as [r0 ps1]. cbn [fst snd] in *.
    split; [|split; [|split]].
    + rewrite IHsys, Hsys, tick_tick. f_equal. lia.
    + by rewrite IHlen, Hitems, length_insert.
    + intros i Hi'. rewrite IHout by lia. rewrite Hitems.
      apply list_lookup_insert_ne. lia.
    + intros [|i] item r Hitem Hr.
      * rewrite Nat.add_0_r in *. rewrite IHout by lia. rewrite Hitems.
        cbn in Hr. injection Hr as <-. rewrite Hi in Hitem. injection Hitem as <-.
        rewrite list_lookup_insert_eq by (by eapply lookup_lt_Some).
        do 3 f_equal. lia.
      * cbn in Hr. replace (a + S i)%nat with (S a + i)%nat in * by lia.
        rewrite (IHin i item r); [| |done].
        -- rewrite Hsys. cbn [tick ticks]. do 3 f_equal. lia.
        -- rewrite Hitems. rewrite list_lookup_insert_ne by lia. done.
Qed.

Lemma finish_batch_items w :
  BatchJob.items (job (self (finish_batch w).2)) = BatchJob.items (job (self w))
  ∧ pstate (self (finish_batch w).2) = pstate (self w)
  ∧ sys (finish_batch w).2 = tick 2 (sys w).
Proof.
  unfold finish_batch, update_job. run.
  by repeat case_bool_decide.
Qed.

Lemma begin_batch_eq w :
  begin_batch w
  = (tt, {| self := {| job := BatchJob.set_updated_at (clock (S (ticks (sys w))))
                               (BatchJob.set_started_at (Some (clock (ticks (sys w))))
                                  (BatchJob.set_status PROCESSING (job (self w))));
                       pstate := pstate (self w) |};
            sys := tick 2 (sys w) |}).
Proof. done. Qed.

Lemma lookup_results_of f bt : ∀ ds ps i,
  (i < length ds)%nat → is_Some (results_of f bt ds ps !! i).
Proof.
  intros ds ps i Hi. apply lookup_lt_is_Some. by rewrite length_results_of.
Qed.

(** X16. [process_batch] with a processor keeps the items of the job in
    their order, with their ids and payloads. The item at place [i] gets the
    status [Completed] when the result of its call says success, and
    otherwise the status [Failed] with, as error message, the error of the
    result ([Unknown error] when it has none) or the text of the exception;
    the error message of an item that succeeds is left as it was. Its
    [processed_at] is the reading number [2 + 2 i] of the clock from the
    start. No item is left with another status. *)
Theorem process_batch_item_outcomes f w :
  let j := job (self w) in
  let rs := results_of f (BatchJob.batch_type j) (datas j) (pstate (self w)) in
  let j' := job (self (process_batch (Some f) w).2) in
  length (BatchJob.items j') = length (BatchJob.items j)
  ∧ (∀ i item, BatchJob.items j !! i = Some item →
       ∃ r, rs !! i = Some r
            ∧ BatchJob.items j' !! i
              = Some (item_after r (clock (ticks (sys w) + 2 + 2 * i)) item))
  ∧ Forall (λ item', BatchItem.status item' = "Completed"
                     ∨ BatchItem.status item' = "Failed") (BatchJob.items j')
  ∧ BatchItem.id <$> BatchJob.items j' = BatchItem.id <$> BatchJob.items j
  ∧ datas j' = datas j.
Proof.
  cbv zeta. rewrite process_batch_upto_all.
  set (X := (process_batch_upto f (length (BatchJob.items (job (self w)))) w).2).
  change (datas (job (self (finish_batch X).2)))
    with (BatchItem.data <$> BatchJob.items (job (self (finish_batch X).2))).
  destruct (finish_batch_items X) as (-> & _ & _). subst X.
  unfold process_batch_upto. run.
  rewrite firstn_all2 by (by rewrite length_seq).
  rewrite begin_batch_eq. run.
  set (w1 := {| self := _; sys := tick 2 (sys w) |}).
  pose proof (process_items_items f (length (BatchJob.items (job (self w)))) 0 w1) as Hloop.
  cbv zeta in Hloop. destruct Hloop as (_ & Hlen & _ & Hin); [done|].
  cbn [w1 self job pstate BatchJob.items BatchJob.set_updated_at BatchJob.set_started_at
       BatchJob.set_status BatchJob.batch_type sys tick ticks] in Hlen, Hin.
  change (datas (BatchJob.set_updated_at _ _)) with (datas (job (self w))) in Hin.
  rewrite drop_0, firstn_all2 in Hin by (unfold datas; by rewrite length_fmap).
  destruct (for_each _ _ w1) as [[] w2]. cbn [snd] in *.
  assert (∀ i item, BatchJob.items (job (self w)) !! i = Some item →
            ∃ r, results_of f (BatchJob.batch_type (job (self w))) (datas (job (self w)))
                   (pstate (self w)) !! i = Some r
                 ∧ BatchJob.items (job (self w2)) !! i
                   = Some (item_after r (clock (ticks (sys w) + 2 + 2 * i)) item)) as Hall.
  { intros i item Hi.
    destruct (lookup_results_of f (BatchJob.batch_type (job (self w)))
                (datas (job (self w))) (pstate (self w)) i) as [r Hr].
    { unfold datas. rewrite length_fmap. by eapply lookup_lt_Some. }
    exists r. split; [done|]. pose proof (Hin i item r Hi Hr) as Hi2. cbn [plus] in Hi2.
    rewrite Hi2. do 3 f_equal. lia. }
  split; [done|]. split; [done|].
  assert (∀ i item', BatchJob.items (job (self w2)) !! i = Some item' →
            ∃ item r, BatchJob.items (job (self w)) !! i = Some item
                      ∧ item' = item_after r (clock (ticks (sys w) + 2 + 2 * i)) item)
    as Hback.
  { intros i item' Hi'.
    destruct (lookup_lt_is_Some_2 (BatchJob.items (job (self w))) i) as [item Hi].
    { rewrite <- Hlen. by eapply lookup_lt_Some. }
    destruct (Hall i item Hi) as (r & _ & Hi2). exists item, r. split; [done|]. congruence. }
  split; [|split].
  - apply list.Forall_lookup. intros i item' Hi'.
    destruct (Hback i item' Hi') as (item & r & _ & ->).
    destruct r as [[|] e|msg]; cbn; auto.
  - apply list_eq. intros i. rewrite !list_lookup_fmap.
    destruct (BatchJob.items (job (self w2)) !! i) as [item'|] eqn:Hi'.
    + destruct (Hback i item' Hi') as (item & r & -> & ->).
      destruct r as [[|] e|msg]; reflexivity.
    + apply lookup_ge_None in Hi'. rewrite Hlen in Hi'. apply lookup_ge_None in Hi'.
      by rewrite Hi'.
  - unfold datas. apply list_eq. intros i. rewrite !list_lookup_fmap.
    destruct (BatchJob.items (job (self w2)) !! i) as [item'|] eqn:Hi'.
    + destruct (Hback i item' Hi') as (item & r & -> & ->).
      destruct r as [[|] e|msg]; reflexivity.
    + apply lookup_ge_None in Hi'. rewrite Hlen in Hi'. apply lookup_ge_None in Hi'.
      by rewrite Hi'.
Qed.


Lemma process_batch_length f w :
  length (BatchJob.items (job (self (process_batch (Some f) w).2)))
  = length (BatchJob.items (job (self w))).
Proof.
  rewrite process_batch_upto_all.
  set (X := (process_batch_upto f (length (BatchJob.items (job (self w)))) w).2).
  destruct (finish_batch_items X) as (-> & _ & _). subst X.
  unfold process_batch_upto. run.
  rewrite firstn_all2 by (by rewrite length_seq).
  rewrite begin_batch_eq. run.
  set (w1 := {| self := _; sys := tick 2 (sys w) |}).
  pose proof (process_items_items f (length (BatchJob.items (job (self w)))) 0 w1) as Hloop.
  cbv zeta in Hloop. destruct Hloop as (_ & Hlen & _); [done|].
  destruct (for_each _ _ w1) as [[] w2]. exact Hlen.
Qed.

Lemma process_batch_Some_spec f w :
  let j := job (self w) in
  let rs := results_of f (BatchJob.batch_type j) (datas j) (pstate (self w)) in
  let r := (process_batch (Some f) w).2 in
  let j' := job (self r) in
  BatchJob.processed_items j'
  = BatchJob.processed_items j + Z.of_nat (length (BatchJob.items j))
  ∧ BatchJob.successful_items j' = BatchJob.successful_items j + successes rs
  ∧ BatchJob.failed_items j' = BatchJob.failed_items j + failures rs
  ∧ BatchJob.total_items j' = BatchJob.total_items j
  ∧ BatchJob.status j'
    = final_status (BatchJob.failed_items j') (BatchJob.successful_items j')
  ∧ pstate (self r) = pstate_after f (BatchJob.batch_type j) (datas j) (pstate (self w))
  ∧ sys r = tick (4 + 2 * length (BatchJob.items j)) (sys w).
Proof.
  cbv zeta. rewrite process_batch_upto_all.
  set (X := (process_batch_upto f (length (BatchJob.items (job (self w)))) w).2).
  pose proof (finish_batch_spec X) as Hfin. cbv zeta in Hfin.
  destruct Hfin as (-> & -> & -> & -> & ->).
  destruct (finish_batch_items X) as (_ & -> & ->).
  unfold final_status. subst X.
  unfold process_batch_upto. run.
  rewrite firstn_all2 by (by rewrite length_seq).
  rewrite begin_batch_eq. run.
  set (w1 := {| self := _; sys := tick 2 (sys w) |}).
  pose proof (process_items_spec f (length (BatchJob.items (job (self w)))) 0 w1) as Hloop.
  pose proof (process_items_items f (length (BatchJob.items (job (self w)))) 0 w1) as Hloop'.
  cbv zeta in Hloop, Hloop'.
  destruct Hloop as (Hps & Hp & Hs & Hf & Ht & _ & _ & _); [done|].
  destruct Hloop' as (Hsys & _); [done|].
  cbn [w1 self job pstate BatchJob.items BatchJob.set_updated_at BatchJob.set_started_at
       BatchJob.set_status BatchJob.batch_type BatchJob.processed_items
       BatchJob.successful_items BatchJob.failed_items BatchJob.total_items sys]
    in Hps, Hp, Hs, Hf, Ht, Hsys.
  change (datas (BatchJob.set_updated_at _ _)) with (datas (job (self w))) in *.
  rewrite drop_0, firstn_all2 in * by (unfold datas; by rewrite length_fmap).
  destruct (for_each _ _ w1) as [[] w2]. cbn [snd] in *.
  rewrite Hps, Hp, Hs, Hf, Ht, Hsys, !tick_tick.
  repeat (split; [done|]). f_equal. lia.
Qed.

(** X17. [process_batch] does not reset the counters of the job: it adds
    the number of items to [processed_items], the numbers of successes and of
    failures to [successful_items] and [failed_items], leaves [total_items]
    alone, and gives the status by the counters so reached. It reads the
    clock [4 + 2 N] times. Run a second time on the same job, it leaves
    [processed_items] at twice the number of items, above [total_items]
    when the job was new. *)
Theorem process_batch_accumulates f w :
  let j := job (self w) in
  let N := Z.of_nat (length (BatchJob.items j)) in
  let rs := results_of f (BatchJob.batch_type j) (datas j) (pstate (self w)) in
  let r := (process_batch (Some f) w).2 in
  let j' := job (self r) in
  BatchJob.processed_items j' = BatchJob.processed_items j + N
  ∧ BatchJob.successful_items j' = BatchJob.successful_items j + successes rs
  ∧ BatchJob.failed_items j' = BatchJob.failed_items j + failures rs
  ∧ BatchJob.total_items j' = BatchJob.total_items j
  ∧ BatchJob.status j'
    = final_status (BatchJob.failed_items j') (BatchJob.successful_items j')
  ∧ pstate (self r) = pstate_after f (BatchJob.batch_type j) (datas j) (pstate (self w))
  ∧ sys r = tick (4 + 2 * length (BatchJob.items j)) (sys w)
  ∧ BatchJob.processed_items (job (self (process_batch (Some f) r).2))
    = BatchJob.processed_items j + 2 * N
  ∧ BatchJob.total_items (job (self (process_batch (Some f) r).2)) = BatchJob.total_items j.
Proof.
  cbv zeta.
  pose proof (process_batch_Some_spec f w) as H1. cbv zeta in H1.
  pose proof (process_batch_Some_spec f (process_batch (Some f) w).2) as H2.
  cbv zeta in H2.
  pose proof (process_batch_length f w) as Hlen.
  destruct H1 as (Hp & Hs & Hf & Ht & Hst & Hps & Hsys).
  destruct H2 as (Hp2 & _ & _ & Ht2 & _).
  repeat (split; [done|]).
  rewrite Hp2, Hp, Ht2, Ht, Hlen. split; [lia|done].
Qed.

(** [process_batch] without a processor sets the status to [FAILED]
    and [updated_at] to the time read, and nothing else: the items, the
    counters, [started_at] and [completed_at] are as they were, and the clock
    is read once. *)
Lemma process_batch_without_processor w :
  let j := job (self w) in
  let r := (process_batch (PS := PS) None w).2 in
  let j' := job (self r) in
  BatchJob.status j' = FAILED
  ∧ BatchJob.updated_at j' = clock (ticks (sys w))
  ∧ BatchJob.items j' = BatchJob.items j
  ∧ (BatchJob.processed_items j', BatchJob.successful_items j', BatchJob.failed_items j',
     BatchJob.total_items j')
    = (BatchJob.processed_items j, BatchJob.successful_items j, BatchJob.failed_items j,
       BatchJob.total_items j)
  ∧ (BatchJob.started_at j', BatchJob.completed_at j')
    = (BatchJob.started_at j, BatchJob.completed_at j)
  ∧ pstate (self r) = pstate (self w)
  ∧ sys r = tick 1 (sys w).
Proof. cbv zeta. unfold process_batch, update_job. run. done. Qed.

End ItemFacts.

Section ManagerFacts.
Context {PF : Platform}.
Implicit Types (w : World BatchManager).

Lemma delete_batch_job_eq w job_id :
  delete_batch_job job_id w
  = match batch_jobs (self w) !! job_id with
    | Some batch_job =>
      if bool_decide (BatchJob.status batch_job = PROCESSING) then (false, w)
      else (true, {| self := {| batch_jobs := delete job_id (batch_jobs (self w)) |};
                     sys := sys w |})
    | None => (false, w)
    end.
Proof.
  unfold delete_batch_job. run. destruct w as [m s]. cbn.
  destruct (batch_jobs m !! job_id); [|done]. by case_bool_decide.
Qed.

(** X18. [delete_batch_job] returns [True] exactly when the id is that of
    a job that is not [PROCESSING]; a job that is, or an unknown id, is
    refused and nothing changes. When it returns [True] the job is gone,
    the other jobs are as they were, and deleting it again returns [False]. *)
Theorem delete_batch_job_guard w (job_id : string) :
  let r := delete_batch_job job_id w in
  (r.1 = true
   ↔ ∃ j, get_batch_job (self w) job_id = Some j ∧ BatchJob.status j ≠ PROCESSING)
  ∧ (r.1 = false → r.2 = w)
  ∧ (r.1 = true →
     get_batch_job (self r.2) job_id = None
     ∧ (∀ other, other ≠ job_id →
          get_batch_job (self r.2) other = get_batch_job (self w) other)
     ∧ sys r.2 = sys w
     ∧ delete_batch_job job_id r.2 = (false, r.2)).
Proof.
  cbv zeta. rewrite (delete_batch_job_eq w). unfold get_batch_job.
  destruct (batch_jobs (self w) !! job_id) as [j|] eqn:E.
  - case_bool_decide as Hst; cbn [fst snd].
    + split; [split; [done|]|].
      * intros (j' & [= <-] & Hne). done.
      * done.
    + split; [split; [by exists j|done]|]. split; [done|]. intros _.
      cbn [self batch_jobs]. split; [by rewrite lookup_delete_eq|].
      split; [intros other Hne; by rewrite lookup_delete_ne|]. split; [done|].
      rewrite delete_batch_job_eq. cbn [self batch_jobs]. by rewrite lookup_delete_eq.
  - split; [split; [done|by intros (j' & [=] & _)]|]. done.
Qed.

Lemma map_M_BatchItem_init_lookup (ds : list (list (string * option string))) :
  ∀ (w : World BatchManager),
    let r := map_M BatchItem.init ds w in
    r.2 = {| self := self w;
             sys := {| ticks := ticks (sys w); draws := length ds + draws (sys w) |} |}
    ∧ length r.1 = length ds
    ∧ ∀ i d, ds !! i = Some d →
        r.1 !! i = Some {| BatchItem.id := entropy (draws (sys w) + i);
                           BatchItem.data := d; BatchItem.status := "Pending";
                           BatchItem.error_message := None;
                           BatchItem.processed_at := None |}.
Proof.
  induction ds as [|d ds IH]; intros w; cbv zeta.
  - cbn. split; [by destruct w as [? []]|]. done.
  - cbn [map_M]. run. rewrite BatchItem_init_eq.
    set (w1 := {| self := self w; sys := _ |}).
    specialize (IH w1). cbv zeta in IH. destruct (map_M BatchItem.init ds w1) as [l w2].
    cbn [fst snd] in *. destruct IH as (-> & Hlen & Hl).
    split; [|split].
    + cbn. do 2 f_equal. lia.
    + cbn. by rewrite Hlen.
    + intros [|i] d' Hd; cbn in Hd |- *.
      * injection Hd as <-. by rewrite Nat.add_0_r.
      * pose proof (Hl i d' Hd) as Hi. cbn [w1 sys draws] in Hi.
        etrans; [exact Hi|]. do 3 f_equal. lia.
Qed.

(** X19. [create_batch_job] draws one id for each item, in order, then
    the id of the job, which it returns, and reads the clock once. The job
    stored under that id has the name, type and description given, the
    status [PENDING], [total_items] the number of payloads and the other
    counters at 0, and one [Pending] item for each payload, in order. The
    jobs under other ids are as they were, and the new job can be deleted
    at once. *)
Theorem create_batch_job_registers w (name : string) (batch_type : BatchType)
    (ds : list (list (string * option string))) (description : string) :
  let r := create_batch_job name batch_type ds description w in
  r.1 = entropy (length ds + draws (sys w))
  ∧ sys r.2 = {| ticks := S (ticks (sys w)); draws := S (length ds + draws (sys w)) |}
  ∧ (∀ other, other ≠ r.1 →
       get_batch_job (self r.2) other = get_batch_job (self w) other)
  ∧ (∃ j, get_batch_job (self r.2) r.1 = Some j
          ∧ BatchJob.id j = r.1
          ∧ (BatchJob.name j, BatchJob.batch_type j, BatchJob.description j)
            = (name, batch_type, description)
          ∧ BatchJob.status j = PENDING
          ∧ (BatchJob.total_items j, BatchJob.processed_items j,
             BatchJob.successful_items j, BatchJob.failed_items j)
            = (Z.of_nat (length ds), 0, 0, 0)
          ∧ (BatchJob.created_at j, BatchJob.updated_at j, BatchJob.started_at j,
             BatchJob.completed_at j)
            = (clock (ticks (sys w)), clock (ticks (sys w)), None, None)
          ∧ length (BatchJob.items j) = length ds
          ∧ ∀ i d, ds !! i = Some d →
              BatchJob.items j !! i
              = Some {| BatchItem.id := entropy (draws (sys w) + i);
                        BatchItem.data := d; BatchItem.status := "Pending";
                        BatchItem.error_message := None;
                        BatchItem.processed_at := None |})
  ∧ (delete_batch_job r.1 r.2).1 = true.
Proof.
  cbv zeta. unfold create_batch_job. run.
  pose proof (map_M_BatchItem_init_lookup ds w) as Hitems. cbv zeta in Hitems.
  destruct (map_M BatchItem.init ds w) as [l w1]. cbn [fst snd] in Hitems.
  destruct Hitems as (-> & Hlen & Hl).
  unfold BatchJob.init. run. cbn [BatchJob.id].
  split; [done|]. split; [done|].
  split; [intros other Hne; unfold get_batch_job; cbn [batch_jobs];
          by rewrite lookup_insert_ne|].
  split.
  - eexists. split; [unfold get_batch_job; cbn [batch_jobs]; apply lookup_insert_eq|].
    cbn. rewrite Hlen. done.
  - rewrite delete_batch_job_eq. cbn [self batch_jobs]. rewrite lookup_insert_eq.
    cbn [BatchJob.status]. by rewrite bool_decide_false.
Qed.

End ManagerFacts.

Section ExportFacts.
Context {PF : Platform}.

Lemma dict_keys_export_fold (l : list (string * option string)) :
  ∀ (row : list (string * option string)) k',
    k' ∈ dict_keys (foldl (λ row kv, dict_set ("data_" +:+ kv.1) kv.2 row) row l)
    ↔ k' ∈ dict_keys row ∨ ∃ k, k ∈ dict_keys l ∧ k' = "data_" +:+ k.
Proof.
  induction l as [|[k v] l IH]; intros row k'; cbn [foldl].
  - split; [by left|]. intros [?|(k & Hk & _)]; [done|]. by apply elem_of_nil in Hk.
  - rewrite IH, elem_of_dict_keys_set. unfold dict_keys. cbn [fmap list_fmap fst].
    split.
    + intros [[->|?]|(k0 & Hk0 & ->)]; [right; exists k; split; [left|done]|by left|].
      right. exists k0. split; [by right|done].
    + intros [?|(k0 & Hk0 & ->)]; [by left; right|].
      apply elem_of_cons in Hk0 as [->|Hk0]; [by left; left|].
      right. by exists k0.
Qed.

Lemma dict_keys_export_row item k' :
  k' ∈ dict_keys (export_row item)
  ↔ k' ∈ ["id"; "status"; "error_message"; "processed_at"]
    ∨ ∃ k, k ∈ dict_keys (BatchItem.data item) ∧ k' = "data_" +:+ k.
Proof. unfold export_row. by rewrite dict_keys_export_fold. Qed.

Lemma writerow_fits (keys : list string) item :
  is_Some (DictWriter_writerow
             (["id"; "status"; "error_message"; "processed_at"]
              ++ ((λ key, "data_" +:+ key) <$> keys)) (export_row item))
  ↔ fits keys item.
Proof.
  unfold DictWriter_writerow, fits.
  case_bool_decide as Hall; rewrite list.Forall_forall in Hall.
  - split; [|by eexists]. intros _ k Hk.
    assert ("data_" +:+ k ∈ dict_keys (export_row item)) as Hin.
    { apply dict_keys_export_row. right. by exists k. }
    apply Hall, elem_of_app in Hin as [Hbase|Hdata].
    + exfalso. rewrite !elem_of_cons, elem_of_nil in Hbase.
      destruct Hbase as [?|[?|[?|[?|[]]]]]; discriminate.
    + apply list_elem_of_fmap in Hdata as (k0 & Heq & Hk0).
      apply (inj (String.app "data_")) in Heq. by subst.
  - split; [by intros [? ?]|]. intros Hfits. exfalso. apply Hall.
    intros k' [Hbase|(k & Hk & ->)]%dict_keys_export_row.
    + apply elem_of_app. by left.
    + apply elem_of_app. right. apply list_elem_of_fmap. exists k. split; [done|].
      by apply Hfits.
Qed.

Lemma export_rows_true headers (items : list BatchItem.t) : ∀ file0,
  (export_rows headers items file0).1 = true
  ↔ Forall (λ item, is_Some (DictWriter_writerow headers (export_row item))) items.
Proof.
  induction items as [|item items IH]; intros file0; cbn [export_rows].
  - split; [constructor|done].
  - destruct (DictWriter_writerow headers (export_row item)) as [row|] eqn:E.
    + rewrite IH, Forall_cons, E. split; [by split; [eexists|]|by intros [_ ?]].
    + split; [done|]. intros [[x Hx] _]%Forall_cons. congruence.
Qed.

Lemma export_rows_false headers (items : list BatchItem.t) : ∀ file0 file,
  export_rows headers items file0 = (false, file) →
  ∃ before item after rows,
    items = before ++ item :: after
    ∧ Forall (λ item, is_Some (DictWriter_writerow headers (export_row item))) before
    ∧ DictWriter_writerow headers (export_row item) = None
    ∧ file = file0 ++ rows
    ∧ length rows = length before.
Proof.
  induction items as [|item items IH]; intros file0 file; cbn [export_rows]; [done|].
  destruct (DictWriter_writerow headers (export_row item)) as [row|] eqn:E.
  - intros (before & item' & after & rows & -> & Hb & Hi & -> & Hlen)%IH.
    exists (item :: before), item', after, (row :: rows).
    split; [done|]. split; [constructor; [by rewrite E|done]|]. split; [done|].
    split; [by rewrite <- app_assoc|]. cbn. by rewrite Hlen.
  - intros [= <-]. exists [], item, items, []. split; [done|]. split; [constructor|].
    split; [done|]. split; [by rewrite app_nil_r|done].
Qed.

(** X20. [_export_to_csv] returns [True] exactly when the fields of every
    item are among the fields of the first item. Otherwise it returns
    [False], having written the header and one row for each item before the
    first one that has another field. *)
Theorem export_to_csv_succeeds_iff (batch_job : BatchJob.t) :
  let keys := match BatchJob.items batch_job with
              | [] => []
              | item :: _ => dict_keys (BatchItem.data item)
              end in
  ((_export_to_csv batch_job).1 = true ↔ Forall (fits keys) (BatchJob.items batch_job))
  ∧ (∀ file, _export_to_csv batch_job = (false, file) →
       ∃ before item after rows,
         BatchJob.items batch_job = before ++ item :: after
         ∧ Forall (fits keys) before
         ∧ ¬ fits keys item
         ∧ file = export_headers batch_job :: rows
         ∧ length rows = length before).
Proof.
  cbv zeta. unfold _export_to_csv.
  set (keys := match BatchJob.items batch_job with
               | [] => []
               | item :: _ => dict_keys (BatchItem.data item)
               end).
  assert (export_headers batch_job
          = ["id"; "status"; "error_message"; "processed_at"]
            ++ ((λ key, "data_" +:+ key) <$> keys)) as Hh.
  { unfold export_headers, keys. by destruct (BatchJob.items batch_job). }
  rewrite Hh. split.
  - rewrite export_rows_true. apply Forall_iff. intros item. apply writerow_fits.
  - intros file (before & item & after & rows & Hitems & Hb & Hi & -> & Hlen)%export_rows_false.
    exists before, item, after, rows. split; [done|]. split.
    { eapply list.Forall_impl; [exact Hb|]. intros item'. apply writerow_fits. }
    split; [|done]. intros Hf%writerow_fits. rewrite Hi in Hf. by destruct Hf.
Qed.

End ExportFacts.

Section ProcessorFacts.
Variable py_hash : option string → Z.
Variable float_le_0 : option string → string + bool.

Lemma missing_field_None required data :
  missing_field required data = None → Forall (λ field, field ∈ dict_keys data) required.
Proof.
  unfold missing_field. intros Hn. apply fmap_None, list_find_None in Hn.
  eapply list.Forall_impl; [exact Hn|]. intros field Hnn.
  by destruct (decide (field ∈ dict_keys data)).
Qed.

Lemma missing_field_Some required data field :
  missing_field required data = Some field →
  ∃ before after, required = before ++ field :: after
                  ∧ (field ∉ dict_keys data)
                  ∧ Forall (λ field, field ∈ dict_keys data) before.
Proof.
  unfold missing_field. intros Hm. apply fmap_Some in Hm as ([i x] & Hf & [= ->]).
  apply list_find_Some in Hf as (Hi & Hx & Hbefore).
  exists (take i required), (drop (S i) required).
  split; [by rewrite take_drop_middle|]. split; [done|].
  apply list.Forall_lookup. intros j y Hj.
  apply lookup_take_Some in Hj as [Hj Hlt].
  specialize (Hbefore j y Hj Hlt). by destruct (decide (y ∈ dict_keys data)).
Qed.

(** X21. The processors registered by default never raise. On a payload
    that lacks one of the required fields of their batch type they fail,
    whatever the other fields hold, with [Missing required field:] and the
    first one that is lacking, in the order of the list, and draw no id. A
    success means that all the required fields are there, and draws one id;
    a failure draws none, card issuance apart. *)
Theorem default_processors_validate (batch_type batch_type' : BatchType)
    (data : list (string * option string)) (drawn : nat) :
  let r := default_processor py_hash float_le_0 batch_type data batch_type' drawn in
  (∀ msg, r.1 ≠ Raised msg)
  ∧ (∀ field, missing_field (required_fields batch_type) data = Some field →
       r = (Returned false (Some (Some ("Missing required field: " +:+ field))), drawn)
       ∧ ∃ before after, required_fields batch_type = before ++ field :: after
                         ∧ (field ∉ dict_keys data)
                         ∧ Forall (λ field, field ∈ dict_keys data) before)
  ∧ (succeeded r.1 = true →
     Forall (λ field, field ∈ dict_keys data) (required_fields batch_type)
     ∧ r.2 = S drawn)
  ∧ (succeeded r.1 = false → batch_type ≠ CARD_ISSUANCE → r.2 = drawn).
Proof.
  cbv zeta.
  destruct batch_type; cbn [default_processor required_fields];
    unfold _process_payment, _process_refund, _process_transfer, _process_card_issuance,
      _process_customer_import, _process_merchant_import, missing;
    (match goal with
     | |- context [missing_field ?req data] =>
       destruct (missing_field req data) as [field0|] eqn:E
     end;
     [split; [done|]; split;
        [intros field [= <-]; split; [done|by apply missing_field_Some]|done]
     |apply missing_field_None in E]);
    try (destruct (float_le_0 _) as [exc|[|]]; [done|done|]);
    repeat case_bool_decide; done.
Qed.

End ProcessorFacts.

#[local] Existing Instance Examples.platform.

(** A customer id whose hash prints in fewer than five characters: the id
    of the card is drawn, and the issuance fails on the card number. *)
Example card_issuance_short_hash :
  _process_card_issuance (λ _, 7)
    [("customer_id", Some "c-1"); ("card_type", Some "debit")] CARD_ISSUANCE 0%nat
  = (Returned false (Some (Some "string index out of range")), 1%nat).
Proof. reflexivity. Qed.

Example refund_without_amount :
  _process_refund (λ _, 7) [("transaction_id", Some "t-1")] REFUND 0%nat
  = (Returned false (Some (Some "Missing required field: amount")), 0%nat).
Proof. reflexivity. Qed.

(** The second item has a field that the first one lacks: the file is left
    with the header and the row of the first item. *)
Example export_stops_at_foreign_field :
  _export_to_csv
    (Examples.job_of
       [Examples.payment "i-1" "10" "Completed";
        BatchItem.Build_t "i-2" [("amount", Some "20"); ("note", Some "gift")]
          "Completed" None None])
  = (false,
     [["id"; "status"; "error_message"; "processed_at"; "data_amount"];
      ["i-1"; "Completed"; ""; ""; "10"]]).
Proof. reflexivity. Qed.

End JobSpec.

(** ** Rules and engine *)

Module RuleSpec.
Import Fraud FraudSpec.

Section EngineFacts.
Context {PF : Platform}.

Lemma evaluate_transaction_eq (w : World FraudDetectionEngine) transaction :
  evaluate_transaction transaction w
  = (omap triggered (outcomes (rules (self w)) transaction (sys w)),
     {| self := {| rules := evaluated (rules (self w)) transaction (sys w) |};
        sys := sys_after (rules (self w)) transaction (sys w) |}).
Proof.
  unfold evaluate_transaction. run.
  destruct (evaluate_rules_spec transaction (rules (self w)) [] ([], LOW) (sys w))
    as [h Hloop].
  cbn [length app fst] in Hloop.
  destruct w as [[rs] s]. cbn [self sys rules] in *. by rewrite Hloop.
Qed.

Lemma call_evaluate_name rule transaction s :
  FraudDetectionRule.name (call_evaluate rule transaction s).1.2
  = FraudDetectionRule.name rule.
Proof.
  unfold call_evaluate.
  by destruct (FraudDetectionRule.evaluate rule transaction _) as [r0 w0].
Qed.

Lemma evaluated_names (rs : list FraudDetectionRule.t) transaction : ∀ s,
  FraudDetectionRule.name <$> evaluated rs transaction s = FraudDetectionRule.name <$> rs.
Proof.
  induction rs as [|rule rs IH]; intros s; [done|]. cbn [evaluated].
  pose proof (call_evaluate_name rule transaction s) as Hn.
  destruct (call_evaluate rule transaction s) as [[r rule'] s']. cbn in *.
  by rewrite IH, Hn.
Qed.

Lemma triggered_names (rs : list FraudDetectionRule.t) transaction : ∀ s,
  rule_name <$> omap triggered (outcomes rs transaction s)
  `sublist_of` FraudDetectionRule.name <$> rs.
Proof.
  induction rs as [|rule rs IH]; intros s; [done|]. cbn [outcomes].
  destruct (call_evaluate rule transaction s) as [[r rule'] s'].
  cbn [omap list_omap]. unfold triggered at 1. cbn [fst snd].
  destruct r as [[[[] risk] msg]|exc]; cbn [fmap list_fmap rule_name].
  - apply sublist_skip, IH.
  - apply sublist_cons, IH.
  - apply sublist_cons, IH.
Qed.

Lemma evaluated_app (l1 l2 : list FraudDetectionRule.t) transaction : ∀ s,
  evaluated (l1 ++ l2) transaction s
  = evaluated l1 transaction s ++ evaluated l2 transaction (sys_after l1 transaction s).
Proof.
  induction l1 as [|rule l1 IH]; intros s; [done|].
  cbn [app evaluated sys_after].
  destruct (call_evaluate rule transaction s) as [[r rule'] s']. by rewrite IH.
Qed.

(** X22. [evaluate_transaction] returns at most one entry for each rule,
    and the names of the entries are those of rules of the engine, in the
    order of the rules. It leaves the engine with the same rules by name, in
    the same order, and an engine without rules returns the empty list and
    is not changed. *)
Theorem evaluate_transaction_keeps_rules (w : World FraudDetectionEngine)
    (transaction : gmap string PyVal) :
  let r := evaluate_transaction transaction w in
  rule_name <$> r.1 `sublist_of` FraudDetectionRule.name <$> rules (self w)
  ∧ (length r.1 ≤ length (rules (self w)))%nat
  ∧ FraudDetectionRule.name <$> rules (self r.2)
    = FraudDetectionRule.name <$> rules (self w)
  ∧ (rules (self w) = [] → r = ([], w)).
Proof.
  cbv zeta. rewrite evaluate_transaction_eq. cbn [fst snd self rules].
  pose proof (triggered_names (rules (self w)) transaction (sys w)) as Hsub.
  split; [done|]. split.
  - apply sublist_length in Hsub. by rewrite !length_fmap in Hsub.
  - split; [apply evaluated_names|]. intros Hr. destruct w as [[rs] s].
    cbn [self rules sys] in *. by subst rs.
Qed.

Lemma length_filter_lt {A} (P : A → Prop) `{∀ x, Decision (P x)} (l : list A) :
  (length (filter P l) < length l)%nat ↔ ∃ x, x ∈ l ∧ ¬ P x.
Proof.
  induction l as [|x l IH].
  - cbn. split; [lia|]. intros (x & Hx & _). by apply elem_of_nil in Hx.
  - rewrite filter_cons. pose proof (length_filter P l) as Hle.
    destruct (decide (P x)) as [Hp|Hp]; cbn [length].
    + rewrite <- Nat.succ_lt_mono, IH. split.
      * intros (y & Hy & Hny). exists y. split; [by right|done].
      * intros (y & [->|Hy]%elem_of_cons & Hny); [done|]. by exists y.
    + split; [|lia]. intros _. exists x. split; [left|done].
Qed.

(** X23. [remove_rule] removes every rule of the name given, keeps the
    others in their order, and returns [True] exactly when the engine had a
    rule of that name. It does not read the clock. After it, a second call
    returns [False] and changes nothing, and no entry that
    [evaluate_transaction] returns bears that name. *)
Theorem remove_rule_removes_all (w : World FraudDetectionEngine) (rule_name0 : string) :
  let r := remove_rule rule_name0 w in
  rules (self r.2)
  = filter (λ rule, FraudDetectionRule.name rule ≠ rule_name0) (rules (self w))
  ∧ (r.1 = true
     ↔ ∃ rule, rule ∈ rules (self w) ∧ FraudDetectionRule.name rule = rule_name0)
  ∧ sys r.2 = sys w
  ∧ remove_rule rule_name0 r.2 = (false, r.2)
  ∧ (∀ transaction,
       rule_name0 ∉ rule_name <$> (evaluate_transaction transaction r.2).1).
Proof.
  cbv zeta.
  assert (∀ w' : World FraudDetectionEngine,
            remove_rule rule_name0 w'
            = (bool_decide (length (filter (λ rule, FraudDetectionRule.name rule ≠ rule_name0)
                                      (rules (self w')))
                            < length (rules (self w')))%nat,
               {| self := {| rules := filter (λ rule, FraudDetectionRule.name rule
                                                       ≠ rule_name0) (rules (self w')) |};
                  sys := sys w' |})) as Heq by done.
  rewrite !Heq. cbn [fst snd self rules sys].
  assert (Forall (λ rule, FraudDetectionRule.name rule ≠ rule_name0)
            (filter (λ rule, FraudDetectionRule.name rule ≠ rule_name0) (rules (self w))))
    as Hall.
  { apply list.Forall_forall. by intros rule [? _]%list_elem_of_filter. }
  split; [done|]. split; [|split; [done|split]].
  - rewrite bool_decide_eq_true, length_filter_lt. split.
    + intros (rule & Hin & Hn). exists rule. split; [done|].
      by destruct (decide (FraudDetectionRule.name rule = rule_name0)).
    + intros (rule & Hin & Hn). exists rule. split; [done|]. by intros ?.
  - f_equal.
    + apply bool_decide_eq_false. rewrite length_filter_lt.
      intros (rule & Hin & Hn). apply Hn.
      by apply (proj1 (list.Forall_forall _ _) Hall).
    + f_equal. f_equal. apply list_filter_filter_l. done.
  - intros transaction Hin. rewrite evaluate_transaction_eq in Hin. cbn [fst self rules] in Hin.
    eapply elem_of_sublist in Hin; [|apply triggered_names].
    apply list_elem_of_fmap in Hin as (rule & Hname & Hrule).
    by apply (proj1 (list.Forall_forall _ _) Hall rule).
Qed.

(** X24. [add_rule] puts the rule at the end of the list. The entries
    that [evaluate_transaction] then returns are those it returned without
    the rule, followed by the entry of the new rule if it triggers, the new
    rule being evaluated after the others, from the readings of the clock
    they leave; the other rules end in the states they ended in without it. *)
Theorem add_rule_is_evaluated_last (w : World FraudDetectionEngine)
    (rule : FraudDetectionRule.t) (transaction : gmap string PyVal) :
  let w1 := (add_rule rule w).2 in
  let r := evaluate_transaction transaction w in
  let r1 := evaluate_transaction transaction w1 in
  rules (self w1) = rules (self w) ++ [rule]
  ∧ sys w1 = sys w
  ∧ r1.1 = r.1 ++ omap triggered (outcomes [rule] transaction (sys r.2))
  ∧ rules (self r1.2) = rules (self r.2) ++ evaluated [rule] transaction (sys r.2)
  ∧ (length r1.1 ≤ S (length r.1))%nat.
Proof.
  cbv zeta. rewrite !evaluate_transaction_eq. unfold add_rule. run.
  cbn [rules]. rewrite outcomes_app, evaluated_app, omap_app.
  repeat (split; [done|]). rewrite length_app.
  cbn [outcomes]. destruct (call_evaluate rule _ _) as [[r rule'] s'].
  cbn [omap list_omap]. destruct (triggered _); cbn; lia.
Qed.

End EngineFacts.

(** ** Texts *)

Lemma prefix_app (p s : string) : String.prefix p s = true ↔ ∃ b, s = p +:+ b.
Proof.
  revert s. induction p as [|c p IH]; intros s.
  - split; [by exists s|by destruct s].
  - destruct s as [|c' s]; cbn; [split; [done|by intros [b [=]]]|].
    destruct (ascii_dec c c') as [->|Hne].
    + rewrite IH. split; [intros [b ->]; by exists b|intros [b [= ->]]; by exists b].
    + split; [done|]. by intros [b [= ? _]].
Qed.

Lemma contains_occurs_in (s p : string) : contains s p = true ↔ occurs_in p s.
Proof.
  unfold occurs_in. induction s as [|c s IH]; cbn [contains].
  - rewrite orb_false_r, prefix_app. split.
    + intros [b Hb]. by exists "", b.
    + intros ([|] & b & Hb); [by exists b|done].
  - rewrite orb_true_iff, prefix_app, IH. split.
    + intros [[b Hb]|(a & b & ->)]; [by exists "", b|by exists (String c a), b].
    + intros ([|c' a] & b & Hb); [left; by exists b|].
      right. injection Hb as -> ->. by exists a, b.
Qed.

Lemma existsb_elem_of {A} (f : A → bool) (l : list A) :
  existsb f l = true ↔ ∃ x, x ∈ l ∧ f x = true.
Proof.
  induction l as [|x l IH]; cbn.
  - split; [done|]. intros (x & Hx & _). by apply elem_of_nil in Hx.
  - rewrite orb_true_iff, IH. split.
    + intros [Hx|(y & Hy & Hf)]; [exists x; split; [left|done]|].
      exists y. split; [by right|done].
    + intros (y & [->|Hy]%elem_of_cons & Hf); [by left|]. right. by exists y.
Qed.

Lemma ascii_only_lower (s : string) :
  ascii_only s = true → ascii_only (str_map lower_ascii s) = true.
Proof.
  induction s as [|c s IH]; [done|]. cbn [ascii_only str_map].
  intros [Hc Hs]%andb_true_iff. rewrite (IH Hs), andb_true_r.
  unfold lower_ascii. destruct (_ && _)%bool eqn:E; [|done].
  apply andb_true_iff in E as [_ E]. apply Nat.leb_le in E. apply Nat.ltb_lt.
  rewrite nat_ascii_embedding; lia.
Qed.

Lemma lower_ascii_twice (c : ascii) : lower_ascii (lower_ascii c) = lower_ascii c.
Proof.
  unfold lower_ascii at 2 3. destruct (_ && _)%bool eqn:E; [|unfold lower_ascii; by rewrite E].
  apply andb_true_iff in E as [E1 E2]. apply Nat.leb_le in E1, E2.
  unfold lower_ascii. rewrite nat_ascii_embedding by lia.
  assert ((nat_of_ascii c + 32 <=? 90)%nat = false) as -> by (apply Nat.leb_gt; lia).
  by rewrite andb_false_r.
Qed.

Lemma str_map_lower_twice (s : string) :
  str_map lower_ascii (str_map lower_ascii s) = str_map lower_ascii s.
Proof.
  induction s as [|c s IH]; [done|]. cbn [str_map]. by rewrite IH, lower_ascii_twice.
Qed.

Section RuleFacts.
Context {PF : Platform}.

Lemma upper_empty (s : string) : upper s = "" ↔ s = "".
Proof.
  split; [apply upper_nonempty|]. intros ->. by rewrite upper_ascii_only.
Qed.

(** X25. The geographic rule has no state and compares the countries in
    the upper case that [str.upper] gives them, on both sides. A transaction
    without a country, with the empty one, or with a country whose upper
    case is that of a country of the list, is not flagged; any other
    country is flagged [HIGH], the message giving it in upper case; a
    country that is no text raises [AttributeError]. *)
Theorem geographic_rule_ignores_case (allowed_countries : list string)
    (transaction : gmap string PyVal) (w : World unit) :
  let r := FraudDetectionRule.evaluate (GeographicAnomalyRule allowed_countries)
             transaction w in
  r.2 = w
  ∧ match default (VStr "") (transaction !! "country") with
    | VStr c =>
      (c = "" ∨ (∃ a, a ∈ allowed_countries ∧ upper a = upper c) →
       r.1 = Return (false, LOW, ""))
      ∧ (c ≠ "" → (∀ a, a ∈ allowed_countries → upper a ≠ upper c) →
         r.1 = Return (true, HIGH, "Transaction from non-allowed country: " +:+ upper c))
    | _ => r.1 = Raise "AttributeError"
    end.
Proof.
  cbv zeta. cbn [FraudDetectionRule.evaluate GeographicAnomalyRule]. run.
  split; [done|]. unfold GeographicAnomalyRule_evaluate.
  destruct (default (VStr "") (transaction !! "country")) as [|c| |]; try done.
  split.
  - intros [->|(a & Ha & Heq)].
    { rewrite (bool_decide_true (upper "" = "")); [done|]. by apply upper_empty. }
    rewrite (bool_decide_true (upper c ∈ _)); [by rewrite andb_false_r|].
    apply list_elem_of_fmap. by exists a.
  - intros Hne Hall.
    rewrite (bool_decide_false (upper c = "")) by (by rewrite upper_empty).
    rewrite (bool_decide_false (upper c ∈ _)); [done|].
    intros (a & Heq & Ha)%list_elem_of_fmap. by apply (Hall a).
Qed.

(** X26. The pattern rule, on the merchant and the description in the
    lower case that [str.lower] gives them: a merchant in which
    [test-merchant] or [unauthorized-vendor] occurs is flagged [HIGH],
    whatever the description; otherwise a description in which the search
    of the pattern [test|dummy|unauthorized], case ignored, finds a match
    is flagged [MEDIUM]; otherwise the transaction is not flagged. On a
    description of ASCII characters the search finds a match exactly when
    one of the three words occurs in it, the case of the ASCII letters
    apart. When the merchant or the description is no text the rule raises
    [AttributeError], also for a merchant that would be flagged. *)
Theorem pattern_rule_precedence (transaction : gmap string PyVal) :
  let r := PatternMatchingRule_evaluate ["test-merchant"; "unauthorized-vendor"]
             transaction in
  match default (VStr "") (transaction !! "merchant"),
        default (VStr "") (transaction !! "description") with
  | VStr m, VStr d =>
    let bad_merchant :=
      ∃ sm, sm ∈ ["test-merchant"; "unauthorized-vendor"] ∧ occurs_in sm (lower m) in
    let bad_words :=
      re_search_ignorecase ["test"; "dummy"; "unauthorized"] (lower d) = true in
    (bad_merchant →
     r = Return (true, HIGH, "Suspicious merchant detected: " +:+ lower m))
    ∧ (¬ bad_merchant → bad_words →
       r = Return (true, MEDIUM, "Suspicious keywords in description: " +:+ lower d))
    ∧ (¬ bad_merchant → ¬ bad_words → r = Return (false, LOW, ""))
    ∧ (ascii_only d = true →
       bad_words
       ↔ ∃ word, word ∈ ["test"; "dummy"; "unauthorized"]
                 ∧ occurs_in word (str_map lower_ascii d))
  | _, _ => r = Raise "AttributeError"
  end.
Proof.
  cbv zeta. unfold PatternMatchingRule_evaluate.
  destruct (default (VStr "") (transaction !! "merchant")) as [|m| |]; try done.
  destruct (default (VStr "") (transaction !! "description")) as [|d| |]; try done.
  assert (∀ s l, existsb (λ p, contains s p) l = true
                 ↔ ∃ p, p ∈ l ∧ occurs_in p s) as Hex.
  { intros s l. rewrite existsb_elem_of.
    split; intros (p & Hp & Ho); exists p; (split; [done|]); by apply contains_occurs_in. }
  split; [|split; [|split]].
  - intros Hm%Hex. by rewrite Hm.
  - intros Hm Hw. rewrite Hw.
    destruct (existsb _ ["test-merchant"; _]) eqn:E; [|done].
    by apply Hex in E.
  - intros Hm Hw.
    destruct (existsb _ ["test-merchant"; _]) eqn:E; [by apply Hex in E|].
    by destruct (re_search_ignorecase _ _).
  - intros Hd. rewrite (lower_ascii_only d Hd).
    rewrite re_search_ascii_only by (by apply ascii_only_lower || done).
    rewrite str_map_lower_twice.
    change (existsb _ _)
      with (existsb (λ p, contains (str_map lower_ascii d) p)
              ["test"; "dummy"; "unauthorized"]).
    apply Hex.
Qed.

(** X27. The amount rule takes a missing amount for 0: it is flagged
    exactly when the threshold is negative. An amount that is present and
    is no number raises [TypeError], so that an engine with this rule alone
    returns no entry for the transaction, whatever the threshold. *)
Theorem amount_rule_missing_or_malformed (threshold : Qc)
    (transaction : gmap string PyVal) :
  let r := AmountThresholdRule_evaluate threshold transaction in
  (transaction !! "amount" = None →
   (¬ (threshold < Q2Qc 0)%Qc → r = Return (false, LOW, ""))
   ∧ ((threshold < Q2Qc 0)%Qc → ∃ message, r = Return (true, MEDIUM, message)))
  ∧ (∀ v, transaction !! "amount" = Some v → (∀ a, v ≠ VNum a) →
       r = Raise "TypeError"
       ∧ ∀ s, (evaluate_transaction transaction
                 {| self := {| rules := [AmountThresholdRule threshold] |};
                    sys := s |}).1 = []).
Proof.
  cbv zeta. unfold AmountThresholdRule_evaluate. split.
  - intros ->. cbn [default]. split; intros Hlt.
    + by rewrite bool_decide_false.
    + rewrite bool_decide_true by done. by eexists.
  - intros v E Hv. split.
    + rewrite E. cbn [default]. destruct v as [| |a|]; try done. by destruct (Hv a).
    + intros s. rewrite evaluate_transaction_eq.
      cbn [fst self rules sys outcomes]. unfold call_evaluate.
      cbn [FraudDetectionRule.evaluate AmountThresholdRule]. run.
      unfold AmountThresholdRule_evaluate. rewrite E. cbn [default]. unfold id.
      destruct v as [| |a|]; try done. by destruct (Hv a).
Qed.

Lemma VelocityCheckRule_evaluate_eq (max_transactions time_window : Z)
    (transaction : gmap string PyVal) (w : World (gmap PyVal (list PyVal))) :
  let card_id := default VNone (transaction !! "card_id") in
  let timestamp := default (VTime (clock (ticks (sys w)))) (transaction !! "timestamp") in
  let history := default [] (self w !! card_id) ++ [timestamp] in
  truthy card_id = true →
  VelocityCheckRule_evaluate max_transactions time_window transaction w
  = match sub_timedelta timestamp time_window with
    | Raise e =>
      (Raise e, {| self := <[card_id := history]> (self w); sys := tick 1 (sys w) |})
    | Return cutoff_time =>
      match recent_since cutoff_time history with
      | Raise e =>
        (Raise e, {| self := <[card_id := history]> (self w); sys := tick 1 (sys w) |})
      | Return recent_transactions =>
        (Return (velocity_verdict max_transactions time_window
                   (length recent_transactions)),
         {| self := <[card_id := recent_transactions]> (self w);
            sys := tick 1 (sys w) |})
      end
    end.
Proof.
  cbv zeta. intros Ht. unfold VelocityCheckRule_evaluate. run. rewrite Ht. cbn [negb]. run.
  set (card_id := default VNone (transaction !! "card_id")).
  set (timestamp := default _ (transaction !! "timestamp")).
  set (m1 := match self w !! card_id with
             | None => <[card_id := []]> (self w)
             | Some _ => self w
             end).
  assert (default [] (m1 !! card_id) = default [] (self w !! card_id)) as Hh1.
  { subst m1. destruct (self w !! card_id) eqn:E; [by rewrite E|].
    by rewrite lookup_insert_eq. }
  assert (<[card_id := default [] (m1 !! card_id) ++ [timestamp]]> m1
          = <[card_id := default [] (self w !! card_id) ++ [timestamp]]> (self w)) as ->.
  { rewrite Hh1. subst m1. destruct (self w !! card_id); [done|].
    by rewrite insert_insert_eq. }
  destruct (sub_timedelta timestamp time_window) as [cutoff_time|e]; [|done]. run.
  rewrite lookup_insert_eq. cbn [default]. unfold id.
  destruct (recent_since cutoff_time _) as [recent|e]; [|done]. run.
  rewrite insert_insert_eq. unfold velocity_verdict. by case_bool_decide.
Qed.

(** X28. The velocity rule reads the clock once, whether the transaction
    has a timestamp or not, and changes the history of no card but the one
    of the transaction, whatever it returns or raises. On a transaction
    without a card id, or with a falsy one, it is not flagged and the
    histories are as they were; otherwise the card has a history after the
    call. *)
Theorem velocity_rule_touches_one_card (max_transactions time_window : Z)
    (transaction : gmap string PyVal) (w : World (gmap PyVal (list PyVal))) :
  let card_id := default VNone (transaction !! "card_id") in
  let r := VelocityCheckRule_evaluate max_transactions time_window transaction w in
  sys r.2 = tick 1 (sys w)
  ∧ (∀ other, other ≠ card_id → self r.2 !! other = self w !! other)
  ∧ (truthy card_id = false → r.1 = Return (false, LOW, "") ∧ self r.2 = self w)
  ∧ (truthy card_id = true → is_Some (self r.2 !! card_id)).
Proof.
  cbv zeta. destruct (truthy (default VNone (transaction !! "card_id"))) eqn:Ht.
  - rewrite VelocityCheckRule_evaluate_eq by done.
    destruct (sub_timedelta _ _) as [cutoff_time|e];
      [destruct (recent_since _ _) as [recent|e]|]; cbn [fst snd self sys];
      (split; [done|]); (split; [intros other Hne; by rewrite lookup_insert_ne|]);
      (split; [done|]); intros _; rewrite lookup_insert_eq; by eexists.
  - unfold VelocityCheckRule_evaluate. run. rewrite Ht. cbn [negb]. run.
    split; [done|]. split; [done|]. split; [done|]. done.
Qed.




End RuleFacts.

#[local] Existing Instance Examples.platform.


End RuleSpec.
